(** * SpineMLConnection: the per-connection protocol engine

    A shallow embedding of [networkserver/matlab/SpineMLConnection.h]:
    the four-stage handshake, the steady-state read and write ticks with
    their acknowledgement and stall handling, and the FIFO accessors.

    Conventions of the embedding.
    - A [char] of the wire is a [Byte.byte]; [char_val] is its value as the
      (signed) [char] the code compares, [uchar_val] its value after the
      cast [(unsigned char)].
    - [int], [unsigned int], [ssize_t] and [size_t] values are [Z], with the
      conversions between them written out ([to_int], [to_uint], [to_size_t]).
    - A [double] is the 64-bit pattern it has in memory, little-endian on
      the wire; the code only ever copies doubles, it never computes on them.
    - A pointer that may be null is an [option]; [None] is the null pointer.
    - [read(2)], [write(2)] and [errno] are the environment: a [world] holds
      the script of what the next calls will yield and the log of what was
      transferred.
    - The allocation of the scratch buffer, whose size the client chooses,
      is granted or refused by the [world] ([heap]); refused, it leaves
      [doHandshake] by [std::bad_alloc].  The deque and the name, small
      objects, are taken to be allocated.
    - Where the behaviour of the code is undefined (a local array of
      negative size in the handshake) the embedding says so and stops.
    - [lockDataMutex]/[unlockDataMutex] guard the deque against the other
      thread; the embedding is sequential and they do not appear in the
      ticks.  The accessors are also given with the mutex in view (section
      "The data mutex"). *)

From stdpp Require Import base option list strings gmap.
From Stdlib Require Import ZArith Lia.
From Stdlib.Strings Require Import Byte Ascii.
Import ListNotations.
Local Open Scope Z_scope.

(** ** Characters and machine integers *)

Definition uchar_val (b : byte) : Z := Z.of_N (Byte.to_N b).

Definition char_val (b : byte) : Z :=
  if uchar_val b <? 128 then uchar_val b else uchar_val b - 256.

Definition to_int (z : Z) : Z := (z + 2 ^ 31) mod 2 ^ 32 - 2 ^ 31.
Definition to_uint (z : Z) : Z := z mod 2 ^ 32.
Definition to_size_t (z : Z) : Z := z mod 2 ^ 64.

Definition INT_MAX : Z := 2 ^ 31 - 1.

(** The value a [char] constant of the protocol has on the wire. *)
Definition char_of (z : Z) : byte :=
  match Byte.of_N (Z.to_N (z mod 256)) with
  | Some b => b
  | None => x00
  end.

(** ** Protocol constants *)

Definition RESP_DATA_NUMS : Z := 31.
Definition RESP_DATA_SPIKES : Z := 32.
Definition RESP_DATA_IMPULSES : Z := 33.
Definition RESP_HELLO : Z := 41.
Definition RESP_RECVD : Z := 42.
Definition RESP_ABORT : Z := 43.
Definition RESP_FINISHED : Z := 44.
Definition AM_SOURCE : Z := 45.
Definition AM_TARGET : Z := 46.
Definition NOT_SET : Z := 99.

Definition CS_HS_GETTINGTARGET : Z := 0.
Definition CS_HS_GETTINGDATATYPE : Z := 1.
Definition CS_HS_GETTINGDATASIZE : Z := 2.
Definition CS_HS_GETTINGNAME : Z := 3.
Definition CS_HS_DONE : Z := 4.

Definition NO_DATA_MAX_COUNT : Z := 100.

(** [errno] value of a connection reset by the peer (<errno.h>, Linux). *)
Definition ECONNRESET : Z := 104.

(** ** Doubles on the wire *)

Definition double : Type := Z.

Definition sizeof_double : Z := 8.

Fixpoint le_bytes (n : nat) (v : Z) : list byte :=
  match n with
  | O => []
  | S n' => char_of (Z.land v 255) :: le_bytes n' (Z.shiftr v 8)
  end.

Fixpoint le_value (bs : list byte) : Z :=
  match bs with
  | [] => 0
  | b :: bs' => Z.lor (uchar_val b) (Z.shiftl (le_value bs') 8)
  end.

(** The memory image of an array of doubles. *)
Definition bytes_of_doubles (ds : list double) : list byte :=
  flat_map (le_bytes 8) ds.

(** The first [n] doubles held by a memory image. *)
Fixpoint doubles_of_bytes (n : nat) (bs : list byte) : list double :=
  match n with
  | O => []
  | S n' => le_value (firstn 8 bs) :: doubles_of_bytes n' (skipn 8 bs)
  end.

(** [src] copied over the start of [dst], as [read] does with a buffer. *)
Definition overwrite (dst src : list byte) : list byte :=
  src ++ skipn (length src) dst.

(** ** The environment: socket, errno, the heap and the data cache *)

Inductive read_event : Type :=
| RdBytes (bs : list byte)   (* these bytes are available to the call *)
| RdErr (e : Z).             (* the call fails: -1, errno = e *)

Inductive write_event : Type :=
| WrAll                      (* the whole buffer is transferred *)
| WrPartial (k : nat)        (* at most k bytes are transferred *)
| WrErr (e : Z).             (* the call fails: -1, errno = e *)

Inductive io_event : Type :=
| EvRecv (bs : list byte)
| EvSend (bs : list byte).

(** [heap] is what the machine can give to one [new double[n]]: the
    request is granted when its [n * sizeof(double)] bytes do not exceed it,
    and ends in [std::bad_alloc] otherwise. *)
Record world : Type := mkWorld {
  incoming : list read_event;
  wresults : list write_event;
  errno : Z;
  trace : list io_event;
  dataCache : option (gmap string (list double));
  heap : Z
}.

Definition set_incoming (q : list read_event) (w : world) : world :=
  mkWorld q (wresults w) (errno w) (trace w) (dataCache w) (heap w).
Definition set_wresults (q : list write_event) (w : world) : world :=
  mkWorld (incoming w) q (errno w) (trace w) (dataCache w) (heap w).
Definition set_errno (e : Z) (w : world) : world :=
  mkWorld (incoming w) (wresults w) e (trace w) (dataCache w) (heap w).
Definition log_event (ev : io_event) (w : world) : world :=
  mkWorld (incoming w) (wresults w) (errno w) (trace w ++ [ev]) (dataCache w) (heap w).
Definition set_dataCache (dc : option (gmap string (list double))) (w : world) : world :=
  mkWorld (incoming w) (wresults w) (errno w) (trace w) dc (heap w).

(** [read (fd, buf, count)]: the value returned, the bytes stored at the
    start of [buf], and the world afterwards.  Bytes of the head event
    beyond [count] stay queued; with nothing scripted the call yields 0. *)
Definition sock_read (count : Z) (w : world) : Z * list byte * world :=
  match incoming w with
  | [] => (0, [], w)
  | RdErr e :: q => (-1, [], set_errno e (set_incoming q w))
  | RdBytes bs :: q =>
      let k := Z.to_nat (Z.min count (Z.of_nat (length bs))) in
      let got := firstn k bs in
      let q' := match skipn k bs with
                | [] => q
                | rest => RdBytes rest :: q
                end in
      (Z.of_nat (length got), got, log_event (EvRecv got) (set_incoming q' w))
  end.

(** [write (fd, buf, count)] with [buf] holding [bs], [count = length bs]:
    the value returned and the world afterwards.  With nothing scripted the
    whole buffer goes out. *)
Definition sock_write (bs : list byte) (w : world) : Z * world :=
  match wresults w with
  | [] => (Z.of_nat (length bs), log_event (EvSend bs) w)
  | WrAll :: q => (Z.of_nat (length bs), log_event (EvSend bs) (set_wresults q w))
  | WrPartial k :: q =>
      let out := firstn k bs in
      (Z.of_nat (length out), log_event (EvSend out) (set_wresults q w))
  | WrErr e :: q => (-1, set_errno e (set_wresults q w))
  end.

(** What the peer has been sent, one entry per [write] that transferred. *)
Fixpoint sent_of (t : list io_event) : list (list byte) :=
  match t with
  | [] => []
  | EvSend bs :: t' => bs :: sent_of t'
  | EvRecv _ :: t' => sent_of t'
  end.

Definition sent (w : world) : list (list byte) := sent_of (trace w).

(** ** The connection object *)

Record SpineMLConnection : Type := mkConn {
  connectingSocket : Z;
  established : bool;
  failed : bool;
  finished : bool;
  unacknowledgedDataSent : bool;
  noData : Z;
  clientConnectionName : string;
  clientDataDirection : Z;
  clientDataType : Z;
  clientDataSize : Z;
  data : option (list double);
  smallbuf : list byte;
  doublebuf : option (list byte)
}.

Definition set_established (v : bool) (c : SpineMLConnection) :=
  mkConn (connectingSocket c) v (failed c) (finished c) (unacknowledgedDataSent c)
         (noData c) (clientConnectionName c) (clientDataDirection c) (clientDataType c)
         (clientDataSize c) (data c) (smallbuf c) (doublebuf c).
Definition set_failed (v : bool) (c : SpineMLConnection) :=
  mkConn (connectingSocket c) (established c) v (finished c) (unacknowledgedDataSent c)
         (noData c) (clientConnectionName c) (clientDataDirection c) (clientDataType c)
         (clientDataSize c) (data c) (smallbuf c) (doublebuf c).
Definition set_finished (v : bool) (c : SpineMLConnection) :=
  mkConn (connectingSocket c) (established c) (failed c) v (unacknowledgedDataSent c)
         (noData c) (clientConnectionName c) (clientDataDirection c) (clientDataType c)
         (clientDataSize c) (data c) (smallbuf c) (doublebuf c).
Definition set_unacknowledgedDataSent (v : bool) (c : SpineMLConnection) :=
  mkConn (connectingSocket c) (established c) (failed c) (finished c) v
         (noData c) (clientConnectionName c) (clientDataDirection c) (clientDataType c)
         (clientDataSize c) (data c) (smallbuf c) (doublebuf c).
Definition set_noData (v : Z) (c : SpineMLConnection) :=
  mkConn (connectingSocket c) (established c) (failed c) (finished c) (unacknowledgedDataSent c)
         v (clientConnectionName c) (clientDataDirection c) (clientDataType c)
         (clientDataSize c) (data c) (smallbuf c) (doublebuf c).
Definition set_clientConnectionName (v : string) (c : SpineMLConnection) :=
  mkConn (connectingSocket c) (established c) (failed c) (finished c) (unacknowledgedDataSent c)
         (noData c) v (clientDataDirection c) (clientDataType c)
         (clientDataSize c) (data c) (smallbuf c) (doublebuf c).
Definition set_clientDataDirection (v : Z) (c : SpineMLConnection) :=
  mkConn (connectingSocket c) (established c) (failed c) (finished c) (unacknowledgedDataSent c)
         (noData c) (clientConnectionName c) v (clientDataType c)
         (clientDataSize c) (data c) (smallbuf c) (doublebuf c).
Definition set_clientDataType (v : Z) (c : SpineMLConnection) :=
  mkConn (connectingSocket c) (established c) (failed c) (finished c) (unacknowledgedDataSent c)
         (noData c) (clientConnectionName c) (clientDataDirection c) v
         (clientDataSize c) (data c) (smallbuf c) (doublebuf c).
Definition set_clientDataSize (v : Z) (c : SpineMLConnection) :=
  mkConn (connectingSocket c) (established c) (failed c) (finished c) (unacknowledgedDataSent c)
         (noData c) (clientConnectionName c) (clientDataDirection c) (clientDataType c)
         v (data c) (smallbuf c) (doublebuf c).
Definition set_data (v : option (list double)) (c : SpineMLConnection) :=
  mkConn (connectingSocket c) (established c) (failed c) (finished c) (unacknowledgedDataSent c)
         (noData c) (clientConnectionName c) (clientDataDirection c) (clientDataType c)
         (clientDataSize c) v (smallbuf c) (doublebuf c).
Definition set_smallbuf (v : list byte) (c : SpineMLConnection) :=
  mkConn (connectingSocket c) (established c) (failed c) (finished c) (unacknowledgedDataSent c)
         (noData c) (clientConnectionName c) (clientDataDirection c) (clientDataType c)
         (clientDataSize c) (data c) v (doublebuf c).
Definition set_doublebuf (v : option (list byte)) (c : SpineMLConnection) :=
  mkConn (connectingSocket c) (established c) (failed c) (finished c) (unacknowledgedDataSent c)
         (noData c) (clientConnectionName c) (clientDataDirection c) (clientDataType c)
         (clientDataSize c) (data c) (smallbuf c) v.
Definition set_connectingSocket (v : Z) (c : SpineMLConnection) :=
  mkConn v (established c) (failed c) (finished c) (unacknowledgedDataSent c)
         (noData c) (clientConnectionName c) (clientDataDirection c) (clientDataType c)
         (clientDataSize c) (data c) (smallbuf c) (doublebuf c).

(** The constructor.  [smallbuf] is not initialised by the code; the
    embedding fills its 16 chars with zeros. *)
Definition new_SpineMLConnection : SpineMLConnection :=
  mkConn 0 false false false false 0 EmptyString NOT_SET NOT_SET 1 None
         (repeat x00 16) None.

(** [smallbuf[i]] *)
Definition smallbuf_at (i : nat) (c : SpineMLConnection) : byte :=
  nth i (smallbuf c) x00.

(** [smallbuf[0] = v] *)
Definition smallbuf_put0 (v : Z) (c : SpineMLConnection) : SpineMLConnection :=
  set_smallbuf (overwrite (smallbuf c) [char_of v]) c.

(** [read (connectingSocket, smallbuf, count)] *)
Definition read_smallbuf (count : Z) (c : SpineMLConnection) (w : world)
  : Z * SpineMLConnection * world :=
  let '(b, bs, w') := sock_read count w in
  (b, set_smallbuf (overwrite (smallbuf c) bs) c, w').

(** [write (connectingSocket, smallbuf, 1)] *)
Definition write_smallbuf1 (c : SpineMLConnection) (w : world) : Z * world :=
  sock_write [smallbuf_at 0 c] w.

(** ** doHandshake *)

(** [(unsigned char)smallbuf[0] | (unsigned char)smallbuf[1] << 8
     | (unsigned char)smallbuf[2] << 16 | (unsigned char)smallbuf[3] << 24],
    an expression of type [int]. *)
Definition smallbuf_word (c : SpineMLConnection) : Z :=
  to_int (Z.lor (Z.lor (Z.lor (uchar_val (smallbuf_at 0 c))
                              (Z.shiftl (uchar_val (smallbuf_at 1 c)) 8))
                       (Z.shiftl (uchar_val (smallbuf_at 2 c)) 16))
                (Z.shiftl (uchar_val (smallbuf_at 3 c)) 24)).

(** The chars of a C string: those before the first NUL. *)
Fixpoint c_str (bs : list byte) : list byte :=
  match bs with
  | [] => []
  | b :: bs' => if Byte.eqb b x00 then [] else b :: c_str bs'
  end.

(** [++this->noData] on an [unsigned int]. *)
Definition incr_noData (c : SpineMLConnection) : SpineMLConnection :=
  set_noData (to_uint (noData c + 1)) c.

(** What one pass through the body of the [while] loop yields: a [return]
    out of the function; the state at the end of the body; the exception
    [std::bad_alloc], which nothing in the function catches and which
    leaves it with the state reached; or behaviour that is undefined. *)
Inductive hs_iter_result : Type :=
| HsReturn (rc : Z) (c : SpineMLConnection) (w : world)
| HsNext (handshakeStage : Z) (c : SpineMLConnection) (w : world)
| HsThrows (c : SpineMLConnection) (w : world)
| HsUndefined.

Definition hs_fail (c : SpineMLConnection) (w : world) : hs_iter_result :=
  HsReturn (-1) (set_failed true c) w.

Definition hs_getting_target (handshakeStage : Z) (c : SpineMLConnection) (w : world)
  : hs_iter_result :=
  let '(b, c, w) := read_smallbuf 1 c w in
  if b =? 1 then
    if (char_val (smallbuf_at 0 c) =? AM_SOURCE)
       || (char_val (smallbuf_at 0 c) =? AM_TARGET) then
      let c := set_clientDataDirection (char_val (smallbuf_at 0 c)) c in
      let c := smallbuf_put0 RESP_HELLO c in
      let '(n, w) := write_smallbuf1 c w in
      if negb (n =? 1) then hs_fail c w
      else HsNext (handshakeStage + 1) (set_noData 0 c) w
    else
      hs_fail (set_clientDataDirection NOT_SET c) w
  else
    HsNext handshakeStage (incr_noData c) w.

Definition hs_getting_datatype (handshakeStage : Z) (c : SpineMLConnection) (w : world)
  : hs_iter_result :=
  let '(b, c, w) := read_smallbuf 1 c w in
  if b =? 1 then
    if char_val (smallbuf_at 0 c) =? RESP_DATA_NUMS then
      let c := set_clientDataType (char_val (smallbuf_at 0 c)) c in
      let c := smallbuf_put0 RESP_RECVD c in
      let '(n, w) := write_smallbuf1 c w in
      if negb (n =? 1) then hs_fail c w
      else HsNext (handshakeStage + 1) (set_noData 0 c) w
    else if (char_val (smallbuf_at 0 c) =? RESP_DATA_SPIKES)
            || (char_val (smallbuf_at 0 c) =? RESP_DATA_IMPULSES) then
      hs_fail c w
    else
      hs_fail c w
  else
    HsNext handshakeStage (incr_noData c) w.

(** Whether the world grants [new double[n]]. *)
Definition grants (w : world) (n : Z) : bool := sizeof_double * n <=? heap w.

(** The memory of [n] doubles that a granted [new double[n]] yields.  The
    code leaves it uninitialised; the embedding fills it with zeros. *)
Definition new_doubles (n : Z) : list byte :=
  repeat x00 (Z.to_nat (sizeof_double * n)).

Definition hs_getting_datasize (handshakeStage : Z) (c : SpineMLConnection) (w : world)
  : hs_iter_result :=
  let '(b, c, w) := read_smallbuf 4 c w in
  if b =? 4 then
    let c := set_clientDataSize (to_uint (smallbuf_word c)) c in
    if negb (grants w (clientDataSize c)) then HsThrows c w
    else
      let c := set_doublebuf (Some (new_doubles (clientDataSize c))) c in
      let c := smallbuf_put0 RESP_RECVD c in
      let '(n, w) := write_smallbuf1 c w in
      if negb (n =? 1) then hs_fail c w
      else HsNext (handshakeStage + 1) (set_noData 0 c) w
  else if 0 <? b then
    hs_fail c w
  else
    HsNext handshakeStage (incr_noData c) w.

(** The look-up of the connection name in [dataCache], which hands the
    connection its deque: the cached one (erased from the cache) or a new
    empty one. *)
Definition attach_data (c : SpineMLConnection) (w : world) : SpineMLConnection * world :=
  match dataCache w with
  | Some dc =>
      match dc !! clientConnectionName c with
      | Some d =>
          (set_data (Some d) c,
           set_dataCache (Some (delete (clientConnectionName c) dc)) w)
      | None => (set_data (Some []) c, w)
      end
  | None => (set_data (Some []) c, w)
  end.

(** Stage 4.  [namebuf] is a local array of [1+nameSize] chars; the read
    stores the name in it and the code terminates it with a NUL at index
    [nameSize].  A [nameSize] below -1 asks for an array of negative size:
    the behaviour is undefined, and the embedding stops there.  At -1 the
    array has no element (which the compiler accepts), the read is asked
    for [(size_t)-1] bytes, and the terminator and the assignment touch the
    memory next to the array: the embedding then takes the bytes the read
    returned as the array, as the compiled code is seen to do. *)
Definition hs_getting_name (handshakeStage : Z) (c : SpineMLConnection) (w : world)
  : hs_iter_result :=
  let '(b, c, w) := read_smallbuf 4 c w in
  if b =? 4 then
    let nameSize := smallbuf_word c in
    if 1024 <? nameSize then hs_fail c w
    else if 1 + nameSize <? 0 then HsUndefined
    else
      let '(b, namebuf, w) := sock_read (to_size_t nameSize) w in
      if negb (b =? nameSize) then hs_fail c w
      else
        let namebuf := namebuf ++ [x00] in
        let c := set_clientConnectionName (String.string_of_list_byte (c_str namebuf)) c in
        let c := smallbuf_put0 RESP_RECVD c in
        let '(n, w) := write_smallbuf1 c w in
        if negb (n =? 1) then hs_fail c w
        else
          let '(c, w) := attach_data c w in
          HsNext (handshakeStage + 1) (set_noData 0 c) w
  else if 0 <? b then
    hs_fail c w
  else
    HsNext handshakeStage (incr_noData c) w.

(** The body of the loop. *)
Definition hs_iter (handshakeStage : Z) (c : SpineMLConnection) (w : world)
  : hs_iter_result :=
  if handshakeStage =? CS_HS_GETTINGTARGET then hs_getting_target handshakeStage c w
  else if handshakeStage =? CS_HS_GETTINGDATATYPE then hs_getting_datatype handshakeStage c w
  else if handshakeStage =? CS_HS_GETTINGDATASIZE then hs_getting_datasize handshakeStage c w
  else if handshakeStage =? CS_HS_GETTINGNAME then hs_getting_name handshakeStage c w
  else if handshakeStage =? CS_HS_DONE then HsNext handshakeStage c w
  else hs_fail c w.

(** The world a pass leaves can give to an allocation what [w] could. *)
Definition heap_kept (w : world) (r : hs_iter_result) : Prop :=
  match r with
  | HsReturn _ _ w' => heap w' = heap w
  | HsNext _ _ w' => heap w' = heap w
  | HsThrows _ w' => heap w' = heap w
  | HsUndefined => True
  end.

Inductive hs_loop_result : Type :=
| LoopReturn (rc : Z) (c : SpineMLConnection) (w : world)
| LoopExit (handshakeStage : Z) (c : SpineMLConnection) (w : world)
| LoopThrows (c : SpineMLConnection) (w : world)
| LoopUndefined
| OutOfGas.

(** [while (handshakeStage != CS_HS_DONE && noData < NO_DATA_MAX_COUNT)],
    run for at most [gas] passes. *)
Fixpoint hs_loop (gas : nat) (handshakeStage : Z) (c : SpineMLConnection) (w : world)
  : hs_loop_result :=
  if negb (handshakeStage =? CS_HS_DONE) && (noData c <? NO_DATA_MAX_COUNT) then
    match gas with
    | O => OutOfGas
    | S gas' =>
        match hs_iter handshakeStage c w with
        | HsReturn rc c' w' => LoopReturn rc c' w'
        | HsNext handshakeStage' c' w' => hs_loop gas' handshakeStage' c' w'
        | HsThrows c' w' => LoopThrows c' w'
        | HsUndefined => LoopUndefined
        end
    end
  else LoopExit handshakeStage c w.

(** A bound on the passes the loop can still make: every pass returns,
    moves to the next stage, or counts one more read without data. *)
Definition hs_bound (handshakeStage : Z) (nd : Z) : nat :=
  Z.to_nat ((CS_HS_GETTINGNAME - handshakeStage) * NO_DATA_MAX_COUNT
            + (NO_DATA_MAX_COUNT - nd)).

(** The code after the loop: the value returned with the state, or [None]
    when no value is returned. *)
Definition hs_finish (r : hs_loop_result) : option (Z * SpineMLConnection * world) :=
  match r with
  | LoopReturn rc c w => Some (rc, c, w)
  | LoopExit _ c w =>
      if NO_DATA_MAX_COUNT <=? noData c then Some (-1, set_failed true c, w)
      else Some (0, set_established true c, w)
  | LoopThrows _ _ => None
  | LoopUndefined => None
  | OutOfGas => None
  end.

(** The handshake entered at a given stage with the connection's current
    count of reads without data. *)
Definition handshake_from (handshakeStage : Z) (c : SpineMLConnection) (w : world)
  : option (Z * SpineMLConnection * world) :=
  hs_finish (hs_loop (hs_bound handshakeStage (noData c)) handshakeStage c w).

(** How the loop of [doHandshake] ends. *)
Definition handshake_loop (c : SpineMLConnection) (w : world) : hs_loop_result :=
  hs_loop (hs_bound CS_HS_GETTINGTARGET 0) CS_HS_GETTINGTARGET (set_noData 0 c) w.

(** [doHandshake]: the value returned with the state afterwards.  [None]:
    the call returns nothing, because it leaves by [std::bad_alloc] or its
    behaviour is undefined ([handshake_loop] tells which); a loop still
    running after [hs_bound] passes would give [None] too, and
    [hs_loop_total] shows there is none. *)
Definition doHandshake (c : SpineMLConnection) (w : world)
  : option (Z * SpineMLConnection * world) :=
  handshake_from CS_HS_GETTINGTARGET (set_noData 0 c) w.

(** ** The steady state: doReadFromClient, doWriteToClient, doInputOutput *)

(** The result of a tick: the value returned with the state afterwards, or
    [TickNull] when the call reaches a null [data] or [doublebuf] (a
    dereference whose behaviour is undefined, or a read into no buffer):
    the embedding stops there.  [doInputOutput] makes no tick before the
    handshake has set both. *)
Inductive tick_result : Type :=
| Tick (rc : Z) (c : SpineMLConnection) (w : world)
| TickNull.

(** [this->data->push_back (v)] *)
Definition push_back (v : double) (c : SpineMLConnection) : option SpineMLConnection :=
  match data c with
  | None => None
  | Some d => Some (set_data (Some (d ++ [v])) c)
  end.

(** [while (i < clientDataSize) { push_back of the double at p; ++p; ++i; }] with [n]
    passes left and [p] the memory from the pointer on. *)
Fixpoint push_loop (n : nat) (p : list byte) (c : SpineMLConnection)
  : option SpineMLConnection :=
  match n with
  | O => Some c
  | S n' =>
      match push_back (le_value (firstn 8 p)) c with
      | None => None
      | Some c' => push_loop n' (skipn 8 p) c'
      end
  end.

(** The tail of [doReadFromClient]: write RESP_RECVD. *)
Definition send_recvd (c : SpineMLConnection) (w : world) : tick_result :=
  let c := smallbuf_put0 RESP_RECVD c in
  let '(n, w) := write_smallbuf1 c w in
  if negb (n =? 1) then
    let theError := errno w in
    if theError =? ECONNRESET then Tick 1 c w else Tick (-1) c w
  else Tick 0 c w.

Definition doReadFromClient (c : SpineMLConnection) (w : world) : tick_result :=
  let datachunk := to_size_t (sizeof_double * clientDataSize c) in
  match doublebuf c with
  | None => TickNull
  | Some db =>
      let '(r, bs, w) := sock_read datachunk w in
      let c := set_doublebuf (Some (overwrite db bs)) c in
      let b := to_int r in
      if b <? 0 then Tick (-1) c w
      else if to_size_t b =? datachunk then
        match push_loop (Z.to_nat (clientDataSize c)) (overwrite db bs) c with
        | None => TickNull
        | Some c => send_recvd (set_noData 0 c) w
        end
      else if (b =? 0) && (noData c <? NO_DATA_MAX_COUNT) then
        Tick 0 (incr_noData c) w
      else if (b =? 0) && (noData c =? NO_DATA_MAX_COUNT) then
        Tick 1 c w
      else send_recvd c w
  end.

(** [*p = v] for [p] the [i]-th double of the memory [m]. *)
Definition store_double (i : nat) (v : double) (m : list byte) : list byte :=
  firstn (8 * i) m ++ le_bytes 8 v ++ skipn (8 * i + 8) m.

(** [while (j < clientDataSize) { *p++ = data->at(0); ++j; data->pop_front(); }]
    with [n] passes left and [p] pointing at the [i]-th double of
    [doublebuf].  [None]: a null pointer, or [at(0)] on an empty deque
    (the caller has checked that the deque holds enough).  The counter [j]
    is an [int] compared as [unsigned]; wrapped or not it makes
    [clientDataSize] passes. *)
Fixpoint drain_loop (n : nat) (i : nat) (c : SpineMLConnection)
  : option SpineMLConnection :=
  match n with
  | O => Some c
  | S n' =>
      match data c, doublebuf c with
      | Some (v :: d'), Some m =>
          drain_loop n' (S i)
            (set_data (Some d') (set_doublebuf (Some (store_double i v m)) c))
      | _, _ => None
      end
  end.

(** The second half of [doWriteToClient], from [lockDataMutex] on. *)
Definition write_batch (c : SpineMLConnection) (w : world) : tick_result :=
  match data c with
  | None => TickNull
  | Some d =>
      if clientDataSize c <=? Z.of_nat (length d) then
        match drain_loop (Z.to_nat (clientDataSize c)) 0 c with
        | None => TickNull
        | Some c =>
            match doublebuf c with
            | None => TickNull
            | Some m =>
                let count := to_size_t (clientDataSize c * sizeof_double) in
                let '(bytesWritten, w) := sock_write (firstn (Z.to_nat count) m) w in
                if negb (to_size_t bytesWritten =? count) then Tick (-1) c w
                else Tick 0 (set_noData 0 (set_unacknowledgedDataSent true c)) w
            end
        end
      else if NO_DATA_MAX_COUNT <=? noData c then Tick 1 c w
      else Tick 0 (incr_noData c) w
  end.

Definition doWriteToClient (c : SpineMLConnection) (w : world) : tick_result :=
  if unacknowledgedDataSent c then
    let '(r, c, w) := read_smallbuf 1 c w in
    let b := to_int r in
    if b =? 1 then
      if negb (char_val (smallbuf_at 0 c) =? RESP_RECVD) then Tick (-1) c w
      else write_batch (set_noData 0 (set_unacknowledgedDataSent false c)) w
    else if (b =? 0) && (noData c <? NO_DATA_MAX_COUNT) then
      Tick 0 (incr_noData c) w
    else if (b =? 0) && (noData c =? NO_DATA_MAX_COUNT) then
      let theError := errno w in
      if theError =? 0 then Tick 1 c w else Tick (-1) c w
    else
      let theError := errno w in
      if theError =? ECONNRESET then Tick 1 c w else Tick (-1) c w
  else write_batch c w.

Definition doInputOutput (c : SpineMLConnection) (w : world) : tick_result :=
  if negb (established c) then Tick 0 c w
  else if clientDataDirection c =? AM_TARGET then
    match doWriteToClient c w with
    | TickNull => TickNull
    | Tick drc c w =>
        if drc =? -1 then Tick (-1) (set_finished true (set_failed true c)) w
        else if drc =? 1 then Tick 1 (set_finished true c) w
        else Tick 0 c w
    end
  else if clientDataDirection c =? AM_SOURCE then
    match doReadFromClient c w with
    | TickNull => TickNull
    | Tick drc c w =>
        if drc =? -1 then Tick (-1) (set_finished true (set_failed true c)) w
        else if drc =? 1 then Tick 1 (set_finished true c) w
        else Tick 0 c w
    end
  else Tick 0 c w.

(** ** The accessors of the deque: addNum, addData, getDataSize, popFront

    Each accessor is given here by what it does to the connection once it
    holds [dataMutex]: its code between [lockDataMutex] and
    [unlockDataMutex] (with the test of the flags that [addNum] and
    [addData] make first).  The calls as a whole, which take the mutex, may
    block on it and may leave it held, are [popFront_locking] and its like
    in the section on the data mutex. *)

(** What the body of an accessor does: it returns, it throws
    [std::out_of_range], or it dereferences the null [data] pointer. *)
Inductive access (A : Type) : Type :=
| Returns (a : A) (c : SpineMLConnection)
| ThrowsOutOfRange (c : SpineMLConnection)
| NullPointer.
Arguments Returns {A} a c.
Arguments ThrowsOutOfRange {A} c.
Arguments NullPointer {A}.

Definition addNum (d : double) (c : SpineMLConnection) : access unit :=
  if negb (established c) || failed c then Returns tt c
  else
    match push_back d c with
    | None => NullPointer
    | Some c' => Returns tt c'
    end.

(** The loop of [addData]: [n] passes left, [d] the array from the pointer
    on.  Reading past the end of the caller's array is the caller's error;
    the embedding reads a zero there. *)
Fixpoint addData_loop (n : nat) (d : list double) (c : SpineMLConnection)
  : option SpineMLConnection :=
  match n with
  | O => Some c
  | S n' =>
      match push_back (hd 0 d) c with
      | None => None
      | Some c' => addData_loop n' (tl d) c'
      end
  end.

Definition addData (d : list double) (dataSize : Z) (c : SpineMLConnection)
  : access unit :=
  if negb (established c) || failed c then Returns tt c
  else
    match addData_loop (Z.to_nat dataSize) d c with
    | None => NullPointer
    | Some c' => Returns tt c'
    end.

Definition getDataSize (c : SpineMLConnection) : access Z :=
  match data c with
  | None => NullPointer
  | Some d => Returns (Z.of_nat (length d)) c
  end.

(** [rtn = data->at(0); data->pop_front(); return rtn;]: the body of
    [popFront] under the mutex.  The exception of [at(0)] leaves the
    connection as it was, and the mutex held: see [popFront_locking]. *)
Definition popFront (c : SpineMLConnection) : access double :=
  match data c with
  | None => NullPointer
  | Some [] => ThrowsOutOfRange c
  | Some (v :: d') => Returns v (set_data (Some d') c)
  end.

(** [k] calls of [popFront] in a row: the values returned, in the order of
    the calls, and the connection afterwards; [None] when a call does not
    return. *)
Fixpoint popFront_times (k : nat) (c : SpineMLConnection)
  : option (list double * SpineMLConnection) :=
  match k with
  | O => Some ([], c)
  | S k' =>
      match popFront c with
      | Returns v c' =>
          match popFront_times k' c' with
          | Some (vs, c'') => Some (v :: vs, c'')
          | None => None
          end
      | _ => None
      end
  end.

(** One call of [addNum] for each value of a list, in order. *)
Fixpoint addNum_each (vs : list double) (c : SpineMLConnection)
  : option SpineMLConnection :=
  match vs with
  | [] => Some c
  | v :: vs' =>
      match addNum v c with
      | Returns _ c' => addNum_each vs' c'
      | _ => None
      end
  end.

(** ** Runs of ticks, and what is in flight *)

(** [k] ticks of [doWriteToClient] in a row, each made only if the one
    before returned 0: the result of the last tick made. *)
Fixpoint write_ticks (k : nat) (c : SpineMLConnection) (w : world) : tick_result :=
  match k with
  | O => Tick 0 c w
  | S k' =>
      match doWriteToClient c w with
      | Tick rc c' w' => if rc =? 0 then write_ticks k' c' w' else Tick rc c' w'
      | TickNull => TickNull
      end
  end.

(** The same for [doReadFromClient]. *)
Fixpoint read_ticks (k : nat) (c : SpineMLConnection) (w : world) : tick_result :=
  match k with
  | O => Tick 0 c w
  | S k' =>
      match doReadFromClient c w with
      | Tick rc c' w' => if rc =? 0 then read_ticks k' c' w' else Tick rc c' w'
      | TickNull => TickNull
      end
  end.

(** A read that delivered the single byte RESP_RECVD. *)
Definition is_ack (ev : io_event) : bool :=
  match ev with
  | EvRecv [b] => char_val b =? RESP_RECVD
  | _ => false
  end.

Fixpoint acks_received (t : list io_event) : Z :=
  match t with
  | [] => 0
  | ev :: t' => (if is_ack ev then 1 else 0) + acks_received t'
  end.

Definition batches_sent (t : list io_event) : Z := Z.of_nat (length (sent_of t)).

(** On the write path: the batches written between the worlds [w0] and [w]
    less the acknowledgements read in between. *)
Definition in_flight (w0 w : world) : Z :=
  (batches_sent (trace w) - batches_sent (trace w0))
  - (acks_received (trace w) - acks_received (trace w0)).

Definition flag (b : bool) : Z := if b then 1 else 0.

(** What a tick leaves of the books: batches written, less
    acknowledgements read, less the one the flag says is awaited. *)
Definition balance (c : SpineMLConnection) (w : world) : Z :=
  batches_sent (trace w) - acks_received (trace w)
  - flag (unacknowledgedDataSent c).

(** ** closeSocket *)

(** [closeSocket], given the value that [close (connectingSocket)]
    returns: a value other than 0 is only logged, 0 resets
    [connectingSocket]; either way the connection stops being
    established. *)
Definition closeSocket (close_rc : Z) (c : SpineMLConnection) : SpineMLConnection :=
  let c := if negb (close_rc =? 0) then c else set_connectingSocket 0 c in
  set_established false c.

(** [k] calls of [doInputOutput] in a row, each made only if the one
    before returned 0. *)
Fixpoint io_ticks (k : nat) (c : SpineMLConnection) (w : world) : tick_result :=
  match k with
  | O => Tick 0 c w
  | S k' =>
      match doInputOutput c w with
      | Tick rc c' w' => if rc =? 0 then io_ticks k' c' w' else Tick rc c' w'
      | TickNull => TickNull
      end
  end.

(** ** The data mutex

    The accessors again, with [dataMutex] made explicit.  The mutex is
    initialised with default attributes: locking it while it is held does
    not return. *)

Inductive mutex_state : Type := MutexFree | MutexHeld.

(** [lockDataMutex]: the mutex afterwards, or [None] when the call does
    not return. *)
Definition lockDataMutex (m : mutex_state) : option mutex_state :=
  match m with
  | MutexFree => Some MutexHeld
  | MutexHeld => None
  end.

Definition unlockDataMutex (m : mutex_state) : mutex_state := MutexFree.

(** What a call of an accessor does with the mutex in view: it leaves (by
    returning, by throwing or at the null pointer) with the mutex in some
    state, or it blocks in [lockDataMutex]. *)
Inductive guarded (A : Type) : Type :=
| Leaves (r : access A) (m : mutex_state)
| Blocks.
Arguments Leaves {A} r m.
Arguments Blocks {A}.

(** Lock, run the body, and unlock if the body returned: an exception or
    a null pointer leaves the body before [unlockDataMutex]. *)
Definition under_lock {A : Type} (m : mutex_state) (body : access A) : guarded A :=
  match lockDataMutex m with
  | None => Blocks
  | Some m1 =>
      match body with
      | Returns a c' => Leaves (Returns a c') (unlockDataMutex m1)
      | ThrowsOutOfRange c' => Leaves (ThrowsOutOfRange c') m1
      | NullPointer => Leaves NullPointer m1
      end
  end.

Definition popFront_locking (m : mutex_state) (c : SpineMLConnection)
  : guarded double :=
  under_lock m (popFront c).

Definition getDataSize_locking (m : mutex_state) (c : SpineMLConnection)
  : guarded Z :=
  under_lock m (getDataSize c).

(** [addNum] and [addData] test the flags before they lock. *)
Definition addNum_locking (m : mutex_state) (d : double) (c : SpineMLConnection)
  : guarded unit :=
  if negb (established c) || failed c then Leaves (Returns tt c) m
  else under_lock m (addNum d c).

Definition addData_locking (m : mutex_state) (d : list double) (dataSize : Z)
           (c : SpineMLConnection) : guarded unit :=
  if negb (established c) || failed c then Leaves (Returns tt c) m
  else under_lock m (addData d dataSize c).

(** ** States of a connection *)


(** What the steady state relies on: unsigned fields in range, the count
    of reads without data within the ceiling, the scratch buffer of
    [clientDataSize] doubles, a deque. *)
Definition ready (c : SpineMLConnection) : Prop :=
  0 <= clientDataSize c < 2 ^ 32
  /\ 0 <= noData c <= NO_DATA_MAX_COUNT
  /\ (exists m, doublebuf c = Some m
                /\ Z.of_nat (length m) = clientDataSize c * 8)
  /\ (exists d, data c = Some d).

(** [c'] has the socket, the flag [established] and the negotiated
    parameters of [c]. *)
Definition same_parameters (c c' : SpineMLConnection) : Prop :=
  connectingSocket c' = connectingSocket c
  /\ established c' = established c
  /\ clientConnectionName c' = clientConnectionName c
  /\ clientDataDirection c' = clientDataDirection c
  /\ clientDataType c' = clientDataType c
  /\ clientDataSize c' = clientDataSize c.

(** A double as the model holds it: a pattern of 64 bits. *)
Definition is_double (v : double) : Prop := 0 <= v < 2 ^ 64.

(** The look-up in [dataCache] seen from outside: from the cache of the
    world [w0], the connection [c'] holds the deque cached under its name
    and the cache of [w'] has lost that entry and no other; or there was
    no such entry, or no cache, and [c'] holds a new, empty deque with the
    cache as it was. *)
Definition handed_over (w0 : world) (c' : SpineMLConnection) (w' : world) : Prop :=
  match dataCache w0 with
  | Some dc =>
      match dc !! clientConnectionName c' with
      | Some d =>
          data c' = Some d
          /\ dataCache w' = Some (delete (clientConnectionName c') dc)
      | None => data c' = Some [] /\ dataCache w' = Some dc
      end
  | None => data c' = Some [] /\ dataCache w' = None
  end.

(** The invariant of the loop of the handshake: before stage 4 is left the cache is that of
    the start; afterwards the look-up has been made, once. *)
Definition cache_at (w0 : world) (s : Z) (c : SpineMLConnection) (w : world) : Prop :=
  if s =? CS_HS_DONE then handed_over w0 c w else dataCache w = dataCache w0.

(** The values a tick can return. *)
Definition tick_code (rc : Z) : Prop := rc = 0 \/ rc = 1 \/ rc = -1.

(** What the write path has done between two states: since [w], the blocks [blocks] have been written; they are the memory
    image of the values [vs], which have left the front of the deque [d],
    leaving [d']. *)
Definition drained (size : Z) (w w' : world) (d d' : list double) : Prop :=
  exists (vs : list double) (blocks : list (list byte)),
    d = vs ++ d'
    /\ sent w' = sent w ++ blocks
    /\ concat blocks = bytes_of_doubles vs
    /\ Forall (fun b => Z.of_nat (length b) = sizeof_double * size) blocks.

(** The acknowledgements of a handshake, one per stage, in order. *)
Definition handshake_acks : list (list byte) :=
  [[char_of RESP_HELLO]; [char_of RESP_RECVD]; [char_of RESP_RECVD];
   [char_of RESP_RECVD]].

(** At stage [s] of a handshake begun in [w0], the writes made so far are
    the acknowledgements of the stages passed. *)
Definition acks_at (w0 : world) (s : Z) (w : world) : Prop :=
  0 <= s <= CS_HS_DONE
  /\ sent w = sent w0 ++ firstn (Z.to_nat s) handshake_acks.

(** The handshake turns the client down: it returns -1 with [failed] set,
    [established] and the deque as they were. *)
Definition rejected (c : SpineMLConnection) (w : world) : Prop :=
  exists c' w',
    doHandshake c w = Some (-1, c', w')
    /\ failed c' = true
    /\ established c' = established c
    /\ data c' = data c.

(** ** Scripts under which the handshake is studied *)

(** A scripted [write] result under which a one-byte write transfers its
    byte. *)
Definition write_transfers (e : write_event) : bool :=
  match e with
  | WrAll => true
  | WrPartial k => negb (k =? 0)%nat
  | WrErr _ => false
  end.

(** Every acknowledgement the server writes from [w] on goes out. *)
Definition acks_go_out (w : world) : Prop :=
  Forall (fun e => write_transfers e = true) (wresults w).

(** [w'] is [w] after the reads and writes logged in [evs], with the read
    script down to [q] and acknowledgements still going out. *)
Definition world_after (w w' : world) (q : list read_event) (evs : list io_event)
  : Prop :=
  incoming w' = q /\ trace w' = trace w ++ evs /\ acks_go_out w'.

(** [k] reads in a row that find nothing to read. *)
Definition stalls (k : nat) : list read_event := repeat (RdBytes []) k.

(** A read script made of segments: some reads that find nothing, then a
    read that delivers a block. *)
Definition block_script (segs : list (nat * list byte)) : list read_event :=
  flat_map (fun seg => stalls (fst seg) ++ [RdBytes (snd seg)]) segs.

(** The ticks that consume such a script: one per read. *)
Definition ticks_of (segs : list (nat * list byte)) : nat :=
  list_sum (map (fun seg => S (fst seg)) segs).

(** The doubles its blocks carry, in order, [n] to a block. *)
Definition doubles_of_blocks (n : nat) (segs : list (nat * list byte)) : list double :=
  flat_map (fun seg => doubles_of_bytes n (snd seg)) segs.

(** A scripted read that delivers (possibly nothing) rather than fails. *)
Definition delivers (e : read_event) : bool :=
  match e with
  | RdBytes _ => true
  | RdErr _ => false
  end.

(** No read from [w] on fails. *)
Definition reads_succeed (w : world) : Prop :=
  Forall (fun e => delivers e = true) (incoming w).

(** ** Sample connections and worlds

    Concrete states on which the properties below are exercised. *)

(** An established connection as a handshake leaves it: direction and
    size as negotiated, the scratch buffer allocated, the deque attached
    and holding [d]. *)
Definition established_conn (direction : Z) (size : Z) (d : list double)
  : SpineMLConnection :=
  mkConn 3 true false false false 0 EmptyString direction RESP_DATA_NUMS size
         (Some d) (repeat x00 16) (Some (new_doubles size)).

(** A world with the given scripts, [errno] clear, nothing transferred
    yet, no data cache (the header's own dummy [dataCache] is null) and
    2^30 bytes to give to an allocation. *)
Definition scripted (rd : list read_event) (wr : list write_event) : world :=
  mkWorld rd wr 0 [] None (2 ^ 30).

(** A client that is a target, sends 3 doubles per step and is named
    [test]. *)
Definition valid_handshake : list read_event :=
  [RdBytes [x2e]; RdBytes [x1f]; RdBytes [x03; x00; x00; x00];
   RdBytes [x04; x00; x00; x00]; RdBytes [x74; x65; x73; x74]].

(** A client whose three name bytes are [a], NUL, [b]. *)
Definition nul_name_handshake : list read_event :=
  [RdBytes [x2d]; RdBytes [x1f]; RdBytes [x01; x00; x00; x00];
   RdBytes [x03; x00; x00; x00]; RdBytes [x61; x00; x62]].

(** A client that announces a name of 4294967295 bytes; the read of the
    name, asked for [(size_t)-1] bytes, fails with EFAULT (14). *)
Definition huge_name_handshake : list read_event :=
  [RdBytes [x2d]; RdBytes [x1f]; RdBytes [x01; x00; x00; x00];
   RdBytes [xff; xff; xff; xff]; RdErr 14].

(** A client that is a source, announces 0 doubles per step and is named
    [a]. *)
Definition zero_size_handshake : list read_event :=
  [RdBytes [x2d]; RdBytes [x1f]; RdBytes [x00; x00; x00; x00];
   RdBytes [x01; x00; x00; x00]; RdBytes [x61]].

(** The world after [k] reads that found nothing, with the read script
    down to [q]. *)
Definition after_stalls (k : nat) (q : list read_event) (w : world) : world :=
  mkWorld q (wresults w) (errno w) (trace w ++ repeat (EvRecv []) k) (dataCache w)
          (heap w).

(** * Properties *)

(** Closes an arithmetic side condition on concrete numbers. *)
Ltac concrete := vm_compute; repeat split; first [reflexivity | easy].

(** ** The record updates *)

Lemma set_data_set_data (a b : option (list double)) (c : SpineMLConnection) :
  set_data a (set_data b c) = set_data a c.
Proof. reflexivity. Qed.

Lemma set_data_same (c : SpineMLConnection) : set_data (data c) c = c.
Proof. destruct c; reflexivity. Qed.

(** ** The deque as a first-in first-out queue *)

Section Fifo.

Variable c : SpineMLConnection.

Lemma push_back_attached (d : list double) (v : double) :
  data c = Some d -> push_back v c = Some (set_data (Some (d ++ [v])) c).
Proof. intros Hd. unfold push_back. rewrite Hd. reflexivity. Qed.

Lemma push_back_null (v : double) : data c = None -> push_back v c = None.
Proof. intros Hd. unfold push_back. rewrite Hd. reflexivity. Qed.

End Fifo.

Lemma addData_loop_attached (n : nat) :
  forall (vs : list double) (c : SpineMLConnection) (d : list double),
    data c = Some d -> (n <= length vs)%nat ->
    addData_loop n vs c = Some (set_data (Some (d ++ firstn n vs)) c).
Proof.
  induction n as [|n IH]; intros vs c d Hd Hn; simpl.
  - rewrite app_nil_r, <- Hd, set_data_same. reflexivity.
  - destruct vs as [|v vs]; simpl in Hn; [lia|].
    simpl. rewrite (push_back_attached c d v Hd).
    rewrite (IH vs _ (d ++ [v])); [|reflexivity|lia].
    rewrite set_data_set_data, <- app_assoc. reflexivity.
Qed.

Lemma addNum_each_attached (vs : list double) :
  forall (c : SpineMLConnection) (d : list double),
    established c = true -> failed c = false -> data c = Some d ->
    addNum_each vs c = Some (set_data (Some (d ++ vs)) c).
Proof.
  induction vs as [|v vs IH]; intros c d He Hf Hd; simpl.
  - rewrite app_nil_r, <- Hd, set_data_same. reflexivity.
  - unfold addNum. rewrite He, Hf. simpl.
    rewrite (push_back_attached c d v Hd).
    rewrite (IH _ (d ++ [v])); try reflexivity; try assumption.
    rewrite set_data_set_data, <- app_assoc. reflexivity.
Qed.

Lemma popFront_times_prefix (vs : list double) :
  forall (c : SpineMLConnection) (rest : list double),
    data c = Some (vs ++ rest) ->
    popFront_times (length vs) c = Some (vs, set_data (Some rest) c).
Proof.
  induction vs as [|v vs IH]; intros c rest Hd; simpl.
  - simpl in Hd. rewrite <- Hd, set_data_same. reflexivity.
  - unfold popFront. rewrite Hd. simpl.
    rewrite (IH _ rest); [|reflexivity].
    rewrite set_data_set_data. reflexivity.
Qed.

(** [popFront] called with [dataMutex] free.  On an attached, empty deque
    it throws [std::out_of_range] and leaves the deque as it was, still
    empty; [dataMutex] stays held, since the exception of [at(0)] passes
    [unlockDataMutex] by.  On a deque that holds [v :: d] it returns the
    front value [v], the deque afterwards is [d] (exactly that one value is
    gone) and the mutex is free again. *)
Lemma popFront_mutex_free (c : SpineMLConnection) :
  (data c = Some [] ->
     popFront_locking MutexFree c = Leaves (ThrowsOutOfRange c) MutexHeld
     /\ data c = Some [])
  /\ (forall (v : double) (d : list double),
        data c = Some (v :: d) ->
        exists c', popFront_locking MutexFree c = Leaves (Returns v c') MutexFree
                   /\ data c' = Some d
                   /\ c' = set_data (Some d) c).
Proof.
  split.
  - intros Hd. unfold popFront_locking, popFront. rewrite Hd. split; reflexivity.
  - intros v d Hd. exists (set_data (Some d) c).
    unfold popFront_locking, popFront. rewrite Hd. repeat split; reflexivity.
Qed.

Example popFront_mutex_free_run :
  popFront_locking MutexFree (established_conn AM_SOURCE 1 [])
    = Leaves (ThrowsOutOfRange (established_conn AM_SOURCE 1 [])) MutexHeld
  /\ exists c', popFront_locking MutexFree (established_conn AM_SOURCE 1 [5; 6])
                = Leaves (Returns 5 c') MutexFree
                /\ data c' = Some [6].
Proof.
  split.
  - exact (proj1 (proj1 (popFront_mutex_free
                           (established_conn AM_SOURCE 1 [])) eq_refl)).
  - destruct (proj2 (popFront_mutex_free
                       (established_conn AM_SOURCE 1 [5; 6])) 5 [6] eq_refl)
      as (c' & Hpop & Hdata & _).
    exists c'. split; [exact Hpop|exact Hdata].
Qed.

(** C8 (the code departs from the claim).  The connection is established
    with an attached, empty deque and [dataMutex] free.  A first [popFront]
    throws [std::out_of_range] and leaves the deque as it was, as the claim
    says, but it leaves [dataMutex] held: the exception of [at(0)] passes
    [unlockDataMutex] by.  The deque is still attached and empty, and a
    second [popFront] on the same connection does not throw: it blocks in
    [lockDataMutex]. *)
Theorem popFront_blocks_after_throw :
  data (established_conn AM_SOURCE 1 []) = Some []
  /\ popFront_locking MutexFree (established_conn AM_SOURCE 1 [])
     = Leaves (ThrowsOutOfRange (established_conn AM_SOURCE 1 [])) MutexHeld
  /\ popFront_locking MutexHeld (established_conn AM_SOURCE 1 []) = Blocks
  /\ popFront_locking MutexHeld (established_conn AM_SOURCE 1 [])
     <> Leaves (ThrowsOutOfRange (established_conn AM_SOURCE 1 [])) MutexHeld.
Proof.
  split; [reflexivity|]. split; [reflexivity|]. split; [reflexivity|].
  discriminate.
Qed.

(** C9. FIFO round trip.  On an established connection that has not failed
    and whose deque is attached and empty, appending [vs] (by one [addData]
    of all of them, or by one [addNum] for each) and then calling
    [popFront] as many times as there are values returns exactly [vs], in
    order, and leaves the deque empty.  [vs] may be empty. *)
Theorem fifo_round_trip (c : SpineMLConnection) (vs : list double) :
  established c = true -> failed c = false -> data c = Some [] ->
  (exists c1 c2,
      addData vs (Z.of_nat (length vs)) c = Returns tt c1
      /\ popFront_times (length vs) c1 = Some (vs, c2)
      /\ data c2 = Some [])
  /\ (exists c1 c2,
      addNum_each vs c = Some c1
      /\ popFront_times (length vs) c1 = Some (vs, c2)
      /\ data c2 = Some []).
Proof.
  intros He Hf Hd. split.
  - exists (set_data (Some vs) c), (set_data (Some []) c).
    unfold addData. rewrite He, Hf, Nat2Z.id. simpl.
    rewrite (addData_loop_attached _ vs c [] Hd (Nat.le_refl _)).
    rewrite firstn_all. simpl. split; [reflexivity|]. split; [|reflexivity].
    rewrite (popFront_times_prefix vs _ []); [reflexivity|].
    simpl. rewrite app_nil_r. reflexivity.
  - exists (set_data (Some vs) c), (set_data (Some []) c).
    rewrite (addNum_each_attached vs c [] He Hf Hd). simpl.
    split; [reflexivity|]. split; [|reflexivity].
    rewrite (popFront_times_prefix vs _ []); [reflexivity|].
    simpl. rewrite app_nil_r. reflexivity.
Qed.

Lemma fifo_round_trip_witness :
  (exists c1 c2,
      addData [10; 20; 30] 3 (established_conn AM_TARGET 1 []) = Returns tt c1
      /\ popFront_times 3 c1 = Some ([10; 20; 30], c2)
      /\ data c2 = Some [])
  /\ (exists c1 c2,
      addNum_each [10; 20; 30] (established_conn AM_TARGET 1 []) = Some c1
      /\ popFront_times 3 c1 = Some ([10; 20; 30], c2)
      /\ data c2 = Some []).
Proof.
  apply (fifo_round_trip (established_conn AM_TARGET 1 []) [10; 20; 30]);
    reflexivity.
Defined.

(** ** Memory images of doubles *)

Lemma length_le_bytes (n : nat) : forall v : Z, length (le_bytes n v) = n.
Proof. induction n as [|n IH]; intros v; simpl; [reflexivity|]. rewrite IH. reflexivity. Qed.

Lemma length_bytes_of_doubles (ds : list double) :
  length (bytes_of_doubles ds) = (8 * length ds)%nat.
Proof.
  induction ds as [|v ds IH]; [reflexivity|].
  unfold bytes_of_doubles in *. cbn [flat_map].
  rewrite length_app, length_le_bytes, IH. simpl. lia.
Qed.

Lemma length_doubles_of_bytes (n : nat) :
  forall bs : list byte, length (doubles_of_bytes n bs) = n.
Proof. induction n as [|n IH]; intros bs; simpl; [reflexivity|]. rewrite IH. reflexivity. Qed.

Lemma doubles_of_bytes_app (n : nat) :
  forall bs rest : list byte,
    length bs = (8 * n)%nat ->
    doubles_of_bytes n (bs ++ rest) = doubles_of_bytes n bs.
Proof.
  induction n as [|n IH]; intros bs rest Hlen; [reflexivity|].
  cbn [doubles_of_bytes].
  rewrite !(take_app_le bs rest 8) by lia.
  rewrite (drop_app_le bs rest 8) by lia.
  rewrite IH; [reflexivity|]. rewrite length_drop. lia.
Qed.

(** ** The loops over the scratch buffer *)

Lemma push_loop_attached (n : nat) :
  forall (p : list byte) (c : SpineMLConnection) (d : list double),
    data c = Some d ->
    push_loop n p c = Some (set_data (Some (d ++ doubles_of_bytes n p)) c).
Proof.
  induction n as [|n IH]; intros p c d Hd.
  - simpl. rewrite app_nil_r, <- Hd, set_data_same. reflexivity.
  - cbn [push_loop doubles_of_bytes].
    rewrite (push_back_attached c d _ Hd).
    rewrite (IH _ _ (d ++ [le_value (take 8 p)])) by reflexivity.
    rewrite set_data_set_data, <- app_assoc. reflexivity.
Qed.

Lemma set_data_set_doublebuf_twice (a a' : option (list double))
      (b b' : option (list byte)) (c : SpineMLConnection) :
  set_data a (set_doublebuf b (set_data a' (set_doublebuf b' c)))
  = set_data a (set_doublebuf b c).
Proof. reflexivity. Qed.

Lemma bytes_of_doubles_cons (v : double) (ds : list double) :
  bytes_of_doubles (v :: ds) = le_bytes 8 v ++ bytes_of_doubles ds.
Proof. reflexivity. Qed.

Lemma length_store_double (i : nat) (v : double) (m : list byte) :
  (8 * i <= length m)%nat -> (8 * S i <= length (store_double i v m))%nat.
Proof.
  intros Hi. unfold store_double.
  rewrite !length_app, length_le_bytes, length_take. lia.
Qed.

(** Storing at slot [i] and then looking at the memory around the slots
    [S i ..]: the image up to slot [i] is kept, slot [i] holds [v]. *)
Lemma store_double_split (i k : nat) (v : double) (m rest : list byte) :
  (8 * i <= length m)%nat ->
  take (8 * S i) (store_double i v m) ++ rest
    ++ drop (8 * (S i + k)) (store_double i v m)
  = take (8 * i) m ++ (le_bytes 8 v ++ rest) ++ drop (8 * (i + S k)) m.
Proof.
  intros Hi. unfold store_double.
  assert (Hlen : length (take (8 * i) m) = (8 * i)%nat)
    by (rewrite length_take; lia).
  assert (Hpre : length (take (8 * i) m ++ le_bytes 8 v) = (8 * S i)%nat)
    by (rewrite length_app, length_le_bytes; lia).
  rewrite (app_assoc (take (8 * i) m) (le_bytes 8 v)).
  rewrite (take_app_length' _ _ (8 * S i)) by (symmetry; exact Hpre).
  rewrite (drop_app_ge _ _ (8 * (S i + k))) by lia.
  rewrite Hpre, drop_drop.
  replace (8 * i + 8 + (8 * (S i + k) - 8 * S i))%nat with (8 * (i + S k))%nat by lia.
  rewrite <- !app_assoc. reflexivity.
Qed.

Lemma drain_loop_attached (n : nat) :
  forall (i : nat) (c : SpineMLConnection) (d : list double) (m : list byte),
    data c = Some d -> doublebuf c = Some m ->
    (n <= length d)%nat -> (8 * i <= length m)%nat ->
    drain_loop n i c =
      Some (set_data (Some (drop n d))
             (set_doublebuf
                (Some (take (8 * i) m ++ bytes_of_doubles (take n d)
                         ++ drop (8 * (i + n)) m)) c)).
Proof.
  induction n as [|n IH]; intros i c d m Hd Hm Hn Hi.
  - cbn [drain_loop]. rewrite take_0, drop_0.
    change (bytes_of_doubles []) with (@nil byte).
    rewrite app_nil_l, Nat.add_0_r, take_drop, <- Hd, <- Hm.
    destruct c; reflexivity.
  - destruct d as [|v d]; [simpl in Hn; lia|].
    cbn [drain_loop]. rewrite Hd, Hm.
    rewrite (IH (S i) _ d (store_double i v m)); try reflexivity.
    + rewrite firstn_cons, skipn_cons, bytes_of_doubles_cons.
      rewrite set_data_set_doublebuf_twice.
      rewrite store_double_split by exact Hi. reflexivity.
    + simpl in Hn. lia.
    + apply length_store_double. exact Hi.
Qed.

(** ** Machine integers *)

Lemma to_int_small (z : Z) : - 2 ^ 31 <= z <= INT_MAX -> to_int z = z.
Proof.
  unfold to_int, INT_MAX. intros Hz.
  rewrite Z.mod_small by lia. lia.
Qed.

Lemma to_size_t_small (z : Z) : 0 <= z < 2 ^ 64 -> to_size_t z = z.
Proof. intros Hz. unfold to_size_t. apply Z.mod_small. exact Hz. Qed.

Lemma to_size_t_minus_one : to_size_t (-1) = 2 ^ 64 - 1.
Proof. reflexivity. Qed.

Lemma to_int_range (z : Z) : - 2 ^ 31 <= to_int z < 2 ^ 31.
Proof.
  unfold to_int.
  pose proof (Z.mod_pos_bound (z + 2 ^ 31) (2 ^ 32) ltac:(lia)). lia.
Qed.

(** [b == datachunk] for [int b = r] with [r] what a read of [chunk] bytes
    returned: the comparison holds only if the read returned all of them. *)
Lemma int_equals_chunk (r chunk : Z) :
  0 <= r <= chunk -> 0 <= to_int r ->
  to_size_t (to_int r) = chunk -> r = chunk.
Proof.
  intros Hr Hnn Heq.
  pose proof (to_int_range r) as Hrange.
  rewrite to_size_t_small in Heq by lia.
  rewrite to_int_small in Heq; [exact Heq|].
  unfold INT_MAX. lia.
Qed.

(** ** The socket *)

(** A read yields -1 and no bytes, or the number of bytes it stored, which
    is never more than it was asked for. *)
Lemma sock_read_result (count : Z) (w w1 : world) (r : Z) (bs : list byte) :
  sock_read count w = (r, bs, w1) ->
  (r = -1 /\ bs = []) \/ (r = Z.of_nat (length bs) /\ (0 <= count -> r <= count)).
Proof.
  unfold sock_read. destruct (incoming w) as [|[q|e] rest]; intros H.
  - inversion H; subst. right. split; [reflexivity|]. simpl. lia.
  - inversion H; subst. right. split; [reflexivity|].
    rewrite length_take. lia.
  - inversion H; subst. left. split; reflexivity.
Qed.

(** A write yields -1 and leaves the log alone, or it transfers a prefix
    of the buffer, logs it, and yields its length. *)
Lemma sock_write_result (bs : list byte) (w w1 : world) (n : Z) :
  sock_write bs w = (n, w1) ->
  (n = -1 /\ trace w1 = trace w)
  \/ (exists out, trace w1 = trace w ++ [EvSend out] /\ n = Z.of_nat (length out)
                  /\ (length out <= length bs)%nat
                  /\ (length out = length bs -> out = bs)).
Proof.
  unfold sock_write. destruct (wresults w) as [|[|k|e] rest]; intros H;
    inversion H; subst; clear H.
  - right. exists bs. repeat split; auto.
  - right. exists bs. repeat split; auto.
  - right. exists (take k bs). repeat split; auto.
    + rewrite length_take. lia.
    + intros Hl. rewrite length_take in Hl. apply take_ge. lia.
  - left. split; reflexivity.
Qed.

Lemma sent_of_app (t1 t2 : list io_event) :
  sent_of (t1 ++ t2) = sent_of t1 ++ sent_of t2.
Proof.
  induction t1 as [|[bs|bs] t1 IH]; simpl; [reflexivity|exact IH|].
  rewrite IH. reflexivity.
Qed.

(** A read does not change what has been sent. *)
Lemma sock_read_sent (count : Z) (w w1 : world) (r : Z) (bs : list byte) :
  sock_read count w = (r, bs, w1) -> sent w1 = sent w.
Proof.
  unfold sock_read, sent. destruct (incoming w) as [|[q|e] rest]; intros H;
    inversion H; subst; clear H; simpl; try reflexivity.
  rewrite sent_of_app. simpl. apply app_nil_r.
Qed.

(** ** The small buffer *)

Lemma smallbuf_at_put0 (v : Z) (c : SpineMLConnection) :
  smallbuf_at 0 (smallbuf_put0 v c) = char_of v.
Proof. reflexivity. Qed.

Lemma write_smallbuf1_put0 (v : Z) (c : SpineMLConnection) (w : world) :
  write_smallbuf1 (smallbuf_put0 v c) w = sock_write [char_of v] w.
Proof. reflexivity. Qed.

Lemma send_recvd_result (c : SpineMLConnection) (w w2 : world) (n : Z) :
  sock_write [char_of RESP_RECVD] w = (n, w2) ->
  send_recvd c w =
    Tick (if n =? 1 then 0 else if errno w2 =? ECONNRESET then 1 else -1)
         (smallbuf_put0 RESP_RECVD c) w2.
Proof.
  intros Hw. unfold send_recvd. rewrite write_smallbuf1_put0, Hw.
  destruct (n =? 1); simpl; [reflexivity|].
  destruct (errno w2 =? ECONNRESET); reflexivity.
Qed.

(** ** The read path *)

(** C7. A tick of [doReadFromClient] whose read yields a complete block
    ([clientDataSize * 8] bytes; the count is held in an [int], so the block
    is one whose byte count fits an [int]) appends the [clientDataSize]
    doubles of the block to the back of the deque in wire order, resets
    [noData] to 0 and then writes the one byte RESP_RECVD.  The call
    returns 0 when that write transfers the byte; when it does not, the call
    returns 1 (finished) if [errno] is ECONNRESET and -1 (failure)
    otherwise. *)
Theorem doReadFromClient_complete_block
    (c : SpineMLConnection) (w w1 w2 : world)
    (d : list double) (m bs : list byte) (n : Z) :
  data c = Some d -> doublebuf c = Some m ->
  0 <= clientDataSize c ->
  sizeof_double * clientDataSize c <= INT_MAX ->
  sock_read (sizeof_double * clientDataSize c) w
    = (sizeof_double * clientDataSize c, bs, w1) ->
  sock_write [char_of RESP_RECVD] w1 = (n, w2) ->
  exists c',
    doReadFromClient c w
      = Tick (if n =? 1 then 0 else if errno w2 =? ECONNRESET then 1 else -1) c' w2
    /\ data c' = Some (d ++ doubles_of_bytes (Z.to_nat (clientDataSize c)) bs)
    /\ length (doubles_of_bytes (Z.to_nat (clientDataSize c)) bs)
       = Z.to_nat (clientDataSize c)
    /\ noData c' = 0
    /\ (n = 1 -> sent w2 = sent w ++ [[char_of RESP_RECVD]]).
Proof.
  intros Hd Hm Hsz Hmax Hrd Hwr.
  assert (Hlen : length bs = (8 * Z.to_nat (clientDataSize c))%nat).
  { destruct (sock_read_result _ _ _ _ _ Hrd) as [[Hr _]|[Hr _]];
      unfold sizeof_double in *; lia. }
  assert (Hchunk : to_size_t (sizeof_double * clientDataSize c)
                   = sizeof_double * clientDataSize c).
  { apply to_size_t_small. unfold sizeof_double, INT_MAX in *. lia. }
  unfold doReadFromClient. rewrite Hm, Hchunk, Hrd.
  rewrite to_int_small by (unfold sizeof_double, INT_MAX in *; lia).
  rewrite Hchunk, Z.eqb_refl.
  replace (sizeof_double * clientDataSize c <? 0) with false
    by (symmetry; apply Z.ltb_ge; unfold sizeof_double; lia).
  cbn [clientDataSize set_doublebuf].
  rewrite (push_loop_attached _ _ _ d) by exact Hd.
  unfold overwrite. rewrite (doubles_of_bytes_app _ bs) by exact Hlen.
  rewrite (send_recvd_result _ _ _ _ Hwr).
  eexists. split; [reflexivity|].
  split; [reflexivity|].
  split; [apply length_doubles_of_bytes|].
  split; [reflexivity|].
  intros Hn. subst n.
  destruct (sock_write_result _ _ _ _ Hwr) as [[Hneg _]|(out & Ht & Hlo & _ & Hall)];
    [discriminate|].
  assert (out = [char_of RESP_RECVD]) by (apply Hall; simpl; lia). subst out.
  unfold sent. rewrite Ht, sent_of_app. simpl.
  f_equal. apply (sock_read_sent _ _ _ _ _ Hrd).
Qed.

(** ** The write path *)

Lemma drain_loop_fields (n : nat) :
  forall (i : nat) (c c' : SpineMLConnection),
    drain_loop n i c = Some c' ->
    unacknowledgedDataSent c' = unacknowledgedDataSent c
    /\ noData c' = noData c
    /\ clientDataSize c' = clientDataSize c.
Proof.
  induction n as [|n IH]; intros i c c' H; cbn [drain_loop] in H.
  - inversion H; subst. repeat split; reflexivity.
  - destruct (data c) as [[|v d']|]; try discriminate.
    destruct (doublebuf c) as [m|]; try discriminate.
    apply IH in H. exact H.
Qed.

(** C6. A tick of [doWriteToClient] with no acknowledgement pending, on a
    connection whose deque holds [d] and whose negotiated size is
    [clientDataSize c].

    When [d] holds at least [clientDataSize] values, the first
    [clientDataSize] of them leave the front of the deque and are handed,
    in order, to one [write] as a block of [clientDataSize * 8] bytes.  If
    the [write] transfers the whole block, the call returns 0 with
    [unacknowledgedDataSent] set and [noData] reset to 0, and the peer has
    been sent exactly that block; if it transfers less or fails, the call
    returns -1.

    When [d] holds fewer values, nothing is written (the world is
    untouched): below the ceiling the call returns 0 with [noData]
    incremented; at the ceiling it returns 1 (finished), not -1. *)
Theorem doWriteToClient_no_ack_pending
    (c : SpineMLConnection) (w : world) (d : list double) (m : list byte) :
  unacknowledgedDataSent c = false ->
  data c = Some d -> doublebuf c = Some m ->
  0 <= clientDataSize c < 2 ^ 32 -> 0 <= noData c < 2 ^ 32 ->
  let n := Z.to_nat (clientDataSize c) in
  let block := bytes_of_doubles (take n d) in
  (clientDataSize c <= Z.of_nat (length d) ->
   Z.of_nat (length block) = clientDataSize c * 8
   /\ forall (k : Z) (w1 : world),
       sock_write block w = (k, w1) ->
       exists c',
         doWriteToClient c w = Tick (if k =? clientDataSize c * 8 then 0 else -1) c' w1
         /\ data c' = Some (drop n d)
         /\ (k = clientDataSize c * 8 ->
             unacknowledgedDataSent c' = true /\ noData c' = 0
             /\ sent w1 = sent w ++ [block]))
  /\ (Z.of_nat (length d) < clientDataSize c ->
      (noData c < NO_DATA_MAX_COUNT ->
       doWriteToClient c w = Tick 0 (set_noData (noData c + 1) c) w)
      /\ (NO_DATA_MAX_COUNT <= noData c -> doWriteToClient c w = Tick 1 c w)).
Proof.
  intros Hun Hd Hm Hsz Hnd n block.
  unfold doWriteToClient. rewrite Hun. unfold write_batch. rewrite Hd.
  split.
  - intros Hge.
    assert (Hblock : Z.of_nat (length block) = clientDataSize c * 8).
    { unfold block. rewrite length_bytes_of_doubles, length_take. lia. }
    split; [exact Hblock|]. intros k w1 Hw.
    replace (clientDataSize c <=? Z.of_nat (length d)) with true
      by (symmetry; apply Z.leb_le; exact Hge).
    rewrite (drain_loop_attached _ 0 c d m Hd Hm) by lia.
    cbn [doublebuf set_data set_doublebuf clientDataSize].
    assert (Hcount : to_size_t (clientDataSize c * sizeof_double)
                     = clientDataSize c * 8).
    { apply to_size_t_small. unfold sizeof_double. lia. }
    rewrite Hcount.
    replace (Z.to_nat (clientDataSize c * 8)) with (length block) by lia.
    rewrite Nat.mul_0_r, take_0, app_nil_l.
    rewrite take_app_length. fold n block. rewrite Hw.
    assert (Hk : (to_size_t k =? clientDataSize c * 8) = (k =? clientDataSize c * 8)).
    { destruct (sock_write_result _ _ _ _ Hw) as [[Hneg _]|(out & _ & Hk & Hle & _)].
      - subst k. rewrite to_size_t_minus_one.
        destruct (Z.eqb_spec (2 ^ 64 - 1) (clientDataSize c * 8)); [lia|].
        destruct (Z.eqb_spec (-1) (clientDataSize c * 8)); [lia|reflexivity].
      - rewrite to_size_t_small by lia. reflexivity. }
    rewrite Hk.
    destruct (Z.eqb_spec k (clientDataSize c * 8)) as [Heq|Hne]; cbn [negb].
    + eexists. split; [reflexivity|]. split; [reflexivity|]. intros _.
      split; [reflexivity|]. split; [reflexivity|].
      destruct (sock_write_result _ _ _ _ Hw) as [[Hneg _]|(out & Ht & Hko & _ & Hall)];
        [lia|].
      rewrite (Hall ltac:(lia)) in Ht.
      unfold sent. rewrite Ht, sent_of_app. reflexivity.
    + eexists. split; [reflexivity|]. split; [reflexivity|]. intros Heq. lia.
  - intros Hlt.
    replace (clientDataSize c <=? Z.of_nat (length d)) with false
      by (symmetry; apply Z.leb_gt; exact Hlt).
    split; intros Hc.
    + replace (NO_DATA_MAX_COUNT <=? noData c) with false
        by (symmetry; apply Z.leb_gt; exact Hc).
      unfold incr_noData, to_uint. rewrite Z.mod_small; [reflexivity|].
      unfold NO_DATA_MAX_COUNT in Hc. lia.
    + replace (NO_DATA_MAX_COUNT <=? noData c) with true
        by (symmetry; apply Z.leb_le; exact Hc).
      reflexivity.
Qed.

Lemma doWriteToClient_no_ack_pending_witness :
  (exists c' w1,
      doWriteToClient (established_conn AM_TARGET 3 [1; 2; 3; 4]) (scripted [] [])
        = Tick 0 c' w1
      /\ data c' = Some [4]
      /\ unacknowledgedDataSent c' = true /\ noData c' = 0
      /\ sent w1 = [bytes_of_doubles [1; 2; 3]])
  /\ doWriteToClient (established_conn AM_TARGET 3 [1; 2]) (scripted [] [])
     = Tick 0 (set_noData 1 (established_conn AM_TARGET 3 [1; 2])) (scripted [] []).
Proof.
  split.
  - assert (Hrange : 0 <= 3 < 2 ^ 32) by lia.
    assert (Hnd0 : 0 <= 0 < 2 ^ 32) by lia.
    pose proof (doWriteToClient_no_ack_pending
                  (established_conn AM_TARGET 3 [1; 2; 3; 4]) (scripted [] [])
                  [1; 2; 3; 4] (new_doubles 3)
                  eq_refl eq_refl eq_refl Hrange Hnd0) as [Hfull _].
    assert (Hge : clientDataSize (established_conn AM_TARGET 3 [1; 2; 3; 4])
                  <= Z.of_nat (length [1; 2; 3; 4])) by (cbn; lia).
    destruct (Hfull Hge) as [_ Hwrite].
    destruct (Hwrite 24 (log_event (EvSend (bytes_of_doubles [1; 2; 3])) (scripted [] []))
                eq_refl) as (c' & Hrun & Hdata & Hflags).
    destruct (Hflags eq_refl) as (Hun & Hnd & Hsent).
    exists c', (log_event (EvSend (bytes_of_doubles [1; 2; 3])) (scripted [] [])).
    repeat split; assumption.
  - assert (Hrange : 0 <= 3 < 2 ^ 32) by lia.
    assert (Hnd0 : 0 <= 0 < 2 ^ 32) by lia.
    pose proof (doWriteToClient_no_ack_pending
                  (established_conn AM_TARGET 3 [1; 2]) (scripted [] [])
                  [1; 2] (new_doubles 3)
                  eq_refl eq_refl eq_refl Hrange Hnd0) as [_ Hshort].
    assert (Hlt : Z.of_nat (length [1; 2])
                  < clientDataSize (established_conn AM_TARGET 3 [1; 2])) by (cbn; lia).
    destruct (Hshort Hlt) as [Hbelow _].
    apply Hbelow. cbn. unfold NO_DATA_MAX_COUNT. lia.
Defined.

(** A block of two doubles as it travels: 1 and 2, each in 8 bytes. *)
Lemma doReadFromClient_complete_block_witness :
  exists c' w2,
    doReadFromClient (established_conn AM_SOURCE 2 [7])
                     (scripted [RdBytes (bytes_of_doubles [1; 2])] [])
      = Tick 0 c' w2
    /\ data c' = Some [7; 1; 2]
    /\ noData c' = 0
    /\ sent w2 = [[char_of RESP_RECVD]].
Proof.
  edestruct (doReadFromClient_complete_block
               (established_conn AM_SOURCE 2 [7])
               (scripted [RdBytes (bytes_of_doubles [1; 2])] []))
    as (c' & Hrun & Hdata & _ & Hnd & Hsent);
    [reflexivity | reflexivity | concrete | concrete
     | reflexivity | reflexivity | ].
  eexists c', _. split; [exact Hrun|]. split; [exact Hdata|].
  split; [exact Hnd|]. exact (Hsent eq_refl).
Defined.

(** ** Flow control on the write path *)

Lemma sock_read_trace (count : Z) (w w1 : world) (r : Z) (bs : list byte) :
  sock_read count w = (r, bs, w1) ->
  (trace w1 = trace w /\ (r = -1 \/ r = 0) /\ bs = [])
  \/ (trace w1 = trace w ++ [EvRecv bs] /\ r = Z.of_nat (length bs)).
Proof.
  unfold sock_read. destruct (incoming w) as [|[q|e] rest]; intros H;
    inversion H; subst; clear H.
  - left. auto.
  - right. auto.
  - left. auto.
Qed.

Lemma acks_received_app (t1 t2 : list io_event) :
  acks_received (t1 ++ t2) = acks_received t1 + acks_received t2.
Proof.
  induction t1 as [|ev t1 IH]; [reflexivity|].
  cbn [app acks_received]. rewrite IH. lia.
Qed.

Lemma batches_sent_app (t1 t2 : list io_event) :
  batches_sent (t1 ++ t2) = batches_sent t1 + batches_sent t2.
Proof. unfold batches_sent. rewrite sent_of_app, length_app. lia. Qed.

(** The ways [write_batch] can end. *)
Lemma write_batch_cases (c c' : SpineMLConnection) (w w' : world) (rc : Z) :
  0 <= clientDataSize c < 2 ^ 32 ->
  write_batch c w = Tick rc c' w' ->
  clientDataSize c' = clientDataSize c
  /\ ((trace w' = trace w
       /\ unacknowledgedDataSent c' = unacknowledgedDataSent c
       /\ (rc = 0 \/ rc = 1 \/ rc = -1))
      \/ (exists out, trace w' = trace w ++ [EvSend out]
                      /\ ((rc = 0 /\ unacknowledgedDataSent c' = true) \/ rc = -1))).
Proof.
  intros Hsz. unfold write_batch.
  destruct (data c) as [d|]; [|discriminate].
  destruct (clientDataSize c <=? Z.of_nat (length d)).
  - destruct (drain_loop _ 0 c) as [c1|] eqn:Hdrain; [|discriminate].
    destruct (drain_loop_fields _ _ _ _ Hdrain) as (Hun & Hnd & Hcs).
    destruct (doublebuf c1) as [m|]; [|discriminate].
    destruct (sock_write _ w) as [bw w1] eqn:Hw.
    assert (Hcount : to_size_t (clientDataSize c1 * sizeof_double)
                     = clientDataSize c * 8).
    { rewrite Hcs. apply to_size_t_small. unfold sizeof_double. lia. }
    rewrite Hcount.
    destruct (sock_write_result _ _ _ _ Hw) as [[Hneg Ht]|(out & Ht & Hbw & _)].
    + subst bw. rewrite to_size_t_minus_one.
      destruct (Z.eqb_spec (2 ^ 64 - 1) (clientDataSize c * 8)); [lia|].
      cbn [negb]. intros H; inversion H; subst; clear H.
      split; [exact Hcs|]. left. auto.
    + destruct (negb _); intros H; inversion H; subst; clear H;
        (split; [exact Hcs|]); right; exists out; split; auto.
  - destruct (NO_DATA_MAX_COUNT <=? noData c); intros H; inversion H; subst; clear H;
      (split; [reflexivity|]); left; auto.
Qed.

Lemma write_batch_balance (c c' : SpineMLConnection) (w w' : world) :
  0 <= clientDataSize c < 2 ^ 32 ->
  unacknowledgedDataSent c = false ->
  write_batch c w = Tick 0 c' w' ->
  balance c' w' = balance c w.
Proof.
  intros Hsz Hun Hrun.
  destruct (write_batch_cases _ _ _ _ _ Hsz Hrun)
    as [_ [(Ht & Hun' & _)|(out & Ht & [[_ Hun']|Hneg])]].
  - unfold balance. rewrite Ht, Hun'. reflexivity.
  - unfold balance. rewrite Ht, Hun', Hun, batches_sent_app, acks_received_app.
    unfold batches_sent. simpl. lia.
  - discriminate.
Qed.

Lemma sock_read_1_cases (w w1 : world) (r : Z) (bs : list byte) :
  sock_read 1 w = (r, bs, w1) ->
  (r = -1 /\ bs = [] /\ trace w1 = trace w)
  \/ (r = 0 /\ bs = []
      /\ (trace w1 = trace w \/ trace w1 = trace w ++ [EvRecv []]))
  \/ (exists b, r = 1 /\ bs = [b] /\ trace w1 = trace w ++ [EvRecv [b]]).
Proof.
  intros Hrd.
  destruct (sock_read_result _ _ _ _ _ Hrd) as [[Hr Hbs]|[Hr Hle]];
    destruct (sock_read_trace _ _ _ _ _ Hrd) as [(Ht & Hr' & Hbs')|[Ht Hr']].
  - left. auto.
  - subst bs. simpl in Hr'. lia.
  - subst bs. simpl in Hr. destruct Hr' as [Hr'|Hr']; [lia|].
    right. left. auto.
  - specialize (Hle ltac:(lia)).
    destruct bs as [|b [|b' bs]]; simpl in Hr.
    + right. left. auto.
    + right. right. exists b. auto.
    + simpl in Hle. lia.
Qed.

(** [doWriteToClient] with an acknowledgement awaited, after its read. *)
Lemma doWriteToClient_awaiting
    (c : SpineMLConnection) (w w1 : world) (r : Z) (bs : list byte) :
  unacknowledgedDataSent c = true ->
  sock_read 1 w = (r, bs, w1) ->
  let c1 := set_smallbuf (overwrite (smallbuf c) bs) c in
  doWriteToClient c w =
    if to_int r =? 1 then
      if negb (char_val (smallbuf_at 0 c1) =? RESP_RECVD) then Tick (-1) c1 w1
      else write_batch (set_noData 0 (set_unacknowledgedDataSent false c1)) w1
    else if (to_int r =? 0) && (noData c <? NO_DATA_MAX_COUNT) then
      Tick 0 (incr_noData c1) w1
    else if (to_int r =? 0) && (noData c =? NO_DATA_MAX_COUNT) then
      if errno w1 =? 0 then Tick 1 c1 w1 else Tick (-1) c1 w1
    else
      if errno w1 =? ECONNRESET then Tick 1 c1 w1 else Tick (-1) c1 w1.
Proof.
  intros Hun Hrd c1. unfold doWriteToClient, read_smallbuf.
  rewrite Hun, Hrd. reflexivity.
Qed.

Lemma doWriteToClient_balance (c c' : SpineMLConnection) (w w' : world) :
  0 <= clientDataSize c < 2 ^ 32 ->
  doWriteToClient c w = Tick 0 c' w' ->
  balance c' w' = balance c w /\ clientDataSize c' = clientDataSize c.
Proof.
  intros Hsz Hrun.
  destruct (unacknowledgedDataSent c) eqn:Hun.
  - destruct (sock_read 1 w) as [[r bs] w1] eqn:Hrd.
    rewrite (doWriteToClient_awaiting _ _ _ _ _ Hun Hrd) in Hrun.
    destruct (sock_read_1_cases _ _ _ _ Hrd)
      as [(Hr & Hbs & Ht)|[(Hr & Hbs & Ht)|(b & Hr & Hbs & Ht)]]; subst r bs.
    + change (to_int (-1) =? 1) with false in Hrun.
      change (to_int (-1) =? 0) with false in Hrun. cbn [andb] in Hrun.
      destruct (errno w1 =? ECONNRESET); discriminate.
    + change (to_int 0 =? 1) with false in Hrun.
      change (to_int 0 =? 0) with true in Hrun. cbn [andb] in Hrun.
      destruct (noData c <? NO_DATA_MAX_COUNT).
      * inversion Hrun; subst; clear Hrun. split; [|reflexivity].
        unfold balance. cbn [unacknowledgedDataSent incr_noData set_noData set_smallbuf].
        destruct Ht as [Ht|Ht]; rewrite Ht; [reflexivity|].
        rewrite batches_sent_app, acks_received_app. unfold batches_sent. simpl. lia.
      * destruct (noData c =? NO_DATA_MAX_COUNT);
          [destruct (errno w1 =? 0)|destruct (errno w1 =? ECONNRESET)]; discriminate.
    + change (to_int 1 =? 1) with true in Hrun. cbv iota in Hrun.
      change (smallbuf_at 0 (set_smallbuf (overwrite (smallbuf c) [b]) c)) with b in Hrun.
      destruct (char_val b =? RESP_RECVD) eqn:Hack; cbn [negb] in Hrun; [|discriminate].
      set (c2 := set_noData 0 (set_unacknowledgedDataSent false
                   (set_smallbuf (overwrite (smallbuf c) [b]) c))) in *.
      destruct (write_batch_cases c2 _ _ _ _ Hsz Hrun) as [Hcs _].
      apply (write_batch_balance c2) in Hrun; [|exact Hsz|reflexivity].
      split; [|exact Hcs]. rewrite Hrun. subst c2.
      unfold balance. cbn [unacknowledgedDataSent set_noData set_unacknowledgedDataSent set_smallbuf].
      rewrite Hun, Ht, batches_sent_app, acks_received_app.
      unfold batches_sent. simpl. rewrite Hack. unfold flag. lia.
  - unfold doWriteToClient in Hrun. rewrite Hun in Hrun.
    destruct (write_batch_cases _ _ _ _ _ Hsz Hrun) as [Hcs _].
    split; [|exact Hcs]. apply write_batch_balance; assumption.
Qed.

Lemma write_ticks_balance (k : nat) :
  forall (c c' : SpineMLConnection) (w w' : world),
    0 <= clientDataSize c < 2 ^ 32 ->
    write_ticks k c w = Tick 0 c' w' ->
    balance c' w' = balance c w.
Proof.
  induction k as [|k IH]; intros c c' w w' Hsz Hrun; cbn [write_ticks] in Hrun.
  - inversion Hrun; subst. reflexivity.
  - destruct (doWriteToClient c w) as [rc c1 w1|] eqn:Htick; [|discriminate].
    destruct (Z.eqb_spec rc 0) as [Hz|Hnz].
    + subst rc. destruct (doWriteToClient_balance _ _ _ _ Hsz Htick) as [Hb Hcs].
      rewrite <- Hb. apply IH; [rewrite Hcs; exact Hsz|exact Hrun].
    + inversion Hrun; subst. contradiction.
Qed.

(** A tick that puts something on the wire: how it ends, and what it read
    first if an acknowledgement was awaited. *)
Lemma doWriteToClient_writes (c c' : SpineMLConnection) (w w' : world) (rc : Z) :
  0 <= clientDataSize c < 2 ^ 32 ->
  doWriteToClient c w = Tick rc c' w' ->
  sent w' <> sent w ->
  ((rc = 0 /\ unacknowledgedDataSent c' = true) \/ rc = -1)
  /\ (unacknowledgedDataSent c = true ->
      exists b w1, sock_read 1 w = (1, [b], w1) /\ char_val b = RESP_RECVD).
Proof.
  intros Hsz Hrun Hsent.
  destruct (unacknowledgedDataSent c) eqn:Hun.
  - destruct (sock_read 1 w) as [[r bs] w1] eqn:Hrd.
    rewrite (doWriteToClient_awaiting _ _ _ _ _ Hun Hrd) in Hrun.
    pose proof (sock_read_sent _ _ _ _ _ Hrd) as Hs1.
    destruct (sock_read_1_cases _ _ _ _ Hrd)
      as [(Hr & Hbs & _)|[(Hr & Hbs & _)|(b & Hr & Hbs & _)]]; subst r bs.
    + change (to_int (-1) =? 1) with false in Hrun.
      change (to_int (-1) =? 0) with false in Hrun. cbn [andb] in Hrun.
      destruct (errno w1 =? ECONNRESET); inversion Hrun; subst; congruence.
    + change (to_int 0 =? 1) with false in Hrun.
      change (to_int 0 =? 0) with true in Hrun. cbn [andb] in Hrun.
      destruct (noData c <? NO_DATA_MAX_COUNT);
        [|destruct (noData c =? NO_DATA_MAX_COUNT);
          [destruct (errno w1 =? 0)|destruct (errno w1 =? ECONNRESET)]];
        inversion Hrun; subst; congruence.
    + change (to_int 1 =? 1) with true in Hrun. cbv iota in Hrun.
      change (smallbuf_at 0 (set_smallbuf (overwrite (smallbuf c) [b]) c)) with b in Hrun.
      destruct (Z.eqb_spec (char_val b) RESP_RECVD) as [Hack|Hnack]; cbn [negb] in Hrun;
        [|inversion Hrun; subst; congruence].
      set (c2 := set_noData 0 (set_unacknowledgedDataSent false
                   (set_smallbuf (overwrite (smallbuf c) [b]) c))) in *.
      destruct (write_batch_cases c2 _ _ _ _ Hsz Hrun)
        as [_ [(Ht & _)|(out & _ & Hend)]].
      * exfalso. apply Hsent. unfold sent in *. rewrite Ht. exact Hs1.
      * split; [exact Hend|]. intros _. exists b, w1. split; [reflexivity|exact Hack].
  - split; [|discriminate].
    unfold doWriteToClient in Hrun. rewrite Hun in Hrun.
    destruct (write_batch_cases _ _ _ _ _ Hsz Hrun) as [_ [(Ht & _)|(out & _ & Hend)]].
    + exfalso. apply Hsent. unfold sent. rewrite Ht. reflexivity.
    + exact Hend.
Qed.

(** C5. Flow control of the write path.
    - A tick that writes to the peer either completes its batch, and then
      returns 0 with [unacknowledgedDataSent] set, or returns -1.
    - While [unacknowledgedDataSent] is set, a tick writes to the peer only
      if its read delivered the single byte RESP_RECVD; that read clears the
      flag and resets [noData], and the tick goes on as one with no
      acknowledgement pending.
    - While the flag is set, a read that delivers any other single byte
      makes the tick return -1 with nothing written.
    - Over any run of ticks that all returned 0, started with the flag
      clear, the batches written less the acknowledgements read is 1 when
      the flag is set and 0 when it is clear: at most one batch is in
      flight. *)
Theorem write_path_flow_control :
  (forall (c c' : SpineMLConnection) (w w' : world) (rc : Z),
      0 <= clientDataSize c < 2 ^ 32 ->
      doWriteToClient c w = Tick rc c' w' -> sent w' <> sent w ->
      (rc = 0 /\ unacknowledgedDataSent c' = true) \/ rc = -1)
  /\ (forall (c c' : SpineMLConnection) (w w' : world) (rc : Z),
      0 <= clientDataSize c < 2 ^ 32 ->
      unacknowledgedDataSent c = true ->
      doWriteToClient c w = Tick rc c' w' -> sent w' <> sent w ->
      exists b w1, sock_read 1 w = (1, [b], w1) /\ char_val b = RESP_RECVD)
  /\ (forall (c : SpineMLConnection) (w w1 : world) (b : byte),
      unacknowledgedDataSent c = true ->
      sock_read 1 w = (1, [b], w1) -> char_val b = RESP_RECVD ->
      exists c1, unacknowledgedDataSent c1 = false /\ noData c1 = 0
                 /\ data c1 = data c /\ clientDataSize c1 = clientDataSize c
                 /\ doWriteToClient c w = doWriteToClient c1 w1)
  /\ (forall (c : SpineMLConnection) (w w1 : world) (b : byte),
      unacknowledgedDataSent c = true ->
      sock_read 1 w = (1, [b], w1) -> char_val b <> RESP_RECVD ->
      exists c', doWriteToClient c w = Tick (-1) c' w1 /\ sent w1 = sent w
                 /\ unacknowledgedDataSent c' = true)
  /\ (forall (k : nat) (c c' : SpineMLConnection) (w w' : world),
      0 <= clientDataSize c < 2 ^ 32 ->
      unacknowledgedDataSent c = false ->
      write_ticks k c w = Tick 0 c' w' ->
      in_flight w w' = flag (unacknowledgedDataSent c')
      /\ 0 <= in_flight w w' <= 1).
Proof.
  split; [|split; [|split; [|split]]].
  - intros c c' w w' rc Hsz Hrun Hsent.
    exact (proj1 (doWriteToClient_writes _ _ _ _ _ Hsz Hrun Hsent)).
  - intros c c' w w' rc Hsz Hun Hrun Hsent.
    exact (proj2 (doWriteToClient_writes _ _ _ _ _ Hsz Hrun Hsent) Hun).
  - intros c w w1 b Hun Hrd Hack.
    exists (set_noData 0 (set_unacknowledgedDataSent false
              (set_smallbuf (overwrite (smallbuf c) [b]) c))).
    repeat (split; [reflexivity|]).
    rewrite (doWriteToClient_awaiting _ _ _ _ _ Hun Hrd).
    change (to_int 1 =? 1) with true. cbv iota.
    change (smallbuf_at 0 (set_smallbuf (overwrite (smallbuf c) [b]) c)) with b.
    rewrite Hack. reflexivity.
  - intros c w w1 b Hun Hrd Hnack.
    exists (set_smallbuf (overwrite (smallbuf c) [b]) c).
    rewrite (doWriteToClient_awaiting _ _ _ _ _ Hun Hrd).
    change (to_int 1 =? 1) with true. cbv iota.
    change (smallbuf_at 0 (set_smallbuf (overwrite (smallbuf c) [b]) c)) with b.
    destruct (Z.eqb_spec (char_val b) RESP_RECVD) as [Hack|_]; [contradiction|].
    split; [reflexivity|]. split; [|exact Hun].
    exact (sock_read_sent _ _ _ _ _ Hrd).
  - intros k c c' w w' Hsz Hun Hrun.
    pose proof (write_ticks_balance k _ _ _ _ Hsz Hrun) as Hb.
    unfold balance in Hb. rewrite Hun in Hb.
    assert (Hfl : in_flight w w' = flag (unacknowledgedDataSent c')).
    { unfold in_flight. unfold flag in Hb at 2. lia. }
    split; [exact Hfl|]. rewrite Hfl.
    destruct (unacknowledgedDataSent c'); simpl; lia.
Qed.

Lemma write_path_flow_control_witness :
  exists c' w',
    write_ticks 3 (established_conn AM_TARGET 1 [1; 2])
                  (scripted [RdBytes []; RdBytes [char_of RESP_RECVD]] [])
      = Tick 0 c' w'
    /\ sent w' = [bytes_of_doubles [1]; bytes_of_doubles [2]]
    /\ in_flight (scripted [RdBytes []; RdBytes [char_of RESP_RECVD]] []) w' = 1.
Proof.
  assert (Hsz : 0 <= clientDataSize (established_conn AM_TARGET 1 [1; 2]) < 2 ^ 32)
    by concrete.
  eexists _, _.
  assert (Hrun : write_ticks 3 (established_conn AM_TARGET 1 [1; 2])
                   (scripted [RdBytes []; RdBytes [char_of RESP_RECVD]] [])
                 = Tick 0 ?[c'] ?[w']) by (vm_compute; reflexivity).
  split; [exact Hrun|]. split; [reflexivity|].
  exact (proj1 (proj2 (proj2 (proj2 (proj2 write_path_flow_control)))
                  3%nat (established_conn AM_TARGET 1 [1; 2]) _
                  (scripted [RdBytes []; RdBytes [char_of RESP_RECVD]] []) _
                  Hsz eq_refl Hrun)).
Defined.

(** ** Incomplete blocks on the read path *)

(** The deque grows only by whole blocks: after a tick of
    [doReadFromClient] it is as before, or it has gained the
    [clientDataSize] doubles of a block that one read delivered whole. *)
Lemma doReadFromClient_appends_whole_blocks_only
    (c c' : SpineMLConnection) (w w' : world) (d : list double) (rc : Z) :
  0 <= clientDataSize c < 2 ^ 32 ->
  data c = Some d ->
  doReadFromClient c w = Tick rc c' w' ->
  data c' = Some d
  \/ (exists bs w1,
        sock_read (sizeof_double * clientDataSize c) w
          = (sizeof_double * clientDataSize c, bs, w1)
        /\ data c' = Some (d ++ doubles_of_bytes (Z.to_nat (clientDataSize c)) bs)).
Proof.
  intros Hsz Hd. unfold doReadFromClient.
  destruct (doublebuf c) as [m|]; [|discriminate].
  assert (Hchunk : to_size_t (sizeof_double * clientDataSize c)
                   = sizeof_double * clientDataSize c)
    by (apply to_size_t_small; unfold sizeof_double; lia).
  rewrite Hchunk.
  destruct (sock_read _ w) as [[r bs] w1] eqn:Hrd.
  assert (Hsend : forall d0 c0 rc0 c0' w0', data c0 = Some d0 ->
            send_recvd c0 w1 = Tick rc0 c0' w0' -> data c0' = Some d0).
  { intros d0 c0 rc0 c0' w0' Hd0. unfold send_recvd.
    destruct (write_smallbuf1 _ w1) as [n w2].
    destruct (negb _); [destruct (_ =? ECONNRESET)|];
      intros H; inversion H; subst; exact Hd0. }
  destruct (to_int r <? 0) eqn:Hneg.
  { intros H; inversion H; subst. left. exact Hd. }
  destruct (Z.eqb_spec (to_size_t (to_int r)) (sizeof_double * clientDataSize c))
    as [Hfull|Hpart].
  - cbn [clientDataSize set_doublebuf].
    rewrite (push_loop_attached _ _ _ d) by exact Hd.
    intros Hrun. right. exists bs, w1.
    apply Z.ltb_ge in Hneg.
    assert (Hr : r = sizeof_double * clientDataSize c).
    { destruct (sock_read_result _ _ _ _ _ Hrd) as [[Hr _]|[Hr Hle]].
      - subst r. change (to_int (-1)) with (-1) in Hneg. lia.
      - specialize (Hle ltac:(unfold sizeof_double; lia)).
        apply int_equals_chunk; [lia|exact Hneg|exact Hfull]. }
    split; [congruence|].
    assert (Hlen : length bs = (8 * Z.to_nat (clientDataSize c))%nat).
    { destruct (sock_read_result _ _ _ _ _ Hrd) as [[Hr' _]|[Hr' _]];
        unfold sizeof_double in *; lia. }
    unfold overwrite in Hrun.
    rewrite (doubles_of_bytes_app _ bs) in Hrun by exact Hlen.
    apply (Hsend (d ++ doubles_of_bytes (Z.to_nat (clientDataSize c)) bs)) in Hrun;
      [exact Hrun|reflexivity].
  - destruct ((to_int r =? 0) && (noData _ <? NO_DATA_MAX_COUNT)).
    { intros H; inversion H; subst. left. exact Hd. }
    destruct ((to_int r =? 0) && (noData _ =? NO_DATA_MAX_COUNT)).
    { intros H; inversion H; subst. left. exact Hd. }
    intros Hrun. left. apply (Hsend d) in Hrun; [exact Hrun|exact Hd].
Qed.

(** C3 (the code departs from the claim).  A block of one double is 8
    bytes.  The read delivers 4 of them: [doReadFromClient] does not return
    -1.  It leaves the deque as it was, acknowledges with RESP_RECVD as if
    the block had arrived, and returns 0; [doInputOutput] returns 0 too and
    the connection is neither failed nor finished. *)
Theorem doReadFromClient_partial_block_acknowledged :
  exists c' w',
    doReadFromClient (established_conn AM_SOURCE 1 [7])
                     (scripted [RdBytes [x01; x02; x03; x04]] [])
      = Tick 0 c' w'
    /\ data c' = Some [7]
    /\ sent w' = [[char_of RESP_RECVD]]
    /\ exists c'',
        doInputOutput (established_conn AM_SOURCE 1 [7])
                      (scripted [RdBytes [x01; x02; x03; x04]] [])
          = Tick 0 c'' w'
        /\ failed c'' = false /\ finished c'' = false.
Proof.
  eexists _, _. split; [vm_compute; reflexivity|].
  split; [reflexivity|]. split; [reflexivity|].
  eexists. split; [vm_compute; reflexivity|]. split; reflexivity.
Qed.

(** ** Bytes and little-endian words *)

Lemma uchar_val_range (b : byte) : 0 <= uchar_val b < 256.
Proof.
  unfold uchar_val. pose proof (Byte.to_N_bounded b) as Hb.
  split; [apply N2Z.is_nonneg|]. lia.
Qed.

Lemma lor_below_pow2 (a b n : Z) :
  0 <= a < 2 ^ n -> 0 <= b < 2 ^ n -> 0 <= Z.lor a b < 2 ^ n.
Proof.
  intros Ha Hb.
  assert (Hnn : 0 <= Z.lor a b) by (apply Z.lor_nonneg; lia).
  split; [exact Hnn|].
  destruct (Z.eq_dec a 0) as [->|Ha0]; [rewrite Z.lor_0_l; lia|].
  destruct (Z.eq_dec b 0) as [->|Hb0]; [rewrite Z.lor_0_r; lia|].
  assert (Hpos : 0 < Z.lor a b).
  { destruct (Z.eq_dec (Z.lor a b) 0) as [Hz|Hz]; [|lia].
    apply Z.lor_eq_0_iff in Hz. lia. }
  apply Z.log2_lt_pow2; [exact Hpos|].
  rewrite Z.log2_lor by lia.
  apply Z.max_lub_lt; apply Z.log2_lt_pow2; lia.
Qed.

Lemma le_value_range (bs : list byte) :
  0 <= le_value bs < 2 ^ (8 * Z.of_nat (length bs)).
Proof.
  induction bs as [|b bs IH]; [simpl; lia|].
  cbn [le_value length]. rewrite Nat2Z.inj_succ.
  replace (8 * Z.succ (Z.of_nat (length bs))) with (8 * Z.of_nat (length bs) + 8) by lia.
  pose proof (uchar_val_range b) as Hb.
  assert (Hpow : 2 ^ (8 * Z.of_nat (length bs) + 8) = 2 ^ (8 * Z.of_nat (length bs)) * 256).
  { rewrite Z.pow_add_r by lia. reflexivity. }
  apply lor_below_pow2.
  - rewrite Hpow. nia.
  - rewrite Z.shiftl_mul_pow2 by lia. rewrite Hpow.
    change (2 ^ 8) with 256. nia.
Qed.

(** The [int] expression the code builds from four chars is the
    little-endian value of the four bytes. *)
Lemma word_of_four_bytes (b0 b1 b2 b3 : byte) :
  Z.lor (Z.lor (Z.lor (uchar_val b0) (Z.shiftl (uchar_val b1) 8))
               (Z.shiftl (uchar_val b2) 16))
        (Z.shiftl (uchar_val b3) 24)
  = le_value [b0; b1; b2; b3].
Proof.
  cbn [le_value].
  rewrite Z.shiftl_0_l, Z.lor_0_r.
  rewrite !Z.shiftl_lor. rewrite !Z.shiftl_shiftl by lia.
  rewrite !Z.lor_assoc. reflexivity.
Qed.

Lemma to_uint_to_int (z : Z) : 0 <= z < 2 ^ 32 -> to_uint (to_int z) = z.
Proof.
  intros Hz. unfold to_uint, to_int.
  destruct (Z.lt_ge_cases z (2 ^ 31)) as [Hlo|Hhi].
  - rewrite (Z.mod_small (z + 2 ^ 31)) by lia.
    replace (z + 2 ^ 31 - 2 ^ 31) with z by lia.
    apply Z.mod_small. lia.
  - replace ((z + 2 ^ 31) mod 2 ^ 32) with (z - 2 ^ 31).
    + replace (z - 2 ^ 31 - 2 ^ 31) with (z + (-1) * 2 ^ 32) by lia.
      rewrite Z.mod_add by lia. apply Z.mod_small. lia.
    + symmetry. replace (z + 2 ^ 31) with (z - 2 ^ 31 + 1 * 2 ^ 32) by lia.
      rewrite Z.mod_add by lia. apply Z.mod_small. lia.
Qed.

Lemma le_value_four_range (b0 b1 b2 b3 : byte) :
  0 <= le_value [b0; b1; b2; b3] < 2 ^ 32.
Proof. exact (le_value_range [b0; b1; b2; b3]). Qed.

(** A C string ends at its terminator. *)
Lemma c_str_terminated (bs : list byte) : c_str (bs ++ [x00]) = c_str bs.
Proof.
  induction bs as [|b bs IH]; [reflexivity|].
  cbn [app c_str]. rewrite IH. reflexivity.
Qed.

Lemma c_str_no_nul (bs : list byte) : ~ In x00 bs -> c_str bs = bs.
Proof.
  induction bs as [|b bs IH]; intros Hnin; [reflexivity|].
  cbn [c_str]. destruct (Byte.eqb b x00) eqn:Heq.
  - exfalso. apply Hnin. left. apply Byte.byte_dec_bl in Heq. exact Heq.
  - rewrite IH; [reflexivity|]. intros Hin. apply Hnin. right. exact Hin.
Qed.

(** ** The handshake, stage by stage *)

Lemma sock_read_exact (count : Z) (w : world) (bs : list byte) (q : list read_event) :
  incoming w = RdBytes bs :: q -> Z.of_nat (length bs) = count ->
  sock_read count w = (count, bs, log_event (EvRecv bs) (set_incoming q w)).
Proof.
  intros Hin Hlen. unfold sock_read. rewrite Hin.
  replace (Z.to_nat (Z.min count (Z.of_nat (length bs)))) with (length bs) by lia.
  rewrite firstn_all, skipn_all, Hlen. reflexivity.
Qed.

Lemma sock_write_ack (x : byte) (w : world) :
  acks_go_out w ->
  exists w', sock_write [x] w = (1, w')
             /\ world_after w w' (incoming w) [EvSend [x]].
Proof.
  unfold world_after, acks_go_out, sock_write. intros Hok.
  destruct (wresults w) as [|[|k|e] rest] eqn:Hw.
  - eexists. split; [reflexivity|]. cbn. rewrite Hw. auto.
  - eexists. split; [reflexivity|]. cbn. inversion Hok; subst. auto.
  - inversion Hok as [|? ? Hk Hrest]; subst.
    destruct k as [|k]; [discriminate|].
    rewrite (take_ge [x] (S k)) by (simpl; lia).
    eexists. split; [reflexivity|]. cbn. auto.
  - inversion Hok as [|? ? He Hrest]; subst. discriminate.
Qed.

Lemma world_after_trans (w w1 w2 : world) (q1 q2 : list read_event)
      (e1 e2 : list io_event) :
  world_after w w1 q1 e1 -> world_after w1 w2 q2 e2 ->
  world_after w w2 q2 (e1 ++ e2).
Proof.
  unfold world_after. intros (_ & Ht1 & _) (Hq & Ht2 & Hok).
  rewrite Ht2, Ht1, <- app_assoc. auto.
Qed.

Lemma world_after_read (w : world) (bs : list byte) (q : list read_event) :
  acks_go_out w ->
  world_after w (log_event (EvRecv bs) (set_incoming q w)) q [EvRecv bs].
Proof. intros Hok. unfold world_after, acks_go_out in *. cbn. auto. Qed.

Section HandshakeStages.

Variables (st : Z) (c : SpineMLConnection) (w : world) (q : list read_event).
Hypothesis Hok : acks_go_out w.

Lemma hs_getting_target_ok (dir : byte) :
  incoming w = RdBytes [dir] :: q ->
  char_val dir = AM_SOURCE \/ char_val dir = AM_TARGET ->
  exists w',
    hs_getting_target st c w
    = HsNext (st + 1)
        (set_noData 0
           (smallbuf_put0 RESP_HELLO
              (set_clientDataDirection (char_val dir)
                 (set_smallbuf (overwrite (smallbuf c) [dir]) c)))) w'
    /\ world_after w w' q [EvRecv [dir]; EvSend [char_of RESP_HELLO]].
Proof.
  intros Hin Hdir.
  unfold hs_getting_target, read_smallbuf.
  rewrite (sock_read_exact 1 w [dir] q Hin eq_refl).
  change (1 =? 1) with true. cbv iota.
  change (smallbuf_at 0 (set_smallbuf (overwrite (smallbuf c) [dir]) c)) with dir.
  replace ((char_val dir =? AM_SOURCE) || (char_val dir =? AM_TARGET)) with true
    by (symmetry; apply orb_true_iff; rewrite !Z.eqb_eq; exact Hdir).
  rewrite write_smallbuf1_put0.
  destruct (sock_write_ack (char_of RESP_HELLO) _ (proj2 (proj2 (world_after_read w [dir] q Hok))))
    as (w' & Hw & Hafter).
  rewrite Hw. change (negb (1 =? 1)) with false. cbv iota.
  exists w'. split; [reflexivity|].
  exact (world_after_trans _ _ _ _ _ _ _ (world_after_read w [dir] q Hok) Hafter).
Qed.

Lemma hs_getting_datatype_ok (ty : byte) :
  incoming w = RdBytes [ty] :: q ->
  char_val ty = RESP_DATA_NUMS ->
  exists w',
    hs_getting_datatype st c w
    = HsNext (st + 1)
        (set_noData 0
           (smallbuf_put0 RESP_RECVD
              (set_clientDataType RESP_DATA_NUMS
                 (set_smallbuf (overwrite (smallbuf c) [ty]) c)))) w'
    /\ world_after w w' q [EvRecv [ty]; EvSend [char_of RESP_RECVD]].
Proof.
  intros Hin Hty.
  unfold hs_getting_datatype, read_smallbuf.
  rewrite (sock_read_exact 1 w [ty] q Hin eq_refl).
  change (1 =? 1) with true. cbv iota.
  change (smallbuf_at 0 (set_smallbuf (overwrite (smallbuf c) [ty]) c)) with ty.
  rewrite Hty. change (RESP_DATA_NUMS =? RESP_DATA_NUMS) with true. cbv iota.
  rewrite write_smallbuf1_put0.
  destruct (sock_write_ack (char_of RESP_RECVD) _ (proj2 (proj2 (world_after_read w [ty] q Hok))))
    as (w' & Hw & Hafter).
  rewrite Hw. change (negb (1 =? 1)) with false. cbv iota.
  exists w'. split; [reflexivity|].
  exact (world_after_trans _ _ _ _ _ _ _ (world_after_read w [ty] q Hok) Hafter).
Qed.

Lemma smallbuf_word_read (b0 b1 b2 b3 : byte) :
  smallbuf_word (set_smallbuf (overwrite (smallbuf c) [b0; b1; b2; b3]) c)
  = to_int (le_value [b0; b1; b2; b3]).
Proof. unfold smallbuf_word. rewrite <- word_of_four_bytes. reflexivity. Qed.

Lemma hs_getting_datasize_ok (b0 b1 b2 b3 : byte) :
  incoming w = RdBytes [b0; b1; b2; b3] :: q ->
  grants w (le_value [b0; b1; b2; b3]) = true ->
  exists w',
    hs_getting_datasize st c w
    = HsNext (st + 1)
        (set_noData 0
           (smallbuf_put0 RESP_RECVD
              (set_doublebuf (Some (new_doubles (le_value [b0; b1; b2; b3])))
                 (set_clientDataSize (le_value [b0; b1; b2; b3])
                    (set_smallbuf (overwrite (smallbuf c) [b0; b1; b2; b3]) c))))) w'
    /\ world_after w w' q [EvRecv [b0; b1; b2; b3]; EvSend [char_of RESP_RECVD]].
Proof.
  intros Hin Hgrant.
  unfold hs_getting_datasize, read_smallbuf.
  rewrite (sock_read_exact 4 w [b0; b1; b2; b3] q Hin eq_refl).
  change (4 =? 4) with true. cbv iota.
  rewrite smallbuf_word_read, to_uint_to_int by apply le_value_four_range.
  cbn [clientDataSize set_clientDataSize].
  change (grants (log_event (EvRecv [b0; b1; b2; b3]) (set_incoming q w))
                 (le_value [b0; b1; b2; b3]))
    with (grants w (le_value [b0; b1; b2; b3])).
  rewrite Hgrant. cbn [negb].
  rewrite write_smallbuf1_put0.
  destruct (sock_write_ack (char_of RESP_RECVD) _
              (proj2 (proj2 (world_after_read w [b0; b1; b2; b3] q Hok))))
    as (w' & Hw & Hafter).
  rewrite Hw. change (negb (1 =? 1)) with false. cbv iota.
  exists w'. split; [reflexivity|].
  exact (world_after_trans _ _ _ _ _ _ _ (world_after_read w _ q Hok) Hafter).
Qed.

End HandshakeStages.

Lemma attach_data_attaches (c : SpineMLConnection) (w : world) :
  exists d dc, attach_data c w = (set_data (Some d) c, set_dataCache dc w).
Proof.
  unfold attach_data. destruct (dataCache w) as [dc|] eqn:Hdc.
  - destruct (dc !! clientConnectionName c) as [d|].
    + eexists _, _. reflexivity.
    + exists [], (Some dc). rewrite <- Hdc. destruct w; reflexivity.
  - exists [], None. rewrite <- Hdc. destruct w; reflexivity.
Qed.

Lemma hs_getting_name_ok (st : Z) (c : SpineMLConnection) (w : world)
      (q : list read_event) (l0 l1 l2 l3 : byte) (name : list byte) :
  acks_go_out w ->
  incoming w = RdBytes [l0; l1; l2; l3] :: RdBytes name :: q ->
  le_value [l0; l1; l2; l3] <= 1024 ->
  Z.of_nat (length name) = le_value [l0; l1; l2; l3] ->
  exists d w',
    hs_getting_name st c w
    = HsNext (st + 1)
        (set_noData 0
           (set_data (Some d)
              (smallbuf_put0 RESP_RECVD
                 (set_clientConnectionName (String.string_of_list_byte (c_str name))
                    (set_smallbuf (overwrite (smallbuf c) [l0; l1; l2; l3]) c))))) w'
    /\ world_after w w' q
         [EvRecv [l0; l1; l2; l3]; EvRecv name; EvSend [char_of RESP_RECVD]].
Proof.
  intros Hok Hin Hmax Hlen.
  pose proof (le_value_four_range l0 l1 l2 l3) as Hrange.
  unfold hs_getting_name, read_smallbuf.
  rewrite (sock_read_exact 4 w [l0; l1; l2; l3] _ Hin eq_refl).
  change (4 =? 4) with true. cbv iota.
  rewrite smallbuf_word_read, to_int_small by (unfold INT_MAX; lia).
  replace (1024 <? le_value [l0; l1; l2; l3]) with false
    by (symmetry; apply Z.ltb_ge; exact Hmax).
  replace (1 + le_value [l0; l1; l2; l3] <? 0) with false
    by (symmetry; apply Z.ltb_ge; lia).
  rewrite to_size_t_small by lia.
  pose proof (world_after_read w [l0; l1; l2; l3] (RdBytes name :: q) Hok) as Hw1.
  set (w1 := log_event (EvRecv [l0; l1; l2; l3]) (set_incoming (RdBytes name :: q) w)) in *.
  rewrite (sock_read_exact _ w1 name q eq_refl Hlen).
  rewrite Z.eqb_refl. cbn [negb]. rewrite c_str_terminated, write_smallbuf1_put0.
  pose proof (world_after_read w1 name q (proj2 (proj2 Hw1))) as Hw2.
  set (w2 := log_event (EvRecv name) (set_incoming q w1)) in *.
  destruct (sock_write_ack (char_of RESP_RECVD) w2 (proj2 (proj2 Hw2)))
    as (w3 & Hw & Hw3).
  rewrite Hw. change (negb (1 =? 1)) with false. cbv iota.
  match goal with
  | |- context [attach_data ?c3 w3] =>
      destruct (attach_data_attaches c3 w3) as (d & dc & Hatt); rewrite Hatt
  end.
  exists d, (set_dataCache dc w3). split; [reflexivity|].
  pose proof (world_after_trans _ _ _ _ _ _ _
                (world_after_trans _ _ _ _ _ _ _ Hw1 Hw2) Hw3) as Hall.
  unfold world_after, acks_go_out in *. cbn. exact Hall.
Qed.

(** ** The heap during the handshake *)

Lemma sock_read_heap (count : Z) (w : world) :
  heap (snd (sock_read count w)) = heap w.
Proof.
  unfold sock_read. destruct (incoming w) as [|[bs|e] q]; reflexivity.
Qed.

Lemma sock_write_heap (bs : list byte) (w : world) :
  heap (snd (sock_write bs w)) = heap w.
Proof.
  unfold sock_write. destruct (wresults w) as [|[|k|e] q]; reflexivity.
Qed.

Lemma attach_data_heap (c : SpineMLConnection) (w : world) :
  heap (snd (attach_data c w)) = heap w.
Proof.
  destruct (attach_data_attaches c w) as (d & dc & ->). reflexivity.
Qed.

(** Splits on the calls and the tests of a stage, keeping track of the
    heap. *)
Ltac split_heap :=
  repeat match goal with
         | |- context [sock_read ?n ?w] =>
             let H := fresh "Hh" in
             pose proof (sock_read_heap n w) as H;
             destruct (sock_read n w) as [[? ?] ?]; cbn [snd] in H
         | |- context [write_smallbuf1 ?c ?w] =>
             let H := fresh "Hh" in
             pose proof (sock_write_heap [smallbuf_at 0 c] w) as H;
             unfold write_smallbuf1;
             destruct (sock_write [smallbuf_at 0 c] w) as [? ?]; cbn [snd] in H
         | |- context [attach_data ?c ?w] =>
             let H := fresh "Hh" in
             pose proof (attach_data_heap c w) as H;
             destruct (attach_data c w) as [? ?]; cbn [snd] in H
         | |- context [if ?b then _ else _] => destruct b
         end.

Lemma hs_getting_target_heap (st : Z) (c : SpineMLConnection) (w : world) :
  heap_kept w (hs_getting_target st c w).
Proof.
  unfold hs_getting_target, read_smallbuf, hs_fail.
  split_heap; cbn [heap_kept]; congruence.
Qed.

Lemma hs_getting_datatype_heap (st : Z) (c : SpineMLConnection) (w : world) :
  heap_kept w (hs_getting_datatype st c w).
Proof.
  unfold hs_getting_datatype, read_smallbuf, hs_fail.
  split_heap; cbn [heap_kept]; congruence.
Qed.




(** The same, for a pass known to go on. *)
Lemma heap_kept_next (w w' : world) (r : hs_iter_result) (s : Z)
      (c' : SpineMLConnection) :
  heap_kept w r -> r = HsNext s c' w' -> heap w' = heap w.
Proof. intros H ->. exact H. Qed.

Lemma grants_same_heap (w w' : world) (n : Z) :
  heap w' = heap w -> grants w' n = grants w n.
Proof. intros H. unfold grants. rewrite H. reflexivity. Qed.

(** ** The loop of the handshake *)

Lemma hs_loop_next (g : nat) (s s' : Z) (c c' : SpineMLConnection) (w w' : world) :
  s <> CS_HS_DONE -> noData c < NO_DATA_MAX_COUNT ->
  hs_iter s c w = HsNext s' c' w' ->
  hs_loop (S g) s c w = hs_loop g s' c' w'.
Proof.
  intros Hs Hnd Hit. cbn [hs_loop].
  replace (s =? CS_HS_DONE) with false by (symmetry; apply Z.eqb_neq; exact Hs).
  replace (noData c <? NO_DATA_MAX_COUNT) with true
    by (symmetry; apply Z.ltb_lt; exact Hnd).
  cbn [negb andb]. rewrite Hit. reflexivity.
Qed.

Lemma hs_loop_return (g : nat) (s rc : Z) (c c' : SpineMLConnection) (w w' : world) :
  s <> CS_HS_DONE -> noData c < NO_DATA_MAX_COUNT ->
  hs_iter s c w = HsReturn rc c' w' ->
  hs_loop (S g) s c w = LoopReturn rc c' w'.
Proof.
  intros Hs Hnd Hit. cbn [hs_loop].
  replace (s =? CS_HS_DONE) with false by (symmetry; apply Z.eqb_neq; exact Hs).
  replace (noData c <? NO_DATA_MAX_COUNT) with true
    by (symmetry; apply Z.ltb_lt; exact Hnd).
  cbn [negb andb]. rewrite Hit. reflexivity.
Qed.

(** Two stages with different numbers. *)
Lemma stage_differs (s s' : Z) : (s =? s') = false -> s <> s'.
Proof. intros H. apply Z.eqb_neq. exact H. Qed.

(** Closes the side conditions of a step of the loop. *)
Ltac hs_side :=
  first [ eassumption | reflexivity | (apply stage_differs; reflexivity) ].

Lemma hs_loop_done (g : nat) (c : SpineMLConnection) (w : world) :
  hs_loop g CS_HS_DONE c w = LoopExit CS_HS_DONE c w.
Proof. destruct g; reflexivity. Qed.

Lemma hs_loop_ceiling (g : nat) (s : Z) (c : SpineMLConnection) (w : world) :
  NO_DATA_MAX_COUNT <= noData c -> hs_loop g s c w = LoopExit s c w.
Proof.
  intros Hnd.
  assert (Hc : (noData c <? NO_DATA_MAX_COUNT) = false) by (apply Z.ltb_ge; exact Hnd).
  destruct g; cbn [hs_loop]; rewrite Hc, andb_false_r; reflexivity.
Qed.

Lemma length_new_doubles (n : Z) :
  0 <= n -> Z.of_nat (length (new_doubles n)) = n * 8.
Proof.
  intros Hn. unfold new_doubles, sizeof_double. rewrite repeat_length. lia.
Qed.

(** C1 (as amended).  The client sends a direction sentinel, the
    analog-numbers sentinel, four bytes of data size, four bytes of name
    length (at most 1024) and as many name bytes, each read of the server
    delivering the field it asks for, every acknowledgement the server
    writes goes out, and the machine grants the allocation of a scratch
    buffer of the size asked.  Then [doHandshake] returns 0 with
    [established] set;
    direction, type and size are the negotiated ones; the scratch buffer
    holds exactly [clientDataSize] doubles; a deque is attached; the four
    acknowledgements HELLO, RECVD, RECVD, RECVD have been sent.  The
    connection name is the C string held by the name bytes: the bytes
    before the first zero byte, hence all of them when none is zero. *)
Theorem doHandshake_valid_sequence
    (c : SpineMLConnection) (w : world) (q : list read_event)
    (dir ty s0 s1 s2 s3 l0 l1 l2 l3 : byte) (name : list byte) :
  char_val dir = AM_SOURCE \/ char_val dir = AM_TARGET ->
  char_val ty = RESP_DATA_NUMS ->
  1 <= le_value [s0; s1; s2; s3] ->
  grants w (le_value [s0; s1; s2; s3]) = true ->
  le_value [l0; l1; l2; l3] <= 1024 ->
  Z.of_nat (length name) = le_value [l0; l1; l2; l3] ->
  incoming w = RdBytes [dir] :: RdBytes [ty] :: RdBytes [s0; s1; s2; s3]
                 :: RdBytes [l0; l1; l2; l3] :: RdBytes name :: q ->
  acks_go_out w ->
  exists c' w',
    doHandshake c w = Some (0, c', w')
    /\ established c' = true
    /\ clientDataDirection c' = char_val dir
    /\ clientDataType c' = RESP_DATA_NUMS
    /\ clientDataSize c' = le_value [s0; s1; s2; s3]
    /\ clientConnectionName c' = String.string_of_list_byte (c_str name)
    /\ (~ In x00 name -> clientConnectionName c' = String.string_of_list_byte name)
    /\ (exists m, doublebuf c' = Some m
                  /\ Z.of_nat (length m) = clientDataSize c' * 8)
    /\ (exists d, data c' = Some d)
    /\ incoming w' = q
    /\ sent w' = sent w ++ [[char_of RESP_HELLO]; [char_of RESP_RECVD];
                            [char_of RESP_RECVD]; [char_of RESP_RECVD]].
Proof.
  intros Hdir Hty Hsize Hgrant Hmax Hlen Hin Hok.
  unfold doHandshake, handshake_from.
  change (hs_bound CS_HS_GETTINGTARGET (noData (set_noData 0 c))) with 400%nat.
  destruct (hs_getting_target_ok CS_HS_GETTINGTARGET (set_noData 0 c) w _ Hok dir Hin Hdir)
    as (w1 & Hit1 & (Hin1 & Ht1 & Hok1)).
  pose proof (heap_kept_next _ _ _ _ _ (hs_getting_target_heap _ _ _) Hit1) as Hh1.
  erewrite hs_loop_next by hs_side.
  match type of Hit1 with _ = HsNext _ ?c1 _ =>
    destruct (hs_getting_datatype_ok (CS_HS_GETTINGTARGET + 1) c1 w1 _ Hok1 ty Hin1 Hty)
      as (w2 & Hit2 & (Hin2 & Ht2 & Hok2))
  end.
  pose proof (heap_kept_next _ _ _ _ _ (hs_getting_datatype_heap _ _ _) Hit2) as Hh2.
  assert (Hgrant2 : grants w2 (le_value [s0; s1; s2; s3]) = true).
  { rewrite (grants_same_heap w w2) by congruence. exact Hgrant. }
  erewrite hs_loop_next by hs_side.
  match type of Hit2 with _ = HsNext _ ?c2 _ =>
    destruct (hs_getting_datasize_ok (CS_HS_GETTINGTARGET + 1 + 1) c2 w2 _ Hok2
                s0 s1 s2 s3 Hin2 Hgrant2)
      as (w3 & Hit3 & (Hin3 & Ht3 & Hok3))
  end.
  erewrite hs_loop_next by hs_side.
  match type of Hit3 with _ = HsNext _ ?c3 _ =>
    destruct (hs_getting_name_ok (CS_HS_GETTINGTARGET + 1 + 1 + 1) c3 w3 _
                l0 l1 l2 l3 name Hok3 Hin3 Hmax Hlen)
      as (d & w4 & Hit4 & (Hin4 & Ht4 & Hok4))
  end.
  erewrite hs_loop_next by hs_side.
  change (CS_HS_GETTINGTARGET + 1 + 1 + 1 + 1) with CS_HS_DONE.
  rewrite hs_loop_done. cbn [hs_finish noData set_noData].
  change (NO_DATA_MAX_COUNT <=? 0) with false. cbv iota.
  eexists _, w4. split; [reflexivity|].
  pose proof (le_value_four_range s0 s1 s2 s3) as Hrange.
  repeat (split; [reflexivity|]).
  split; [intros Hnul; cbn; rewrite (c_str_no_nul _ Hnul); reflexivity|].
  split; [eexists; split; [reflexivity|];
          exact (length_new_doubles (le_value [s0; s1; s2; s3]) (proj1 Hrange))|].
  split; [exists d; reflexivity|].
  split; [exact Hin4|].
  unfold sent. rewrite Ht4, Ht3, Ht2, Ht1, !sent_of_app, <- !app_assoc. reflexivity.
Qed.

Lemma doHandshake_valid_sequence_witness :
  exists c' w',
    doHandshake new_SpineMLConnection (scripted valid_handshake []) = Some (0, c', w')
    /\ established c' = true
    /\ clientDataDirection c' = AM_TARGET
    /\ clientDataType c' = RESP_DATA_NUMS
    /\ clientDataSize c' = 3
    /\ clientConnectionName c' = "test"%string
    /\ (exists m, doublebuf c' = Some m /\ Z.of_nat (length m) = 24)
    /\ (exists d, data c' = Some d)
    /\ sent w' = [[char_of RESP_HELLO]; [char_of RESP_RECVD];
                  [char_of RESP_RECVD]; [char_of RESP_RECVD]].
Proof.
  assert (Hsize : 1 <= le_value [x03; x00; x00; x00]) by concrete.
  assert (Hmax : le_value [x04; x00; x00; x00] <= 1024) by concrete.
  assert (Hgrant : grants (scripted valid_handshake [])
                          (le_value [x03; x00; x00; x00]) = true)
    by (vm_compute; reflexivity).
  destruct (doHandshake_valid_sequence
              new_SpineMLConnection (scripted valid_handshake []) []
              x2e x1f x03 x00 x00 x00 x04 x00 x00 x00 [x74; x65; x73; x74]
              (or_intror eq_refl) eq_refl Hsize Hgrant Hmax eq_refl eq_refl
              (List.Forall_nil _))
    as (c' & w' & Hrun & Hest & Hdir & Hty & Hsz & Hname & _ & Hbuf & Hdata & _ & Hsent).
  exists c', w'.
  split; [exact Hrun|]. split; [exact Hest|]. split; [exact Hdir|].
  split; [exact Hty|]. split; [exact Hsz|]. split; [exact Hname|].
  split; [|split; [exact Hdata|exact Hsent]].
  destruct Hbuf as (m & Hm & Hlen). exists m. split; [exact Hm|].
  rewrite Hlen, Hsz. reflexivity.
Defined.

(** C1 as stated fails on a name with a zero byte inside: the handshake
    succeeds, and the connection name is [a], not the three name bytes. *)
Lemma doHandshake_name_cut_at_nul :
  exists c' w',
    doHandshake new_SpineMLConnection (scripted nul_name_handshake []) = Some (0, c', w')
    /\ established c' = true
    /\ clientConnectionName c' = "a"%string
    /\ clientConnectionName c' <> String.string_of_list_byte [x61; x00; x62].
Proof.
  eexists _, _. split; [vm_compute; reflexivity|].
  split; [reflexivity|]. split; [reflexivity|].
  intros Heq. vm_compute in Heq. discriminate Heq.
Qed.

(** C1 as stated fails as well on a size the machine does not grant.  The
    bytes are valid at all four stages, with the size FF FF FF FF; after
    two acknowledgements [new double[clientDataSize]] throws
    [std::bad_alloc]: [doHandshake] returns nothing, and the connection is
    neither established nor failed. *)
Lemma doHandshake_size_not_granted :
  exists c' w',
    handshake_loop new_SpineMLConnection
      (scripted [RdBytes [x2d]; RdBytes [x1f]; RdBytes [xff; xff; xff; xff];
                 RdBytes [x01; x00; x00; x00]; RdBytes [x61]] [])
    = LoopThrows c' w'
    /\ doHandshake new_SpineMLConnection
         (scripted [RdBytes [x2d]; RdBytes [x1f]; RdBytes [xff; xff; xff; xff];
                    RdBytes [x01; x00; x00; x00]; RdBytes [x61]] [])
       = None
    /\ clientDataSize c' = 4294967295
    /\ doublebuf c' = None
    /\ established c' = false /\ failed c' = false
    /\ sent w' = [[char_of RESP_HELLO]; [char_of RESP_RECVD]]
    /\ incoming w' = [RdBytes [x01; x00; x00; x00]; RdBytes [x61]].
Proof.
  eexists _, _. split; [vm_compute; reflexivity|].
  repeat split; vm_compute; reflexivity.
Qed.

(** C2 (the code departs from the claim).  The name-length field is
    FF FF FF FF, 4294967295 as an unsigned little-endian value.  The code
    holds it in an [int]: [nameSize] is -1, which is not above 1024.  The
    read of the name fails and returns -1, which equals [nameSize], so the
    handshake goes on: it acknowledges, attaches a deque and returns 0 with
    [established] set and [failed] clear. *)
Theorem doHandshake_accepts_name_length_minus_one :
  exists c' w',
    le_value [xff; xff; xff; xff] = 4294967295
    /\ doHandshake new_SpineMLConnection (scripted huge_name_handshake [])
       = Some (0, c', w')
    /\ established c' = true
    /\ failed c' = false
    /\ sent w' = [[char_of RESP_HELLO]; [char_of RESP_RECVD];
                  [char_of RESP_RECVD]; [char_of RESP_RECVD]].
Proof.
  eexists _, _. split; [reflexivity|].
  split; [vm_compute; reflexivity|].
  split; [reflexivity|]. split; reflexivity.
Qed.

(** ** What every pass of the handshake loop preserves *)

(** Splits on the tests and the calls a stage makes. *)
Ltac split_stage :=
  repeat match goal with
         | |- context [sock_read ?n ?w] =>
             let r := fresh "r" in let bs := fresh "bs" in
             let w1 := fresh "w" in
             destruct (sock_read n w) as [[r bs] w1]
         | |- context [write_smallbuf1 ?c ?w] =>
             let n := fresh "n" in let w1 := fresh "w" in
             destruct (write_smallbuf1 c w) as [n w1]
         | |- context [attach_data ?c ?w] =>
             let d := fresh "d" in let dc := fresh "dc" in
             let H := fresh "Hatt" in
             destruct (attach_data_attaches c w) as (d & dc & H); rewrite H
         | |- context [if ?b then _ else _] => destruct b
         end.

(** A pass that returns does so with -1 and [failed] set; one that goes on
    stays at its stage with one more read without data (or is the idle
    pass of stage 4), or moves to the next stage with the count reset.
    Only the move out of stage 3 touches [data], and it attaches a deque;
    [established] is never touched. *)
Lemma hs_iter_inv (s : Z) (c : SpineMLConnection) (w : world) :
  match hs_iter s c w with
  | HsReturn rc c' w' =>
      rc = -1 /\ failed c' = true /\ established c' = established c
      /\ data c' = data c
  | HsNext s' c' w' =>
      established c' = established c /\ failed c' = failed c
      /\ ((s' = s /\ data c' = data c
           /\ (noData c' = to_uint (noData c + 1) \/ s = CS_HS_DONE))
          \/ (s' = s + 1 /\ noData c' = 0 /\ 0 <= s <= CS_HS_GETTINGNAME
              /\ (s = CS_HS_GETTINGNAME -> data c' <> None)
              /\ (s < CS_HS_GETTINGNAME -> data c' = data c)))
  | HsThrows c' w' =>
      established c' = established c /\ failed c' = failed c
      /\ data c' = data c /\ doublebuf c' = doublebuf c
  | HsUndefined => True
  end.
Proof.
  unfold hs_iter.
  destruct (Z.eqb_spec s CS_HS_GETTINGTARGET) as [->|H0].
  { unfold hs_getting_target, read_smallbuf, hs_fail. split_stage; cbn;
      try (repeat split; (reflexivity || (left; repeat split; auto) || auto); fail).
    all: repeat split; try reflexivity; right; repeat split; try reflexivity;
      unfold CS_HS_GETTINGTARGET, CS_HS_GETTINGNAME; try lia; intros; try lia;
      reflexivity. }
  destruct (Z.eqb_spec s CS_HS_GETTINGDATATYPE) as [->|H1].
  { unfold hs_getting_datatype, read_smallbuf, hs_fail. split_stage; cbn;
      try (repeat split; (reflexivity || (left; repeat split; auto) || auto); fail).
    all: repeat split; try reflexivity; right; repeat split; try reflexivity;
      unfold CS_HS_GETTINGDATATYPE, CS_HS_GETTINGNAME; try lia; intros; try lia;
      reflexivity. }
  destruct (Z.eqb_spec s CS_HS_GETTINGDATASIZE) as [->|H2].
  { unfold hs_getting_datasize, read_smallbuf, hs_fail. split_stage; cbn;
      try (repeat split; (reflexivity || (left; repeat split; auto) || auto); fail).
    all: repeat split; try reflexivity; right; repeat split; try reflexivity;
      unfold CS_HS_GETTINGDATASIZE, CS_HS_GETTINGNAME; try lia; intros; try lia;
      reflexivity. }
  destruct (Z.eqb_spec s CS_HS_GETTINGNAME) as [->|H3].
  { unfold hs_getting_name, read_smallbuf, hs_fail. split_stage; cbn;
      try (repeat split; (reflexivity || (left; repeat split; auto) || auto); fail).
    all: repeat split; try reflexivity; right; repeat split; try reflexivity;
      unfold CS_HS_GETTINGNAME; try lia; intros; try lia; try discriminate. }
  destruct (Z.eqb_spec s CS_HS_DONE) as [->|H4].
  { repeat split; try reflexivity. left. repeat split; try reflexivity. right. reflexivity. }
  unfold hs_fail. repeat split; reflexivity.
Qed.

Lemma hs_loop_total (g : nat) :
  forall (s : Z) (c : SpineMLConnection) (w : world),
    0 <= s <= CS_HS_DONE -> 0 <= noData c ->
    (hs_bound s (noData c) <= g)%nat ->
    hs_loop g s c w <> OutOfGas.
Proof.
  induction g as [|g IH]; intros s c w Hs Hnd Hb; cbn [hs_loop];
    destruct (Z.eqb_spec s CS_HS_DONE) as [Hdone|Hdone]; cbn [negb andb];
    try discriminate;
    destruct (Z.ltb_spec (noData c) NO_DATA_MAX_COUNT) as [Hlt|Hge];
    try discriminate;
    unfold hs_bound, CS_HS_DONE, CS_HS_GETTINGNAME, NO_DATA_MAX_COUNT in *.
  - lia.
  - pose proof (hs_iter_inv s c w) as Hinv.
    destruct (hs_iter s c w) as [rc c' w'|s' c' w'|c' w'|];
      [discriminate| |discriminate|discriminate].
    destruct Hinv as (_ & _ & [(-> & _ & [Hn|Hd])|(-> & Hn & Hr & _)]).
    + apply IH; unfold hs_bound, CS_HS_DONE, CS_HS_GETTINGNAME, NO_DATA_MAX_COUNT;
        rewrite ?Hn; unfold to_uint; rewrite ?Z.mod_small by lia; lia.
    + unfold CS_HS_DONE in Hd. lia.
    + apply IH; unfold hs_bound, CS_HS_DONE, CS_HS_GETTINGNAME, NO_DATA_MAX_COUNT in *;
        rewrite ?Hn; lia.
Qed.

Lemma hs_loop_inv (g : nat) :
  forall (s : Z) (c : SpineMLConnection) (w : world),
    match hs_loop g s c w with
    | LoopReturn rc c' w' =>
        rc = -1 /\ failed c' = true /\ established c' = established c
        /\ (s <= CS_HS_GETTINGNAME -> data c = None -> data c' = None)
    | LoopExit s' c' w' =>
        established c' = established c /\ failed c' = failed c
        /\ ((s' = CS_HS_DONE
             /\ (s <= CS_HS_GETTINGNAME -> noData c' = 0 /\ data c' <> None))
            \/ (s' <> CS_HS_DONE /\ NO_DATA_MAX_COUNT <= noData c'
                /\ (s <= CS_HS_GETTINGNAME -> data c = None -> data c' = None)))
    | LoopThrows c' w' =>
        established c' = established c /\ failed c' = failed c
        /\ (s <= CS_HS_GETTINGNAME -> data c = None -> data c' = None)
    | LoopUndefined => True
    | OutOfGas => True
    end.
Proof.
  assert (Hexit : forall (s : Z) (c : SpineMLConnection),
    negb (s =? CS_HS_DONE) && (noData c <? NO_DATA_MAX_COUNT) = false ->
    established c = established c /\ failed c = failed c
    /\ ((s = CS_HS_DONE /\ (s <= CS_HS_GETTINGNAME -> noData c = 0 /\ data c <> None))
        \/ (s <> CS_HS_DONE /\ NO_DATA_MAX_COUNT <= noData c
            /\ (s <= CS_HS_GETTINGNAME -> data c = None -> data c = None)))).
  { intros s c Hc. split; [reflexivity|]. split; [reflexivity|].
    destruct (Z.eqb_spec s CS_HS_DONE) as [Hd|Hd]; cbn [negb andb] in Hc.
    - left. split; [exact Hd|]. unfold CS_HS_DONE, CS_HS_GETTINGNAME in *. lia.
    - right. split; [exact Hd|]. split; [apply Z.ltb_ge; exact Hc|auto]. }
  induction g as [|g IH]; intros s c w; cbn [hs_loop];
    destruct (negb (s =? CS_HS_DONE) && (noData c <? NO_DATA_MAX_COUNT)) eqn:Hc;
    try exact I; try (apply (Hexit s c Hc)).
  pose proof (hs_iter_inv s c w) as Hinv.
  destruct (hs_iter s c w) as [rc c1 w1|s1 c1 w1|c1 w1|]; [| | |exact I].
  - destruct Hinv as (Hrc & Hf & He & Hd). repeat split; try assumption.
    intros _ Hnone. rewrite Hd. exact Hnone.
  - destruct Hinv as (He & Hf & Hcases).
    destruct Hcases as [(-> & Hd & _)|(-> & Hn & Hr & Hatt & Hkeep)].
    + specialize (IH s c1 w1).
      destruct (hs_loop g s c1 w1) as [rc c' w'|s' c' w'|c' w'| |];
        [| | |exact I|exact I].
      * destruct IH as (Hrc & Hf' & He' & Hd'). repeat split; try assumption.
        -- rewrite He'. exact He.
        -- intros Hs Hnone. apply Hd'; [exact Hs|]. rewrite Hd. exact Hnone.
      * destruct IH as (He' & Hf' & Hc').
        split; [rewrite He'; exact He|]. split; [rewrite Hf'; exact Hf|].
        destruct Hc' as [Hl|(Hne & Hge & Hd')]; [left; exact Hl|].
        right. split; [exact Hne|]. split; [exact Hge|].
        intros Hs Hnone. apply Hd'; [exact Hs|]. rewrite Hd. exact Hnone.
      * destruct IH as (He' & Hf' & Hd').
        split; [rewrite He'; exact He|]. split; [rewrite Hf'; exact Hf|].
        intros Hs Hnone. apply Hd'; [exact Hs|]. rewrite Hd. exact Hnone.
    + destruct (Z.eq_dec s CS_HS_GETTINGNAME) as [->|Hne].
      * change (CS_HS_GETTINGNAME + 1) with CS_HS_DONE. rewrite hs_loop_done.
        split; [exact He|]. split; [exact Hf|]. left. split; [reflexivity|].
        intros _. split; [exact Hn|]. apply Hatt. reflexivity.
      * assert (Hlt : s < CS_HS_GETTINGNAME) by lia.
        specialize (IH (s + 1) c1 w1).
        destruct (hs_loop g (s + 1) c1 w1) as [rc c' w'|s' c' w'|c' w'| |];
          [| | |exact I|exact I].
        -- destruct IH as (Hrc & Hf' & He' & Hd'). repeat split; try assumption.
           ++ rewrite He'. exact He.
           ++ intros _ Hnone. apply Hd'; [lia|]. rewrite (Hkeep Hlt). exact Hnone.
        -- destruct IH as (He' & Hf' & Hc').
           split; [rewrite He'; exact He|]. split; [rewrite Hf'; exact Hf|].
           destruct Hc' as [(Hs' & Hl)|(Hs' & Hge & Hd')].
           ++ left. split; [exact Hs'|]. intros _. apply Hl. lia.
           ++ right. split; [exact Hs'|]. split; [exact Hge|].
              intros _ Hnone. apply Hd'; [lia|]. rewrite (Hkeep Hlt). exact Hnone.
        -- destruct IH as (He' & Hf' & Hd').
           split; [rewrite He'; exact He|]. split; [rewrite Hf'; exact Hf|].
           intros _ Hnone. apply Hd'; [lia|]. rewrite (Hkeep Hlt). exact Hnone.
  - destruct Hinv as (He & Hf & Hd & _). repeat split; try assumption.
    intros _ Hnone. rewrite Hd. exact Hnone.
Qed.

(** ** doHandshake as a whole *)

(** The loop of the handshake ends: it makes at most 400 passes. *)
Lemma handshake_loop_total (c : SpineMLConnection) (w : world) :
  handshake_loop c w <> OutOfGas.
Proof.
  unfold handshake_loop.
  apply hs_loop_total;
    [unfold CS_HS_GETTINGTARGET, CS_HS_DONE; lia | cbn; lia | apply Nat.le_refl].
Qed.

Lemma doHandshake_finish (c : SpineMLConnection) (w : world) :
  doHandshake c w = hs_finish (handshake_loop c w).
Proof. reflexivity. Qed.

(** A handshake whose loop goes to its end or returns, returns a value. *)
Lemma doHandshake_returns (c : SpineMLConnection) (w : world) :
  (forall c' w', handshake_loop c w <> LoopThrows c' w') ->
  handshake_loop c w <> LoopUndefined ->
  exists rc c' w', doHandshake c w = Some (rc, c', w').
Proof.
  intros Hthrow Hundef. rewrite doHandshake_finish.
  pose proof (handshake_loop_total c w) as Htot.
  destruct (handshake_loop c w) as [rc c' w'|s' c' w'|c' w'| |].
  - exists rc, c', w'. reflexivity.
  - cbn [hs_finish]. destruct (NO_DATA_MAX_COUNT <=? noData c'); eexists _, _, _; reflexivity.
  - exfalso. exact (Hthrow c' w' eq_refl).
  - exfalso. exact (Hundef eq_refl).
  - exfalso. exact (Htot eq_refl).
Qed.

(** It returns 0 with [established] set and a deque attached, or -1 with
    [failed] set, [established] as it was and no deque attached if none
    was. *)
Lemma doHandshake_outcome (c c' : SpineMLConnection) (w w' : world) (rc : Z) :
  doHandshake c w = Some (rc, c', w') ->
  (rc = 0 /\ established c' = true /\ failed c' = failed c /\ data c' <> None)
  \/ (rc = -1 /\ failed c' = true /\ established c' = established c
      /\ (data c = None -> data c' = None)).
Proof.
  unfold doHandshake, handshake_from.
  pose proof (hs_loop_inv (hs_bound CS_HS_GETTINGTARGET (noData (set_noData 0 c)))
                CS_HS_GETTINGTARGET (set_noData 0 c) w) as Hinv.
  destruct (hs_loop _ _ _ w) as [rc1 c1 w1|s1 c1 w1|c1 w1| |]; cbn [hs_finish];
    [| |discriminate|discriminate|discriminate].
  - intros H; inversion H; subst; clear H.
    destruct Hinv as (Hrc & Hf & He & Hd). right.
    repeat split; try assumption. apply Hd. unfold CS_HS_GETTINGTARGET, CS_HS_GETTINGNAME. lia.
  - destruct Hinv as (He & Hf & [(Hs & Hl)|(Hs & Hge & Hd)]).
    + destruct Hl as [Hn Hdata];
        [unfold CS_HS_GETTINGTARGET, CS_HS_GETTINGNAME; lia|].
      rewrite Hn. change (NO_DATA_MAX_COUNT <=? 0) with false. cbv iota.
      intros H; inversion H; subst; clear H. left.
      repeat split; try assumption.
    + replace (NO_DATA_MAX_COUNT <=? noData c1) with true
        by (symmetry; apply Z.leb_le; exact Hge).
      intros H; inversion H; subst; clear H. right.
      repeat split; try assumption.
      apply Hd. unfold CS_HS_GETTINGTARGET, CS_HS_GETTINGNAME. lia.
Qed.

(** ** The accessors before a deque is attached *)

(** C10.  The constructor leaves [data] null.  [addNum] and [addData]
    return without touching the deque when the connection is not
    established or has failed, whatever [data] is.  [getDataSize] and
    [popFront] make no such test: with [data] null they dereference the
    null pointer, whatever the flags.  A handshake on a new connection
    that does not return 0 has not attached a deque: [data] is still null,
    [getDataSize] and [popFront] still dereference it, and [addNum] and
    [addData] still return without touching it; a handshake that returns 0
    has attached one. *)
Theorem accessors_before_data_attached :
  data new_SpineMLConnection = None
  /\ (forall (c : SpineMLConnection) (d : double) (ds : list double) (n : Z),
        established c = false \/ failed c = true ->
        addNum d c = Returns tt c /\ addData ds n c = Returns tt c)
  /\ (forall c : SpineMLConnection,
        data c = None -> getDataSize c = NullPointer /\ popFront c = NullPointer)
  /\ (forall (w w' : world) (rc : Z) (c' : SpineMLConnection),
        doHandshake new_SpineMLConnection w = Some (rc, c', w') ->
        (rc <> 0 ->
         data c' = None
         /\ getDataSize c' = NullPointer /\ popFront c' = NullPointer
         /\ forall (d : double) (ds : list double) (n : Z),
             addNum d c' = Returns tt c' /\ addData ds n c' = Returns tt c')
        /\ (rc = 0 -> exists d, data c' = Some d)).
Proof.
  assert (Hguard : forall (c : SpineMLConnection) (d : double) (ds : list double) (n : Z),
             established c = false \/ failed c = true ->
             addNum d c = Returns tt c /\ addData ds n c = Returns tt c).
  { intros c d ds n Hflags. unfold addNum, addData.
    destruct Hflags as [He|Hf]; [rewrite He|rewrite Hf, orb_true_r];
      split; reflexivity. }
  assert (Hnull : forall c : SpineMLConnection,
             data c = None -> getDataSize c = NullPointer /\ popFront c = NullPointer).
  { intros c Hd. unfold getDataSize, popFront. rewrite Hd. split; reflexivity. }
  split; [reflexivity|]. split; [exact Hguard|]. split; [exact Hnull|].
  intros w w' rc c' Hrun.
  destruct (doHandshake_outcome _ _ _ _ _ Hrun)
    as [(Hrc & _ & _ & Hd)|(Hrc & _ & He & Hd)].
  - split; [intros Hne; contradiction|]. intros _.
    destruct (data c') as [d|]; [exists d; reflexivity|contradiction].
  - split; [|intros Hz; lia]. intros _.
    specialize (Hd eq_refl). split; [exact Hd|].
    destruct (Hnull c' Hd) as [Hg Hp]. split; [exact Hg|]. split; [exact Hp|].
    intros d ds n. apply Hguard. left. rewrite He. reflexivity.
Qed.

(** A client whose first byte is no direction sentinel: the handshake
    fails at the first stage and the accessors find no deque. *)
Lemma accessors_before_data_attached_witness :
  getDataSize new_SpineMLConnection = NullPointer
  /\ popFront new_SpineMLConnection = NullPointer
  /\ addNum 7 new_SpineMLConnection = Returns tt new_SpineMLConnection
  /\ exists c' w',
      doHandshake new_SpineMLConnection (scripted [RdBytes [x00]] [])
        = Some (-1, c', w')
      /\ data c' = None
      /\ getDataSize c' = NullPointer /\ popFront c' = NullPointer
      /\ addNum 7 c' = Returns tt c'.
Proof.
  destruct accessors_before_data_attached as (Hnew & Hguard & Hnull & Hhs).
  destruct (Hnull new_SpineMLConnection Hnew) as [Hsize Hpop].
  split; [exact Hsize|]. split; [exact Hpop|].
  split; [exact (proj1 (Hguard new_SpineMLConnection 7 [] 0 (or_introl eq_refl)))|].
  eexists _, _.
  assert (Hrun : doHandshake new_SpineMLConnection (scripted [RdBytes [x00]] [])
                 = Some (-1, ?[c'], ?[w'])) by (vm_compute; reflexivity).
  split; [exact Hrun|].
  destruct (proj1 (Hhs _ _ _ _ Hrun)) as (Hd & Hg & Hp & Hadd); [discriminate|].
  split; [exact Hd|]. split; [exact Hg|]. split; [exact Hp|].
  exact (proj1 (Hadd 7 [] 0)).
Defined.

(** ** Reads that find nothing *)

Lemma set_smallbuf_same (c : SpineMLConnection) : set_smallbuf (smallbuf c) c = c.
Proof. destruct c; reflexivity. Qed.

Lemma set_noData_same (c : SpineMLConnection) : set_noData (noData c) c = c.
Proof. destruct c; reflexivity. Qed.

Lemma set_doublebuf_same (c : SpineMLConnection) : set_doublebuf (doublebuf c) c = c.
Proof. destruct c; reflexivity. Qed.

Lemma incr_noData_small (c : SpineMLConnection) :
  0 <= noData c < NO_DATA_MAX_COUNT ->
  incr_noData c = set_noData (noData c + 1) c.
Proof.
  intros Hnd. unfold incr_noData, to_uint, NO_DATA_MAX_COUNT in *.
  rewrite Z.mod_small by lia. reflexivity.
Qed.

Lemma sock_read_nothing (count : Z) (w : world) (q : list read_event) :
  0 <= count -> incoming w = RdBytes [] :: q ->
  sock_read count w = (0, [], after_stalls 1 q w).
Proof.
  intros Hc Hin. unfold sock_read. rewrite Hin.
  replace (Z.to_nat (Z.min count (Z.of_nat (length (@nil byte))))) with 0%nat
    by (simpl; lia).
  reflexivity.
Qed.

Lemma after_stalls_none (w : world) : after_stalls 0 (incoming w) w = w.
Proof. unfold after_stalls. cbn [repeat]. rewrite app_nil_r. destruct w; reflexivity. Qed.

Lemma after_stalls_more (k : nat) (q q' : list read_event) (w : world) :
  after_stalls k q (after_stalls 1 q' w) = after_stalls (S k) q w.
Proof.
  unfold after_stalls. cbn [wresults errno trace dataCache repeat].
  rewrite <- app_assoc. reflexivity.
Qed.

Lemma after_stalls_after (j k : nat) (q q' : list read_event) (w : world) :
  after_stalls j q (after_stalls k q' w) = after_stalls (k + j) q w.
Proof.
  unfold after_stalls. cbn [wresults errno trace dataCache].
  rewrite repeat_app, app_assoc. reflexivity.
Qed.

Lemma stalls_snoc (k : nat) (q : list read_event) :
  stalls (S k) ++ q = stalls k ++ RdBytes [] :: q.
Proof.
  unfold stalls. induction k as [|k IH]; [reflexivity|].
  cbn [repeat app] in *. rewrite IH. reflexivity.
Qed.

Lemma hs_iter_stall (s : Z) (c : SpineMLConnection) (w : world) (q : list read_event) :
  CS_HS_GETTINGTARGET <= s <= CS_HS_GETTINGNAME ->
  incoming w = RdBytes [] :: q ->
  hs_iter s c w = HsNext s (incr_noData c) (after_stalls 1 q w).
Proof.
  intros Hs Hin.
  assert (Hc : set_smallbuf (overwrite (smallbuf c) []) c = c)
    by apply set_smallbuf_same.
  unfold CS_HS_GETTINGTARGET, CS_HS_GETTINGNAME in Hs.
  assert (Hcases : s = 0 \/ s = 1 \/ s = 2 \/ s = 3) by lia.
  destruct Hcases as [ -> | [ -> | [ -> | -> ] ] ].
  - change (hs_iter 0 c w) with (hs_getting_target 0 c w).
    unfold hs_getting_target, read_smallbuf.
    rewrite (sock_read_nothing 1 w q ltac:(lia) Hin), Hc. reflexivity.
  - change (hs_iter 1 c w) with (hs_getting_datatype 1 c w).
    unfold hs_getting_datatype, read_smallbuf.
    rewrite (sock_read_nothing 1 w q ltac:(lia) Hin), Hc. reflexivity.
  - change (hs_iter 2 c w) with (hs_getting_datasize 2 c w).
    unfold hs_getting_datasize, read_smallbuf.
    rewrite (sock_read_nothing 4 w q ltac:(lia) Hin), Hc. reflexivity.
  - change (hs_iter 3 c w) with (hs_getting_name 3 c w).
    unfold hs_getting_name, read_smallbuf.
    rewrite (sock_read_nothing 4 w q ltac:(lia) Hin), Hc. reflexivity.
Qed.

Lemma hs_loop_stalls (k : nat) :
  forall (g : nat) (s : Z) (c : SpineMLConnection) (w : world) (q : list read_event),
    CS_HS_GETTINGTARGET <= s <= CS_HS_GETTINGNAME ->
    0 <= noData c -> noData c + Z.of_nat k <= NO_DATA_MAX_COUNT ->
    incoming w = stalls k ++ q ->
    hs_loop (k + g) s c w
    = hs_loop g s (set_noData (noData c + Z.of_nat k) c) (after_stalls k q w).
Proof.
  induction k as [|k IH]; intros g s c w q Hs Hnd Hk Hin.
  - cbn [Nat.add]. simpl in Hin. rewrite <- Hin, after_stalls_none.
    replace (noData c + Z.of_nat 0) with (noData c) by lia.
    rewrite set_noData_same. reflexivity.
  - cbn [Nat.add].
    assert (Hlt : noData c < NO_DATA_MAX_COUNT) by lia.
    rewrite (hs_loop_next _ s s c (incr_noData c) w (after_stalls 1 (stalls k ++ q) w));
      [| unfold CS_HS_GETTINGNAME, CS_HS_DONE in *; lia | exact Hlt
       | apply hs_iter_stall; [exact Hs|exact Hin]].
    rewrite incr_noData_small by lia.
    rewrite (IH g s _ _ q); [| exact Hs | cbn; lia | cbn [noData set_noData]; lia
                             | reflexivity].
    rewrite after_stalls_more. cbn [noData set_noData].
    replace (noData c + 1 + Z.of_nat k) with (noData c + Z.of_nat (S k)) by lia.
    reflexivity.
Qed.

Section SteadyStalls.

Variables (c : SpineMLConnection) (w : world) (q : list read_event).
Hypothesis Hin : incoming w = RdBytes [] :: q.

Lemma doReadFromClient_stall (m : list byte) :
  doublebuf c = Some m -> 1 <= clientDataSize c < 2 ^ 32 ->
  0 <= noData c < NO_DATA_MAX_COUNT ->
  doReadFromClient c w = Tick 0 (set_noData (noData c + 1) c) (after_stalls 1 q w).
Proof.
  intros Hm Hsz Hnd. unfold doReadFromClient. rewrite Hm.
  rewrite to_size_t_small by (unfold sizeof_double; lia).
  rewrite (sock_read_nothing (sizeof_double * clientDataSize c) w q
             ltac:(unfold sizeof_double; lia) Hin).
  change (overwrite m []) with m. rewrite <- Hm, set_doublebuf_same.
  change (to_int 0) with 0. change (0 <? 0) with false. cbv iota.
  change (to_size_t 0) with 0.
  replace (0 =? sizeof_double * clientDataSize c) with false
    by (symmetry; apply Z.eqb_neq; unfold sizeof_double; lia).
  replace (noData c <? NO_DATA_MAX_COUNT) with true
    by (symmetry; apply Z.ltb_lt; lia).
  change (0 =? 0) with true. cbn [andb].
  rewrite incr_noData_small by exact Hnd. reflexivity.
Qed.

Lemma doReadFromClient_stall_at_ceiling (m : list byte) :
  doublebuf c = Some m -> 1 <= clientDataSize c < 2 ^ 32 ->
  noData c = NO_DATA_MAX_COUNT ->
  doReadFromClient c w = Tick 1 c (after_stalls 1 q w).
Proof.
  intros Hm Hsz Hnd. unfold doReadFromClient. rewrite Hm.
  rewrite to_size_t_small by (unfold sizeof_double; lia).
  rewrite (sock_read_nothing (sizeof_double * clientDataSize c) w q
             ltac:(unfold sizeof_double; lia) Hin).
  change (overwrite m []) with m. rewrite <- Hm, set_doublebuf_same.
  change (to_int 0) with 0. change (0 <? 0) with false. cbv iota.
  change (to_size_t 0) with 0.
  replace (0 =? sizeof_double * clientDataSize c) with false
    by (symmetry; apply Z.eqb_neq; unfold sizeof_double; lia).
  rewrite Hnd. reflexivity.
Qed.

Lemma doWriteToClient_stall :
  unacknowledgedDataSent c = true -> 0 <= noData c < NO_DATA_MAX_COUNT ->
  doWriteToClient c w = Tick 0 (set_noData (noData c + 1) c) (after_stalls 1 q w).
Proof.
  intros Hun Hnd.
  rewrite (doWriteToClient_awaiting c w _ _ _ Hun (sock_read_nothing 1 w q ltac:(lia) Hin)).
  change (overwrite (smallbuf c) []) with (smallbuf c). rewrite set_smallbuf_same.
  change (to_int 0 =? 1) with false. change (to_int 0 =? 0) with true. cbv iota.
  replace (noData c <? NO_DATA_MAX_COUNT) with true
    by (symmetry; apply Z.ltb_lt; lia).
  cbn [andb]. rewrite incr_noData_small by exact Hnd. reflexivity.
Qed.

Lemma doWriteToClient_stall_at_ceiling :
  unacknowledgedDataSent c = true -> noData c = NO_DATA_MAX_COUNT ->
  doWriteToClient c w
  = Tick (if errno w =? 0 then 1 else -1) c (after_stalls 1 q w).
Proof.
  intros Hun Hnd.
  rewrite (doWriteToClient_awaiting c w _ _ _ Hun (sock_read_nothing 1 w q ltac:(lia) Hin)).
  change (overwrite (smallbuf c) []) with (smallbuf c). rewrite set_smallbuf_same.
  change (to_int 0 =? 1) with false. change (to_int 0 =? 0) with true. cbv iota.
  rewrite Hnd. change (NO_DATA_MAX_COUNT <? NO_DATA_MAX_COUNT) with false.
  change (NO_DATA_MAX_COUNT =? NO_DATA_MAX_COUNT) with true. cbn [andb].
  change (errno (after_stalls 1 q w)) with (errno w).
  destruct (errno w =? 0); reflexivity.
Qed.

End SteadyStalls.

Lemma read_ticks_stalls (k : nat) :
  forall (j : nat) (c : SpineMLConnection) (w : world) (q : list read_event)
         (m : list byte),
    doublebuf c = Some m -> 1 <= clientDataSize c < 2 ^ 32 ->
    0 <= noData c -> noData c + Z.of_nat k <= NO_DATA_MAX_COUNT ->
    incoming w = stalls k ++ q ->
    read_ticks (k + j) c w
    = read_ticks j (set_noData (noData c + Z.of_nat k) c) (after_stalls k q w).
Proof.
  induction k as [|k IH]; intros j c w q m Hm Hsz Hnd Hk Hin.
  - cbn [Nat.add]. simpl in Hin. rewrite <- Hin, after_stalls_none.
    replace (noData c + Z.of_nat 0) with (noData c) by lia.
    rewrite set_noData_same. reflexivity.
  - cbn [Nat.add read_ticks].
    rewrite (doReadFromClient_stall c w (stalls k ++ q) Hin m Hm Hsz ltac:(lia)).
    change (0 =? 0) with true. cbv iota.
    rewrite (IH j _ _ q m); [| exact Hm | exact Hsz | cbn; lia
                             | cbn [noData set_noData]; lia | reflexivity].
    rewrite after_stalls_more. cbn [noData set_noData].
    replace (noData c + 1 + Z.of_nat k) with (noData c + Z.of_nat (S k)) by lia.
    reflexivity.
Qed.

Lemma write_ticks_stalls (k : nat) :
  forall (j : nat) (c : SpineMLConnection) (w : world) (q : list read_event),
    unacknowledgedDataSent c = true ->
    0 <= noData c -> noData c + Z.of_nat k <= NO_DATA_MAX_COUNT ->
    incoming w = stalls k ++ q ->
    write_ticks (k + j) c w
    = write_ticks j (set_noData (noData c + Z.of_nat k) c) (after_stalls k q w).
Proof.
  induction k as [|k IH]; intros j c w q Hun Hnd Hk Hin.
  - cbn [Nat.add]. simpl in Hin. rewrite <- Hin, after_stalls_none.
    replace (noData c + Z.of_nat 0) with (noData c) by lia.
    rewrite set_noData_same. reflexivity.
  - cbn [Nat.add write_ticks].
    rewrite (doWriteToClient_stall c w (stalls k ++ q) Hin Hun ltac:(lia)).
    change (0 =? 0) with true. cbv iota.
    rewrite (IH j _ _ q); [| exact Hun | cbn; lia
                           | cbn [noData set_noData]; lia | reflexivity].
    rewrite after_stalls_more. cbn [noData set_noData].
    replace (noData c + 1 + Z.of_nat k) with (noData c + Z.of_nat (S k)) by lia.
    reflexivity.
Qed.

(** ** The stall ceiling *)

(** The read of the name bytes is not a read the loop repeats: when it
    finds nothing of a name announced with a positive length, the pass
    returns -1. *)
Lemma hs_iter_name_missing (c : SpineMLConnection) (w : world) (q : list read_event)
      (l0 l1 l2 l3 : byte) :
  0 < le_value [l0; l1; l2; l3] <= 1024 ->
  incoming w = RdBytes [l0; l1; l2; l3] :: RdBytes [] :: q ->
  exists w',
    hs_iter CS_HS_GETTINGNAME c w
    = HsReturn (-1)
        (set_failed true (set_smallbuf (overwrite (smallbuf c) [l0; l1; l2; l3]) c))
        w'
    /\ incoming w' = q /\ sent w' = sent w.
Proof.
  intros Hlen Hin.
  change (hs_iter CS_HS_GETTINGNAME c w)
    with (hs_getting_name CS_HS_GETTINGNAME c w).
  unfold hs_getting_name, read_smallbuf.
  rewrite (sock_read_exact 4 w [l0; l1; l2; l3] _ Hin eq_refl).
  change (4 =? 4) with true. cbv iota.
  rewrite smallbuf_word_read, to_int_small by (unfold INT_MAX; lia).
  replace (1024 <? le_value [l0; l1; l2; l3]) with false
    by (symmetry; apply Z.ltb_ge; lia).
  replace (1 + le_value [l0; l1; l2; l3] <? 0) with false
    by (symmetry; apply Z.ltb_ge; lia).
  rewrite to_size_t_small by lia.
  erewrite (sock_read_nothing _ _ q); [| lia | reflexivity].
  replace (0 =? le_value [l0; l1; l2; l3]) with false
    by (symmetry; apply Z.eqb_neq; lia).
  cbn [negb]. unfold hs_fail.
  eexists. split; [reflexivity|]. split; [reflexivity|].
  unfold sent. cbn [trace after_stalls log_event set_incoming repeat].
  rewrite !sent_of_app. cbn [sent_of]. rewrite !app_nil_r. reflexivity.
Qed.

(** C4 (as amended).  The ceiling is [NO_DATA_MAX_COUNT] = 100; the count
    of reads without data starts from 0.
    - In each of the four stages of the handshake, at the read that
      awaits the field of the stage (the direction byte, the type byte,
      the four bytes of the size, the four bytes of the name length), 99
      reads in a row that find nothing leave the handshake at that stage,
      waiting, with the count at 99; the 100th ends it with -1 and
      [failed] set.
    - The read of the name bytes, which follows the name length in stage
      4, is outside the ceiling: when the length announced is positive a
      single read that finds nothing ends the handshake with -1 and
      [failed] set, whatever the count.
    - On the steady-state read path, up to 100 ticks in a row whose read
      finds nothing all return 0, the count then stands at 100; it is the
      101st that returns 1 (finished).
    - While an acknowledgement is awaited on the write path, the same: 100
      such ticks return 0 and the 101st ends the wait, with 1 (finished)
      if [errno] is 0 and with -1 otherwise. *)
Theorem stall_ceiling :
  (forall (s : Z) (c : SpineMLConnection) (w : world) (q : list read_event),
      CS_HS_GETTINGTARGET <= s <= CS_HS_GETTINGNAME -> noData c = 0 ->
      (incoming w = stalls 99 ++ q ->
       handshake_from s c w
       = handshake_from s (set_noData 99 c) (after_stalls 99 q w))
      /\ (incoming w = stalls 100 ++ q ->
          handshake_from s c w
          = Some (-1, set_failed true (set_noData 100 c), after_stalls 100 q w)))
  /\ (forall (c : SpineMLConnection) (w : world) (q : list read_event) (m : list byte),
      doublebuf c = Some m -> 1 <= clientDataSize c < 2 ^ 32 -> noData c = 0 ->
      (forall k : nat, (k <= 100)%nat -> incoming w = stalls k ++ q ->
         read_ticks k c w = Tick 0 (set_noData (Z.of_nat k) c) (after_stalls k q w))
      /\ (incoming w = stalls 101 ++ q ->
          read_ticks 101 c w = Tick 1 (set_noData 100 c) (after_stalls 101 q w)))
  /\ (forall (c : SpineMLConnection) (w : world) (q : list read_event),
      unacknowledgedDataSent c = true -> noData c = 0 ->
      (forall k : nat, (k <= 100)%nat -> incoming w = stalls k ++ q ->
         write_ticks k c w = Tick 0 (set_noData (Z.of_nat k) c) (after_stalls k q w))
      /\ (incoming w = stalls 101 ++ q ->
          write_ticks 101 c w
          = Tick (if errno w =? 0 then 1 else -1)
                 (set_noData 100 c) (after_stalls 101 q w)))
  /\ (forall (c : SpineMLConnection) (w : world) (q : list read_event)
             (l0 l1 l2 l3 : byte),
      0 <= noData c < NO_DATA_MAX_COUNT ->
      0 < le_value [l0; l1; l2; l3] <= 1024 ->
      incoming w = RdBytes [l0; l1; l2; l3] :: RdBytes [] :: q ->
      exists c' w',
        handshake_from CS_HS_GETTINGNAME c w = Some (-1, c', w')
        /\ failed c' = true /\ established c' = established c
        /\ noData c' = noData c /\ incoming w' = q /\ sent w' = sent w).
Proof.
  split; [|split; [|split]].
  - intros s c w q Hs Hnd. unfold handshake_from. rewrite Hnd. split; intros Hin.
    + assert (Hb : hs_bound s 0 = (99 + hs_bound s 99)%nat).
      { unfold hs_bound, CS_HS_GETTINGTARGET, CS_HS_GETTINGNAME, NO_DATA_MAX_COUNT in *.
        lia. }
      rewrite Hb.
      rewrite (hs_loop_stalls 99 _ s c w q Hs); [| rewrite Hnd; lia | rewrite Hnd; unfold NO_DATA_MAX_COUNT; lia | exact Hin].
      rewrite Hnd. reflexivity.
    + assert (Hb : hs_bound s 0 = (100 + (hs_bound s 0 - 100))%nat).
      { unfold hs_bound, CS_HS_GETTINGTARGET, CS_HS_GETTINGNAME, NO_DATA_MAX_COUNT in *.
        lia. }
      rewrite Hb.
      rewrite (hs_loop_stalls 100 _ s c w q Hs); [| rewrite Hnd; lia | rewrite Hnd; unfold NO_DATA_MAX_COUNT; lia | exact Hin].
      rewrite Hnd. rewrite hs_loop_ceiling by (cbn; unfold NO_DATA_MAX_COUNT; lia).
      reflexivity.
  - intros c w q m Hm Hsz Hnd. split.
    + intros k Hk Hin.
      rewrite <- (Nat.add_0_r k) at 1.
      rewrite (read_ticks_stalls k 0 c w q m Hm Hsz);
        [| rewrite Hnd; lia | rewrite Hnd; unfold NO_DATA_MAX_COUNT; lia | exact Hin].
      rewrite Hnd. reflexivity.
    + intros Hin. rewrite stalls_snoc in Hin.
      change 101%nat with (100 + 1)%nat.
      rewrite (read_ticks_stalls 100 1 c w (RdBytes [] :: q) m Hm Hsz);
        [| rewrite Hnd; lia | rewrite Hnd; unfold NO_DATA_MAX_COUNT; lia | exact Hin].
      rewrite Hnd. cbn [read_ticks].
      erewrite (doReadFromClient_stall_at_ceiling _ _ q);
        [| reflexivity | exact Hm | exact Hsz | reflexivity].
      rewrite after_stalls_after. reflexivity.
  - intros c w q Hun Hnd. split.
    + intros k Hk Hin.
      rewrite <- (Nat.add_0_r k) at 1.
      rewrite (write_ticks_stalls k 0 c w q Hun);
        [| rewrite Hnd; lia | rewrite Hnd; unfold NO_DATA_MAX_COUNT; lia | exact Hin].
      rewrite Hnd. reflexivity.
    + intros Hin. rewrite stalls_snoc in Hin.
      change 101%nat with (100 + 1)%nat.
      rewrite (write_ticks_stalls 100 1 c w (RdBytes [] :: q) Hun);
        [| rewrite Hnd; lia | rewrite Hnd; unfold NO_DATA_MAX_COUNT; lia | exact Hin].
      rewrite Hnd. cbn [write_ticks].
      erewrite (doWriteToClient_stall_at_ceiling _ _ q);
        [| reflexivity | exact Hun | reflexivity].
      rewrite after_stalls_after.
      change (errno (after_stalls 100 (RdBytes [] :: q) w)) with (errno w).
      destruct (errno w =? 0); reflexivity.
  - intros c w q l0 l1 l2 l3 Hnd Hlen Hin.
    destruct (hs_iter_name_missing c w q l0 l1 l2 l3 Hlen Hin)
      as (w' & Hit & Hin' & Hsent).
    unfold handshake_from.
    destruct (hs_bound CS_HS_GETTINGNAME (noData c)) as [|g] eqn:Hb;
      [unfold hs_bound, CS_HS_GETTINGNAME, NO_DATA_MAX_COUNT in *; lia|].
    assert (Hstage : CS_HS_GETTINGNAME <> CS_HS_DONE) by discriminate.
    rewrite (hs_loop_return g _ _ _ _ _ _ Hstage (proj2 Hnd) Hit).
    eexists _, w'. split; [reflexivity|].
    repeat (split; [reflexivity|]). split; [exact Hin' | exact Hsent].
Qed.

Lemma stall_ceiling_witness :
  (exists c' w',
      doHandshake new_SpineMLConnection (scripted (stalls 99 ++ valid_handshake) [])
        = Some (0, c', w')
      /\ established c' = true /\ failed c' = false)
  /\ (exists c' w',
      doHandshake new_SpineMLConnection (scripted (stalls 100 ++ valid_handshake) [])
        = Some (-1, c', w')
      /\ established c' = false /\ failed c' = true)
  /\ (exists c' w',
      read_ticks 100 (established_conn AM_SOURCE 1 []) (scripted (stalls 101) [])
        = Tick 0 c' w' /\ noData c' = 100)
  /\ (exists c' w',
      read_ticks 101 (established_conn AM_SOURCE 1 []) (scripted (stalls 101) [])
        = Tick 1 c' w')
  /\ (exists c' w',
      write_ticks 101 (set_unacknowledgedDataSent true (established_conn AM_TARGET 1 []))
                      (scripted (stalls 101) [])
        = Tick 1 c' w')
  /\ (exists c' w',
      handshake_from CS_HS_GETTINGNAME new_SpineMLConnection
        (scripted [RdBytes [x04; x00; x00; x00]; RdBytes [];
                   RdBytes [x74; x65; x73; x74]] [])
      = Some (-1, c', w')
      /\ failed c' = true /\ incoming w' = [RdBytes [x74; x65; x73; x74]]).
Proof.
  destruct stall_ceiling as (Hhs & Hrd & Hwr & Hname).
  assert (Hstage : CS_HS_GETTINGTARGET <= CS_HS_GETTINGTARGET <= CS_HS_GETTINGNAME)
    by concrete.
  assert (Hsz : 1 <= clientDataSize (established_conn AM_SOURCE 1 []) < 2 ^ 32)
    by concrete.
  split; [|split; [|split; [|split; [|split]]]].
  - destruct (Hhs CS_HS_GETTINGTARGET (set_noData 0 new_SpineMLConnection)
                (scripted (stalls 99 ++ valid_handshake) []) valid_handshake
                Hstage eq_refl) as [H99 _].
    specialize (H99 eq_refl).
    assert (Hrest : handshake_from CS_HS_GETTINGTARGET
                      (set_noData 99 (set_noData 0 new_SpineMLConnection))
                      (after_stalls 99 valid_handshake
                         (scripted (stalls 99 ++ valid_handshake) []))
                    = Some (0, ?[c'], ?[w'])) by (vm_compute; reflexivity).
    eexists _, _. unfold doHandshake. rewrite H99.
    split; [exact Hrest|]. split; reflexivity.
  - destruct (Hhs CS_HS_GETTINGTARGET (set_noData 0 new_SpineMLConnection)
                (scripted (stalls 100 ++ valid_handshake) []) valid_handshake
                Hstage eq_refl) as [_ H100].
    specialize (H100 eq_refl).
    eexists _, _. unfold doHandshake. rewrite H100.
    split; [reflexivity|]. split; reflexivity.
  - destruct (Hrd (established_conn AM_SOURCE 1 []) (scripted (stalls 101) [])
                [RdBytes []] (new_doubles 1) eq_refl Hsz eq_refl) as [Hk _].
    eexists _, _. split; [exact (Hk 100%nat (Nat.le_refl _) eq_refl)|]. reflexivity.
  - destruct (Hrd (established_conn AM_SOURCE 1 []) (scripted (stalls 101) [])
                [] (new_doubles 1) eq_refl Hsz eq_refl) as [_ H101].
    eexists _, _. exact (H101 eq_refl).
  - destruct (Hwr (set_unacknowledgedDataSent true (established_conn AM_TARGET 1 []))
                (scripted (stalls 101) []) [] eq_refl eq_refl) as [_ H101].
    eexists _, _. exact (H101 eq_refl).
  - assert (Hnd : 0 <= noData new_SpineMLConnection < NO_DATA_MAX_COUNT) by concrete.
    assert (Hlen : 0 < le_value [x04; x00; x00; x00] <= 1024) by concrete.
    destruct (Hname new_SpineMLConnection
                (scripted [RdBytes [x04; x00; x00; x00]; RdBytes [];
                           RdBytes [x74; x65; x73; x74]] [])
                [RdBytes [x74; x65; x73; x74]] x04 x00 x00 x00 Hnd Hlen eq_refl)
      as (c' & w' & Hrun & Hf & _ & _ & Hin & _).
    exists c', w'. split; [exact Hrun|]. split; [exact Hf | exact Hin].
Defined.

(** C4 as stated fails in the steady state: the 100th read in a row that
    finds nothing does not end the session.  After 100 such ticks, on the
    read path as in the wait for an acknowledgement, every tick has
    returned 0 and the count stands at 100; it is the next tick that
    returns 1. *)
Lemma steady_state_hundredth_stall_continues :
  (exists c' w',
      read_ticks 100 (established_conn AM_SOURCE 1 []) (scripted (stalls 101) [])
        = Tick 0 c' w'
      /\ noData c' = NO_DATA_MAX_COUNT
      /\ exists w'', doReadFromClient c' w' = Tick 1 c' w'')
  /\ (exists c' w',
      write_ticks 100 (set_unacknowledgedDataSent true (established_conn AM_TARGET 1 []))
                      (scripted (stalls 101) [])
        = Tick 0 c' w'
      /\ noData c' = NO_DATA_MAX_COUNT
      /\ exists w'', doWriteToClient c' w' = Tick 1 c' w'').
Proof.
  split.
  - eexists _, _. split; [vm_compute; reflexivity|]. split; [reflexivity|].
    eexists. vm_compute. reflexivity.
  - eexists _, _. split; [vm_compute; reflexivity|]. split; [reflexivity|].
    eexists. vm_compute. reflexivity.
Qed.

(** ** Deviations the handshake rejects *)

Lemma sock_read_whole (count : Z) (w : world) (bs : list byte) (q : list read_event) :
  incoming w = RdBytes bs :: q -> Z.of_nat (length bs) <= count ->
  sock_read count w
  = (Z.of_nat (length bs), bs, log_event (EvRecv bs) (set_incoming q w)).
Proof.
  intros Hin Hlen. unfold sock_read. rewrite Hin.
  replace (Z.to_nat (Z.min count (Z.of_nat (length bs)))) with (length bs) by lia.
  rewrite firstn_all, skipn_all. reflexivity.
Qed.

(** A pass that returns reports failure. *)
Lemma hs_iter_return_fails (s rc : Z) (c c' : SpineMLConnection) (w w' : world) :
  hs_iter s c w = HsReturn rc c' w' ->
  rc = -1 /\ failed c' = true /\ established c' = established c.
Proof.
  intros Hit. pose proof (hs_iter_inv s c w) as Hinv. rewrite Hit in Hinv.
  destruct Hinv as (Hrc & Hf & He & _). auto.
Qed.

(** The deviations of a client that the code does reject, stage by stage:
    a first byte that is no direction sentinel; a second byte that is not
    the analog-numbers sentinel; one to three bytes where four are read; a
    name length above 1024 that fits an [int]; fewer name bytes (but some)
    than announced.  Each makes the pass return -1 with [failed] set and
    [established] untouched. *)
Lemma hs_iter_rejects (c : SpineMLConnection) (w : world) (q : list read_event) :
  (forall b : byte,
      incoming w = RdBytes [b] :: q ->
      char_val b <> AM_SOURCE -> char_val b <> AM_TARGET ->
      exists c' w', hs_iter CS_HS_GETTINGTARGET c w = HsReturn (-1) c' w'
                    /\ failed c' = true /\ established c' = established c)
  /\ (forall b : byte,
      incoming w = RdBytes [b] :: q ->
      char_val b <> RESP_DATA_NUMS ->
      exists c' w', hs_iter CS_HS_GETTINGDATATYPE c w = HsReturn (-1) c' w'
                    /\ failed c' = true /\ established c' = established c)
  /\ (forall (s : Z) (bs : list byte),
      s = CS_HS_GETTINGDATASIZE \/ s = CS_HS_GETTINGNAME ->
      incoming w = RdBytes bs :: q ->
      (0 < length bs < 4)%nat ->
      exists c' w', hs_iter s c w = HsReturn (-1) c' w'
                    /\ failed c' = true /\ established c' = established c)
  /\ (forall l0 l1 l2 l3 : byte,
      incoming w = RdBytes [l0; l1; l2; l3] :: q ->
      1024 < le_value [l0; l1; l2; l3] <= INT_MAX ->
      exists c' w', hs_iter CS_HS_GETTINGNAME c w = HsReturn (-1) c' w'
                    /\ failed c' = true /\ established c' = established c)
  /\ (forall (l0 l1 l2 l3 : byte) (name : list byte) (q' : list read_event),
      incoming w = RdBytes [l0; l1; l2; l3] :: RdBytes name :: q' ->
      le_value [l0; l1; l2; l3] <= 1024 ->
      0 < Z.of_nat (length name) < le_value [l0; l1; l2; l3] ->
      exists c' w', hs_iter CS_HS_GETTINGNAME c w = HsReturn (-1) c' w'
                    /\ failed c' = true /\ established c' = established c).
Proof.
  assert (Hfin : forall s r,
            (exists c' w', r = HsReturn (-1) c' w') -> hs_iter s c w = r ->
            exists c' w', hs_iter s c w = HsReturn (-1) c' w'
                          /\ failed c' = true /\ established c' = established c).
  { intros s r (c' & w' & ->) Hit. exists c', w'. split; [exact Hit|].
    destruct (hs_iter_return_fails _ _ _ _ _ _ Hit) as (_ & Hf & He). auto. }
  split; [|split; [|split; [|split]]].
  - intros b Hin Hs Ht. eapply Hfin; [|reflexivity].
    change (hs_iter CS_HS_GETTINGTARGET c w)
      with (hs_getting_target CS_HS_GETTINGTARGET c w).
    unfold hs_getting_target, read_smallbuf.
    rewrite (sock_read_exact 1 w [b] q Hin eq_refl).
    change (1 =? 1) with true. cbv iota.
    change (smallbuf_at 0 (set_smallbuf (overwrite (smallbuf c) [b]) c)) with b.
    destruct (Z.eqb_spec (char_val b) AM_SOURCE); [contradiction|].
    destruct (Z.eqb_spec (char_val b) AM_TARGET); [contradiction|].
    eexists _, _. reflexivity.
  - intros b Hin Hn. eapply Hfin; [|reflexivity].
    change (hs_iter CS_HS_GETTINGDATATYPE c w)
      with (hs_getting_datatype CS_HS_GETTINGDATATYPE c w).
    unfold hs_getting_datatype, read_smallbuf.
    rewrite (sock_read_exact 1 w [b] q Hin eq_refl).
    change (1 =? 1) with true. cbv iota.
    change (smallbuf_at 0 (set_smallbuf (overwrite (smallbuf c) [b]) c)) with b.
    destruct (Z.eqb_spec (char_val b) RESP_DATA_NUMS); [contradiction|].
    destruct ((char_val b =? RESP_DATA_SPIKES) || (char_val b =? RESP_DATA_IMPULSES));
      eexists _, _; reflexivity.
  - intros s bs Hs Hin Hlen. eapply Hfin; [|reflexivity].
    destruct Hs as [->| ->].
    + change (hs_iter CS_HS_GETTINGDATASIZE c w)
        with (hs_getting_datasize CS_HS_GETTINGDATASIZE c w).
      unfold hs_getting_datasize, read_smallbuf.
      rewrite (sock_read_whole 4 w bs q Hin ltac:(lia)).
      replace (Z.of_nat (length bs) =? 4) with false by (symmetry; apply Z.eqb_neq; lia).
      replace (0 <? Z.of_nat (length bs)) with true by (symmetry; apply Z.ltb_lt; lia).
      eexists _, _. reflexivity.
    + change (hs_iter CS_HS_GETTINGNAME c w)
        with (hs_getting_name CS_HS_GETTINGNAME c w).
      unfold hs_getting_name, read_smallbuf.
      rewrite (sock_read_whole 4 w bs q Hin ltac:(lia)).
      replace (Z.of_nat (length bs) =? 4) with false by (symmetry; apply Z.eqb_neq; lia).
      replace (0 <? Z.of_nat (length bs)) with true by (symmetry; apply Z.ltb_lt; lia).
      eexists _, _. reflexivity.
  - intros l0 l1 l2 l3 Hin Hbig. eapply Hfin; [|reflexivity].
    change (hs_iter CS_HS_GETTINGNAME c w)
      with (hs_getting_name CS_HS_GETTINGNAME c w).
    unfold hs_getting_name, read_smallbuf.
    rewrite (sock_read_exact 4 w [l0; l1; l2; l3] q Hin eq_refl).
    change (4 =? 4) with true. cbv iota.
    rewrite smallbuf_word_read, to_int_small by lia.
    replace (1024 <? le_value [l0; l1; l2; l3]) with true
      by (symmetry; apply Z.ltb_lt; lia).
    eexists _, _. reflexivity.
  - intros l0 l1 l2 l3 name q' Hin Hmax Hshort. eapply Hfin; [|reflexivity].
    change (hs_iter CS_HS_GETTINGNAME c w)
      with (hs_getting_name CS_HS_GETTINGNAME c w).
    unfold hs_getting_name, read_smallbuf.
    rewrite (sock_read_exact 4 w [l0; l1; l2; l3] _ Hin eq_refl).
    change (4 =? 4) with true. cbv iota.
    rewrite smallbuf_word_read, to_int_small by (unfold INT_MAX; lia).
    replace (1024 <? le_value [l0; l1; l2; l3]) with false
      by (symmetry; apply Z.ltb_ge; exact Hmax).
    replace (1 + le_value [l0; l1; l2; l3] <? 0) with false
      by (symmetry; apply Z.ltb_ge; lia).
    rewrite to_size_t_small by lia.
    erewrite (sock_read_whole _ _ name q'); [| reflexivity | lia].
    replace (Z.of_nat (length name) =? le_value [l0; l1; l2; l3]) with false
      by (symmetry; apply Z.eqb_neq; lia).
    eexists _, _. reflexivity.
Qed.

(** ** doInputOutput *)

(** How [doInputOutput] turns the value of the tick it makes into flags: -1
    sets [failed] and [finished], 1 sets [finished], 0 sets nothing. *)
Lemma doInputOutput_flags (c c1 : SpineMLConnection) (w w1 : world) (drc : Z) :
  established c = true ->
  (clientDataDirection c = AM_TARGET /\ doWriteToClient c w = Tick drc c1 w1)
  \/ (clientDataDirection c = AM_SOURCE /\ doReadFromClient c w = Tick drc c1 w1) ->
  doInputOutput c w =
    if drc =? -1 then Tick (-1) (set_finished true (set_failed true c1)) w1
    else if drc =? 1 then Tick 1 (set_finished true c1) w1
    else Tick 0 c1 w1.
Proof.
  intros He Hdir. unfold doInputOutput. rewrite He. cbn [negb].
  destruct Hdir as [[Hd Hrun]|[Hd Hrun]]; rewrite Hd, Hrun; reflexivity.
Qed.

(** A connection that is not established makes no tick at all. *)
Lemma doInputOutput_not_established (c : SpineMLConnection) (w : world) :
  established c = false -> doInputOutput c w = Tick 0 c w.
Proof. intros He. unfold doInputOutput. rewrite He. reflexivity. Qed.

(** * Further properties *)

(** ** What a tick leaves alone *)

(** The socket, the three status flags and the negotiated parameters. *)
Lemma same_parameters_refl (c : SpineMLConnection) : same_parameters c c.
Proof. unfold same_parameters. repeat split; reflexivity. Qed.

Lemma same_parameters_trans (c1 c2 c3 : SpineMLConnection) :
  same_parameters c1 c2 -> same_parameters c2 c3 -> same_parameters c1 c3.
Proof.
  unfold same_parameters.
  intros (H1 & H2 & H3 & H4 & H5 & H6) (G1 & G2 & G3 & G4 & G5 & G6).
  repeat split; congruence.
Qed.

Ltac frame_refl := unfold same_parameters; repeat split; reflexivity.

Lemma push_loop_frame (n : nat) :
  forall (p : list byte) (c c' : SpineMLConnection),
    push_loop n p c = Some c' ->
    same_parameters c c' /\ failed c' = failed c /\ finished c' = finished c
    /\ unacknowledgedDataSent c' = unacknowledgedDataSent c
    /\ noData c' = noData c /\ doublebuf c' = doublebuf c.
Proof.
  induction n as [|n IH]; intros p c c' H; cbn [push_loop] in H.
  - inversion H; subst. split; [frame_refl|]. repeat split; reflexivity.
  - unfold push_back in H. destruct (data c) as [d|]; [|discriminate].
    apply IH in H. destruct H as (Hp & Hf & Hfi & Hu & Hn & Hb).
    split; [exact Hp|]. repeat split; assumption.
Qed.

Lemma drain_loop_frame (n : nat) :
  forall (i : nat) (c c' : SpineMLConnection),
    drain_loop n i c = Some c' ->
    same_parameters c c' /\ failed c' = failed c /\ finished c' = finished c.
Proof.
  induction n as [|n IH]; intros i c c' H; cbn [drain_loop] in H.
  - inversion H; subst. split; [frame_refl|]. split; reflexivity.
  - destruct (data c) as [[|v d']|]; try discriminate.
    destruct (doublebuf c) as [m|]; try discriminate.
    apply IH in H. exact H.
Qed.

Lemma send_recvd_frame (c c' : SpineMLConnection) (w w' : world) (rc : Z) :
  send_recvd c w = Tick rc c' w' ->
  same_parameters c c' /\ failed c' = failed c /\ finished c' = finished c
  /\ tick_code rc.
Proof.
  unfold send_recvd, tick_code. destruct (write_smallbuf1 _ w) as [n w1].
  destruct (negb _); [destruct (_ =? ECONNRESET)|];
    intros H; inversion H; subst; clear H;
    (split; [frame_refl|]); repeat split; auto.
Qed.

Lemma doReadFromClient_frame (c c' : SpineMLConnection) (w w' : world) (rc : Z) :
  doReadFromClient c w = Tick rc c' w' ->
  same_parameters c c' /\ failed c' = failed c /\ finished c' = finished c
  /\ tick_code rc.
Proof.
  unfold doReadFromClient.
  destruct (doublebuf c) as [m|]; [|discriminate].
  destruct (sock_read _ w) as [[r bs] w1].
  destruct (to_int r <? 0).
  { intros H; inversion H; subst; clear H. unfold tick_code.
    split; [frame_refl|]. repeat split; auto. }
  destruct (to_size_t (to_int r) =? _).
  - destruct (push_loop _ _ _) as [c2|] eqn:Hpush; [|discriminate].
    apply push_loop_frame in Hpush. destruct Hpush as (Hp & Hf & Hfi & _).
    intros Hs. apply send_recvd_frame in Hs. destruct Hs as (Hp' & Hf' & Hfi' & Hrc).
    unfold same_parameters in *. cbn in Hp, Hf, Hfi, Hp', Hf', Hfi'.
    destruct Hp as (H1 & H2 & H3 & H4 & H5 & H6).
    destruct Hp' as (G1 & G2 & G3 & G4 & G5 & G6).
    repeat split; congruence.
  - destruct ((to_int r =? 0) && (noData _ <? NO_DATA_MAX_COUNT)).
    { intros H; inversion H; subst; clear H. unfold tick_code.
      split; [frame_refl|]. repeat split; auto. }
    destruct ((to_int r =? 0) && (noData _ =? NO_DATA_MAX_COUNT)).
    { intros H; inversion H; subst; clear H. unfold tick_code.
      split; [frame_refl|]. repeat split; auto. }
    intros Hs. apply send_recvd_frame in Hs. exact Hs.
Qed.

Lemma write_batch_frame (c c' : SpineMLConnection) (w w' : world) (rc : Z) :
  write_batch c w = Tick rc c' w' ->
  same_parameters c c' /\ failed c' = failed c /\ finished c' = finished c
  /\ tick_code rc.
Proof.
  unfold write_batch, tick_code.
  destruct (data c) as [d|]; [|discriminate].
  destruct (clientDataSize c <=? Z.of_nat (length d)).
  - destruct (drain_loop _ 0 c) as [c1|] eqn:Hdrain; [|discriminate].
    apply drain_loop_frame in Hdrain. destruct Hdrain as (Hp & Hf & Hfi).
    destruct (doublebuf c1) as [m|]; [|discriminate].
    destruct (sock_write _ w) as [bw w1].
    destruct (negb _); intros H; inversion H; subst; clear H;
      (split; [exact Hp|]); repeat split; auto.
  - destruct (NO_DATA_MAX_COUNT <=? noData c); intros H; inversion H; subst; clear H;
      (split; [frame_refl|]); repeat split; auto.
Qed.

Lemma doWriteToClient_frame (c c' : SpineMLConnection) (w w' : world) (rc : Z) :
  doWriteToClient c w = Tick rc c' w' ->
  same_parameters c c' /\ failed c' = failed c /\ finished c' = finished c
  /\ tick_code rc.
Proof.
  unfold doWriteToClient.
  destruct (unacknowledgedDataSent c); [|apply write_batch_frame].
  unfold read_smallbuf. destruct (sock_read 1 w) as [[r bs] w1].
  destruct (to_int r =? 1).
  - destruct (negb _).
    + intros H; inversion H; subst; clear H. unfold tick_code.
      split; [frame_refl|]. repeat split; auto.
    + intros H. apply write_batch_frame in H. exact H.
  - unfold tick_code.
    destruct ((to_int r =? 0) && (noData _ <? NO_DATA_MAX_COUNT));
      [|destruct ((to_int r =? 0) && (noData _ =? NO_DATA_MAX_COUNT));
        [destruct (errno w1 =? 0)|destruct (errno w1 =? ECONNRESET)]];
      intros H; inversion H; subst; clear H;
      (split; [frame_refl|]); repeat split; auto.
Qed.

(** One call of [doInputOutput]: the value it returns and the flags. *)
Lemma doInputOutput_tick (c c' : SpineMLConnection) (w w' : world) (rc : Z) :
  doInputOutput c w = Tick rc c' w' ->
  same_parameters c c'
  /\ ((rc = 0 /\ failed c' = failed c /\ finished c' = finished c)
      \/ (rc = 1 /\ failed c' = failed c /\ finished c' = true)
      \/ (rc = -1 /\ failed c' = true /\ finished c' = true)).
Proof.
  assert (Hflags : forall drc c1 w1,
            same_parameters c c1 /\ failed c1 = failed c /\ finished c1 = finished c
            /\ tick_code drc ->
            (if drc =? -1 then Tick (-1) (set_finished true (set_failed true c1)) w1
             else if drc =? 1 then Tick 1 (set_finished true c1) w1
             else Tick 0 c1 w1) = Tick rc c' w' ->
            same_parameters c c'
            /\ ((rc = 0 /\ failed c' = failed c /\ finished c' = finished c)
                \/ (rc = 1 /\ failed c' = failed c /\ finished c' = true)
                \/ (rc = -1 /\ failed c' = true /\ finished c' = true))).
  { intros drc c1 w1 (Hp & Hf & Hfi & Hrc).
    destruct Hrc as [-> | [-> | ->]]; cbn [Z.eqb]; intros H; inversion H; subst; clear H;
      (split; [exact Hp|]); auto. }
  unfold doInputOutput.
  destruct (negb (established c)).
  { intros H; inversion H; subst; clear H.
    split; [frame_refl|]. left. auto. }
  destruct (clientDataDirection c =? AM_TARGET).
  { destruct (doWriteToClient c w) as [drc c1 w1|] eqn:Hrun; [|discriminate].
    apply Hflags. apply doWriteToClient_frame in Hrun. exact Hrun. }
  destruct (clientDataDirection c =? AM_SOURCE).
  { destruct (doReadFromClient c w) as [drc c1 w1|] eqn:Hrun; [|discriminate].
    apply Hflags. apply doReadFromClient_frame in Hrun. exact Hrun. }
  intros H; inversion H; subst; clear H.
  split; [frame_refl|]. left. auto.
Qed.

(** X1.  Over any run of calls of [doInputOutput], each made only if the
    one before returned 0: the socket, the flag [established] and the
    negotiated name, direction, type and size are those of the start; a
    flag [failed] or [finished] that was set stays set; and the value the
    run ends with tells the flags: 0 leaves both as they were, 1 sets
    [finished] only, -1 sets both. *)
Theorem io_ticks_flags_and_parameters (k : nat) :
  forall (c c' : SpineMLConnection) (w w' : world) (rc : Z),
    io_ticks k c w = Tick rc c' w' ->
    same_parameters c c'
    /\ (failed c = true -> failed c' = true)
    /\ (finished c = true -> finished c' = true)
    /\ ((rc = 0 /\ failed c' = failed c /\ finished c' = finished c)
        \/ (rc = 1 /\ failed c' = failed c /\ finished c' = true)
        \/ (rc = -1 /\ failed c' = true /\ finished c' = true)).
Proof.
  induction k as [|k IH]; intros c c' w w' rc H; cbn [io_ticks] in H.
  - inversion H; subst; clear H. split; [frame_refl|]. auto 6.
  - destruct (doInputOutput c w) as [rc1 c1 w1|] eqn:Htick; [|discriminate].
    apply doInputOutput_tick in Htick. destruct Htick as (Hp & Hcases).
    destruct (rc1 =? 0) eqn:Hz.
    + apply Z.eqb_eq in Hz. subst rc1.
      destruct Hcases as [(_ & Hf & Hfi) | [(Hrc & _) | (Hrc & _)]]; try discriminate.
      apply IH in H. destruct H as (Hp' & _ & _ & Hlast).
      split; [exact (same_parameters_trans _ _ _ Hp Hp')|].
      rewrite <- Hf, <- Hfi.
      destruct Hlast as [(-> & Hf' & Hfi') | [(-> & Hf' & Hfi') | (-> & Hf' & Hfi')]];
        repeat split; try congruence; auto 6.
    + inversion H; subst; clear H. split; [exact Hp|].
      destruct Hcases as [(-> & Hf & Hfi) | [(-> & Hf & Hfi) | (-> & Hf & Hfi)]];
        repeat split; try congruence; auto 6.
Qed.

Lemma io_ticks_flags_and_parameters_witness :
  exists c' w',
    io_ticks 3 (established_conn AM_SOURCE 1 [])
             (scripted [RdBytes (bytes_of_doubles [5]); RdBytes []; RdErr 104] [])
      = Tick (-1) c' w'
    /\ same_parameters (established_conn AM_SOURCE 1 []) c'
    /\ failed c' = true /\ finished c' = true.
Proof.
  eexists _, _.
  assert (Hrun : io_ticks 3 (established_conn AM_SOURCE 1 [])
                   (scripted [RdBytes (bytes_of_doubles [5]); RdBytes []; RdErr 104] [])
                 = Tick (-1) ?[c'] ?[w']) by (vm_compute; reflexivity).
  split; [exact Hrun|].
  destruct (io_ticks_flags_and_parameters _ _ _ _ _ _ Hrun)
    as (Hp & _ & _ & [(Hrc & _) | [(Hrc & _) | (_ & Hf & Hfi)]]);
    [discriminate Hrc | discriminate Hrc |].
  split; [exact Hp|]. split; [exact Hf | exact Hfi].
Defined.

(** ** closeSocket *)

(** X2.  [closeSocket] clears [established] whatever [close] returned, and
    zeroes the socket only if [close] returned 0; the flags [failed] and
    [finished] and the deque are untouched.  On the closed connection
    [doInputOutput] returns 0 without a transfer, however often it is
    called, [addNum] and [addData] drop their values, and [getDataSize]
    and [popFront] still answer from the deque. *)
Theorem closeSocket_stops_traffic (close_rc : Z) (c : SpineMLConnection) (w : world) :
  established (closeSocket close_rc c) = false
  /\ connectingSocket (closeSocket close_rc c)
     = (if close_rc =? 0 then 0 else connectingSocket c)
  /\ failed (closeSocket close_rc c) = failed c
  /\ finished (closeSocket close_rc c) = finished c
  /\ data (closeSocket close_rc c) = data c
  /\ (forall k, io_ticks k (closeSocket close_rc c) w = Tick 0 (closeSocket close_rc c) w)
  /\ (forall v, addNum v (closeSocket close_rc c) = Returns tt (closeSocket close_rc c))
  /\ (forall ds n,
         addData ds n (closeSocket close_rc c) = Returns tt (closeSocket close_rc c))
  /\ (forall d, data c = Some d ->
                getDataSize (closeSocket close_rc c)
                = Returns (Z.of_nat (length d)) (closeSocket close_rc c))
  /\ (forall x d, data c = Some (x :: d) ->
                  popFront (closeSocket close_rc c)
                  = Returns x (set_data (Some d) (closeSocket close_rc c))).
Proof.
  assert (Hest : established (closeSocket close_rc c) = false).
  { unfold closeSocket. destruct (negb _); reflexivity. }
  assert (Hdata : data (closeSocket close_rc c) = data c).
  { unfold closeSocket. destruct (negb _); reflexivity. }
  split; [exact Hest|].
  split; [unfold closeSocket; destruct (close_rc =? 0); reflexivity|].
  split; [unfold closeSocket; destruct (negb _); reflexivity|].
  split; [unfold closeSocket; destruct (negb _); reflexivity|].
  split; [exact Hdata|].
  split.
  { intros k. induction k as [|k IH]; [reflexivity|].
    cbn [io_ticks]. unfold doInputOutput. rewrite Hest. cbn [negb Z.eqb]. exact IH. }
  split; [intros v; unfold addNum; rewrite Hest; reflexivity|].
  split; [intros ds n; unfold addData; rewrite Hest; reflexivity|].
  split.
  - intros d Hd. unfold getDataSize. rewrite Hdata, Hd. reflexivity.
  - intros x d Hd. unfold popFront. rewrite Hdata, Hd. reflexivity.
Qed.

(** ** The data mutex *)

(** X3.  [popFront] on an attached, empty deque leaves by the exception of
    [at(0)] with [dataMutex] still held: [unlockDataMutex] is not reached.
    From then on [popFront] and [getDataSize], and on an established
    connection that has not failed [addNum] and [addData], block in
    [lockDataMutex].  A [popFront] that finds a value, and any
    [getDataSize] on an attached deque, give the mutex back. *)
Theorem popFront_empty_keeps_mutex (c : SpineMLConnection) :
  data c = Some [] ->
  popFront_locking MutexFree c = Leaves (ThrowsOutOfRange c) MutexHeld
  /\ popFront_locking MutexHeld c = Blocks
  /\ getDataSize_locking MutexHeld c = Blocks
  /\ (established c = true -> failed c = false ->
      forall v ds n,
        addNum_locking MutexHeld v c = Blocks
        /\ addData_locking MutexHeld ds n c = Blocks)
  /\ getDataSize_locking MutexFree c = Leaves (Returns 0 c) MutexFree
  /\ (forall v d c1, data c1 = Some (v :: d) ->
                     popFront_locking MutexFree c1
                     = Leaves (Returns v (set_data (Some d) c1)) MutexFree).
Proof.
  intros Hd.
  split; [unfold popFront_locking, popFront; rewrite Hd; reflexivity|].
  split; [reflexivity|]. split; [reflexivity|].
  split.
  { intros He Hf v ds n. unfold addNum_locking, addData_locking.
    rewrite He, Hf. split; reflexivity. }
  split; [unfold getDataSize_locking, getDataSize; rewrite Hd; reflexivity|].
  intros v d c1 Hd1. unfold popFront_locking, popFront. rewrite Hd1. reflexivity.
Qed.

Lemma popFront_empty_keeps_mutex_witness :
  popFront_locking MutexFree (established_conn AM_SOURCE 1 [])
  = Leaves (ThrowsOutOfRange (established_conn AM_SOURCE 1 [])) MutexHeld
  /\ getDataSize_locking MutexHeld (established_conn AM_SOURCE 1 []) = Blocks
  /\ addNum_locking MutexHeld 7 (established_conn AM_SOURCE 1 []) = Blocks.
Proof.
  destruct (popFront_empty_keeps_mutex (established_conn AM_SOURCE 1 []) eq_refl)
    as (Hthrow & _ & Hsize & Hadd & _).
  split; [exact Hthrow|]. split; [exact Hsize|].
  exact (proj1 (Hadd eq_refl eq_refl 7 [] 0)).
Defined.

(** ** The steady state never meets a null pointer *)

Lemma ready_frame (c c' : SpineMLConnection) :
  ready c -> clientDataSize c' = clientDataSize c -> noData c' = noData c ->
  doublebuf c' = doublebuf c -> data c' = data c -> ready c'.
Proof.
  unfold ready. intros H Hs Hn Hb Hd. rewrite Hs, Hn, Hb, Hd. exact H.
Qed.

Lemma ready_noData (c : SpineMLConnection) (v : Z) :
  ready c -> 0 <= v <= NO_DATA_MAX_COUNT -> ready (set_noData v c).
Proof.
  unfold ready. intros (Hs & _ & Hb & Hd) Hv.
  split; [exact Hs|]. split; [exact Hv|]. split; [exact Hb | exact Hd].
Qed.

Lemma ready_incr (c : SpineMLConnection) :
  ready c -> noData c < NO_DATA_MAX_COUNT -> ready (incr_noData c).
Proof.
  intros H Hlt. assert (Hn : 0 <= noData c < NO_DATA_MAX_COUNT).
  { destruct H as (_ & Hn & _). lia. }
  rewrite (incr_noData_small _ Hn). apply ready_noData; [exact H|].
  unfold NO_DATA_MAX_COUNT in *. lia.
Qed.

Lemma ready_doublebuf (c : SpineMLConnection) (m : list byte) :
  ready c -> Z.of_nat (length m) = clientDataSize c * 8 ->
  ready (set_doublebuf (Some m) c).
Proof.
  unfold ready. intros (Hs & Hn & _ & Hd) Hm.
  split; [exact Hs|]. split; [exact Hn|]. split; [|exact Hd].
  exists m. split; [reflexivity | exact Hm].
Qed.

Lemma ready_data (c : SpineMLConnection) (d : list double) :
  ready c -> ready (set_data (Some d) c).
Proof.
  unfold ready. intros (Hs & Hn & Hb & _).
  split; [exact Hs|]. split; [exact Hn|]. split; [exact Hb|].
  exists d. reflexivity.
Qed.

Lemma length_overwrite (dst src : list byte) :
  (length src <= length dst)%nat -> length (overwrite dst src) = length dst.
Proof.
  intros H. unfold overwrite. rewrite length_app, length_skipn. lia.
Qed.

Lemma send_recvd_ready (c : SpineMLConnection) (w : world) :
  ready c -> exists rc c' w', send_recvd c w = Tick rc c' w' /\ ready c'.
Proof.
  intros H. destruct (sock_write [char_of RESP_RECVD] w) as [n w2] eqn:Hw.
  rewrite (send_recvd_result _ _ _ _ Hw).
  eexists _, _, _. split; [reflexivity|].
  apply (ready_frame c); [exact H | reflexivity ..].
Qed.

Lemma doReadFromClient_ready (c : SpineMLConnection) (w : world) :
  ready c -> exists rc c' w', doReadFromClient c w = Tick rc c' w' /\ ready c'.
Proof.
  intros H. pose proof H as (Hs & Hn & (m & Hb & Hm) & (d & Hd)).
  unfold doReadFromClient. rewrite Hb.
  assert (Hchunk : to_size_t (sizeof_double * clientDataSize c) = clientDataSize c * 8).
  { unfold sizeof_double. rewrite to_size_t_small; lia. }
  rewrite Hchunk.
  destruct (sock_read _ w) as [[r bs] w1] eqn:Hr.
  assert (Hlen : (length bs <= length m)%nat).
  { apply sock_read_result in Hr. destruct Hr as [(_ & ->) | (-> & Hle)]; [simpl; lia|].
    specialize (Hle ltac:(lia)). lia. }
  assert (H1 : ready (set_doublebuf (Some (overwrite m bs)) c)).
  { apply ready_doublebuf; [exact H|]. rewrite length_overwrite; assumption. }
  destruct (to_int r <? 0).
  { eexists _, _, _. split; [reflexivity | exact H1]. }
  destruct (to_size_t (to_int r) =? _).
  { erewrite push_loop_attached by exact Hd.
    apply send_recvd_ready. apply ready_noData; [|unfold NO_DATA_MAX_COUNT; lia].
    apply ready_data. exact H1. }
  destruct (to_int r =? 0); cbn [andb].
  - change (noData (set_doublebuf (Some (overwrite m bs)) c)) with (noData c).
    destruct (noData c <? NO_DATA_MAX_COUNT) eqn:Hlt.
    { apply Z.ltb_lt in Hlt. eexists _, _, _. split; [reflexivity|].
      apply ready_incr; assumption. }
    destruct (noData c =? NO_DATA_MAX_COUNT).
    { eexists _, _, _. split; [reflexivity | exact H1]. }
    apply send_recvd_ready. exact H1.
  - apply send_recvd_ready. exact H1.
Qed.

Lemma write_batch_ready (c : SpineMLConnection) (w : world) :
  ready c -> exists rc c' w', write_batch c w = Tick rc c' w' /\ ready c'.
Proof.
  intros H. pose proof H as (Hs & Hn & (m & Hb & Hm) & (d & Hd)).
  unfold write_batch. rewrite Hd.
  destruct (clientDataSize c <=? Z.of_nat (length d)) eqn:Hle.
  - apply Z.leb_le in Hle.
    erewrite drain_loop_attached; [| exact Hd | exact Hb | lia | simpl; lia].
    cbn [doublebuf set_data set_doublebuf].
    set (m' := take _ m ++ _ ++ drop _ m).
    assert (Hm' : Z.of_nat (length m') = clientDataSize c * 8).
    { subst m'. rewrite !length_app, length_take, length_drop, length_bytes_of_doubles,
        length_take. lia. }
    assert (H1 : ready (set_data (Some (drop (Z.to_nat (clientDataSize c)) d))
                          (set_doublebuf (Some m') c))).
    { apply ready_data. apply ready_doublebuf; assumption. }
    destruct (sock_write _ w) as [bw w1].
    destruct (negb _).
    + eexists _, _, _. split; [reflexivity | exact H1].
    + eexists _, _, _. split; [reflexivity|].
      apply ready_noData; [|unfold NO_DATA_MAX_COUNT; lia].
      apply (ready_frame _ _ H1); reflexivity.
  - destruct (NO_DATA_MAX_COUNT <=? noData c) eqn:Hnd.
    + eexists _, _, _. split; [reflexivity | exact H].
    + apply Z.leb_gt in Hnd. eexists _, _, _. split; [reflexivity|].
      apply ready_incr; assumption.
Qed.

Lemma doWriteToClient_ready (c : SpineMLConnection) (w : world) :
  ready c -> exists rc c' w', doWriteToClient c w = Tick rc c' w' /\ ready c'.
Proof.
  intros H. unfold doWriteToClient.
  destruct (unacknowledgedDataSent c); [|apply write_batch_ready; exact H].
  unfold read_smallbuf. destruct (sock_read 1 w) as [[r bs] w1].
  set (c1 := set_smallbuf _ c).
  assert (H1 : ready c1) by (apply (ready_frame c); [exact H | reflexivity ..]).
  destruct (to_int r =? 1).
  { destruct (negb _).
    - eexists _, _, _. split; [reflexivity | exact H1].
    - apply write_batch_ready. apply ready_noData; [|unfold NO_DATA_MAX_COUNT; lia].
      apply (ready_frame c1); [exact H1 | reflexivity ..]. }
  destruct (to_int r =? 0); cbn [andb].
  - destruct (noData c1 <? NO_DATA_MAX_COUNT) eqn:Hlt.
    { apply Z.ltb_lt in Hlt. eexists _, _, _. split; [reflexivity|].
      apply ready_incr; assumption. }
    destruct (noData c1 =? NO_DATA_MAX_COUNT).
    + destruct (errno w1 =? 0); eexists _, _, _; (split; [reflexivity | exact H1]).
    + destruct (errno w1 =? ECONNRESET); eexists _, _, _; (split; [reflexivity | exact H1]).
  - destruct (errno w1 =? ECONNRESET); eexists _, _, _; (split; [reflexivity | exact H1]).
Qed.

Lemma doInputOutput_ready (c : SpineMLConnection) (w : world) :
  ready c -> exists rc c' w', doInputOutput c w = Tick rc c' w' /\ ready c'.
Proof.
  intros H.
  assert (Hwrap : forall drc c1 w1, ready c1 ->
            exists rc c' w',
              (if drc =? -1 then Tick (-1) (set_finished true (set_failed true c1)) w1
               else if drc =? 1 then Tick 1 (set_finished true c1) w1
               else Tick 0 c1 w1) = Tick rc c' w' /\ ready c').
  { intros drc c1 w1 H1. destruct (drc =? -1); [|destruct (drc =? 1)];
      eexists _, _, _; (split; [reflexivity|]);
      try exact H1; apply (ready_frame c1); try exact H1; reflexivity. }
  unfold doInputOutput.
  destruct (negb (established c)).
  { eexists _, _, _. split; [reflexivity | exact H]. }
  destruct (clientDataDirection c =? AM_TARGET).
  { destruct (doWriteToClient_ready c w H) as (drc & c1 & w1 & -> & H1).
    apply Hwrap. exact H1. }
  destruct (clientDataDirection c =? AM_SOURCE).
  { destruct (doReadFromClient_ready c w H) as (drc & c1 & w1 & -> & H1).
    apply Hwrap. exact H1. }
  eexists _, _, _. split; [reflexivity | exact H].
Qed.

(** Proves [ready] of a concrete connection. *)
Ltac ready_now :=
  unfold ready; vm_compute;
  repeat split; try discriminate; try (eexists; split; reflexivity);
  try (eexists; reflexivity).

(** X4.  A connection that is [ready] (size below 2^32, at most 100 reads
    without data counted, a scratch buffer of [clientDataSize] doubles, a
    deque attached) stays so under any run of calls of [doInputOutput],
    whatever the socket does: every call returns, none dereferences a null
    [data] or [doublebuf] or takes [at(0)] of an empty deque, the scratch
    buffer keeps its [clientDataSize] doubles and [noData] stays within
    the ceiling.  A handshake that returns 0 leaves the connection
    [ready]. *)
Theorem io_ticks_ready (k : nat) :
  forall (c : SpineMLConnection) (w : world),
    ready c ->
    exists rc c' w', io_ticks k c w = Tick rc c' w' /\ ready c'.
Proof.
  induction k as [|k IH]; intros c w H; cbn [io_ticks].
  - eexists _, _, _. split; [reflexivity | exact H].
  - destruct (doInputOutput_ready c w H) as (rc1 & c1 & w1 & -> & H1).
    destruct (rc1 =? 0).
    + apply IH. exact H1.
    + eexists _, _, _. split; [reflexivity | exact H1].
Qed.

Lemma io_ticks_ready_witness :
  ready (established_conn AM_TARGET 2 [1; 2; 3])
  /\ exists rc c' w',
      io_ticks 4 (established_conn AM_TARGET 2 [1; 2; 3])
               (scripted [RdBytes [x2a]] [WrAll]) = Tick rc c' w'
      /\ ready c'.
Proof.
  assert (H : ready (established_conn AM_TARGET 2 [1; 2; 3])) by ready_now.
  split; [exact H|].
  exact (io_ticks_ready 4 _ (scripted [RdBytes [x2a]] [WrAll]) H).
Defined.

(** ** What the handshake settles, stage by stage *)













(** ** The data cache *)

Lemma sock_read_dataCache (count : Z) (w : world) :
  dataCache (snd (sock_read count w)) = dataCache w.
Proof.
  unfold sock_read. destruct (incoming w) as [|[bs|e] q]; reflexivity.
Qed.

Lemma sock_write_dataCache (bs : list byte) (w : world) :
  dataCache (snd (sock_write bs w)) = dataCache w.
Proof.
  unfold sock_write. destruct (wresults w) as [|[|k|e] q]; reflexivity.
Qed.

Lemma attach_data_handed_over (w0 : world) (c : SpineMLConnection) (w : world) :
  dataCache w = dataCache w0 ->
  handed_over w0 (set_noData 0 (fst (attach_data c w))) (snd (attach_data c w)).
Proof.
  intros Hc. unfold handed_over, attach_data. rewrite <- Hc.
  destruct (dataCache w) as [dc|] eqn:Hdc.
  - destruct (dc !! clientConnectionName c) as [d|] eqn:Hl; cbn; rewrite Hl.
    + split; reflexivity.
    + split; [reflexivity | exact Hdc].
  - cbn. split; [reflexivity | exact Hdc].
Qed.

(** Splits on the calls and the tests of a stage, keeping track of the
    cache. *)
Ltac split_io :=
  repeat match goal with
         | |- context [sock_read ?n ?w] =>
             let H := fresh "Hc" in
             pose proof (sock_read_dataCache n w) as H;
             destruct (sock_read n w) as [[? ?] ?]; cbn [snd] in H
         | |- context [write_smallbuf1 ?c ?w] =>
             let H := fresh "Hc" in
             pose proof (sock_write_dataCache [smallbuf_at 0 c] w) as H;
             unfold write_smallbuf1;
             destruct (sock_write [smallbuf_at 0 c] w) as [? ?]; cbn [snd] in H
         | |- context [attach_data ?c ?w] =>
             let H := fresh "Hatt" in
             pose proof (fun w0 => attach_data_handed_over w0 c w) as H;
             destruct (attach_data c w) as [? ?]; cbn [fst snd] in H
         | |- context [if ?b then _ else _] => destruct b
         end.

Lemma hs_iter_cache (w0 : world) (s : Z) (c : SpineMLConnection) (w : world) :
  cache_at w0 s c w ->
  match hs_iter s c w with
  | HsNext s' c' w' => cache_at w0 s' c' w'
  | HsReturn _ _ w' => dataCache w' = dataCache w0
  | HsThrows _ w' => dataCache w' = dataCache w0
  | HsUndefined => True
  end.
Proof.
  unfold hs_iter.
  destruct (Z.eqb_spec s CS_HS_GETTINGTARGET) as [->|H0].
  { intros Hinit. unfold cache_at in Hinit. simpl in Hinit.
    unfold hs_getting_target, read_smallbuf, hs_fail. split_io;
      unfold cache_at, CS_HS_GETTINGTARGET, CS_HS_DONE; simpl (_ =? _); congruence. }
  destruct (Z.eqb_spec s CS_HS_GETTINGDATATYPE) as [->|H1].
  { intros Hinit. unfold cache_at in Hinit. simpl in Hinit.
    unfold hs_getting_datatype, read_smallbuf, hs_fail. split_io;
      unfold cache_at, CS_HS_GETTINGDATATYPE, CS_HS_DONE; simpl (_ =? _); congruence. }
  destruct (Z.eqb_spec s CS_HS_GETTINGDATASIZE) as [->|H2].
  { intros Hinit. unfold cache_at in Hinit. simpl in Hinit.
    unfold hs_getting_datasize, read_smallbuf, hs_fail. split_io;
      unfold cache_at, CS_HS_GETTINGDATASIZE, CS_HS_DONE; simpl (_ =? _); congruence. }
  destruct (Z.eqb_spec s CS_HS_GETTINGNAME) as [->|H3].
  { intros Hinit. unfold cache_at in Hinit. simpl in Hinit.
    unfold hs_getting_name, read_smallbuf, hs_fail. split_io;
      unfold cache_at, CS_HS_GETTINGNAME, CS_HS_DONE; simpl (_ =? _);
      try solve [exact I | congruence].
    apply Hatt. congruence. }
  unfold cache_at.
  destruct (s =? CS_HS_DONE) eqn:Hd; intros Hinit; [rewrite Hd; exact Hinit|].
  unfold hs_fail. exact Hinit.
Qed.

Lemma hs_loop_cache (w0 : world) (g : nat) :
  forall (s : Z) (c : SpineMLConnection) (w : world),
    cache_at w0 s c w ->
    match hs_loop g s c w with
    | LoopReturn _ _ w' => dataCache w' = dataCache w0
    | LoopExit s' c' w' => cache_at w0 s' c' w'
    | LoopThrows _ w' => dataCache w' = dataCache w0
    | LoopUndefined => True
    | OutOfGas => True
    end.
Proof.
  induction g as [|g IH]; intros s c w Hs; cbn [hs_loop];
    destruct (negb (s =? CS_HS_DONE) && (noData c <? NO_DATA_MAX_COUNT));
    try exact I; try exact Hs.
  pose proof (hs_iter_cache w0 s c w Hs) as Hiter.
  destruct (hs_iter s c w) as [rc c1 w1|s1 c1 w1|c1 w1|];
    [exact Hiter| |exact Hiter|exact I].
  apply IH. exact Hiter.
Qed.

(** X6.  The deque a handshake attaches.  A handshake that returns -1
    leaves [dataCache] as it was.  One that returns 0 has looked the
    connection's name up in it once: the connection holds the deque that
    was cached under its name, and that entry, and no other, has gone from
    the cache; with no such entry, or no cache, the connection holds a
    new, empty deque and the cache is as it was.  A handshake that returns
    nothing has left by [std::bad_alloc], with the cache as it was, or its
    behaviour is undefined. *)
Theorem doHandshake_hands_over_cache (c : SpineMLConnection) (w : world) :
  (exists rc c' w',
      doHandshake c w = Some (rc, c', w')
      /\ ((rc = 0 /\ handed_over w c' w')
          \/ (rc = -1 /\ dataCache w' = dataCache w)))
  \/ (exists c' w',
         handshake_loop c w = LoopThrows c' w' /\ dataCache w' = dataCache w)
  \/ handshake_loop c w = LoopUndefined.
Proof.
  pose proof (hs_loop_inv (hs_bound CS_HS_GETTINGTARGET 0)
                CS_HS_GETTINGTARGET (set_noData 0 c) w) as Hinv.
  pose proof (hs_loop_cache w (hs_bound CS_HS_GETTINGTARGET 0)
                CS_HS_GETTINGTARGET (set_noData 0 c) w eq_refl) as Hca.
  pose proof (handshake_loop_total c w) as Htot.
  rewrite doHandshake_finish. unfold handshake_loop in *.
  destruct (hs_loop _ _ _ w) as [rc1 c1 w1|s1 c1 w1|c1 w1| |]; cbn [hs_finish].
  - left. exists rc1, c1, w1. split; [reflexivity|].
    destruct Hinv as (Hrc & _). right. auto.
  - left. destruct Hinv as (_ & _ & [(Hs & Hl)|(Hs & Hge & _)]).
    + destruct Hl as [Hn _];
        [unfold CS_HS_GETTINGTARGET, CS_HS_GETTINGNAME; lia|].
      rewrite Hn. change (NO_DATA_MAX_COUNT <=? 0) with false. cbv iota.
      eexists _, _, _. split; [reflexivity|]. left.
      split; [reflexivity|]. subst s1. exact Hca.
    + replace (NO_DATA_MAX_COUNT <=? noData c1) with true
        by (symmetry; apply Z.leb_le; exact Hge).
      eexists _, _, _. split; [reflexivity|]. right. split; [reflexivity|].
      unfold cache_at in Hca.
      replace (s1 =? CS_HS_DONE) with false in Hca
        by (symmetry; apply Z.eqb_neq; exact Hs).
      exact Hca.
  - right. left. exists c1, w1. split; [reflexivity | exact Hca].
  - right. right. reflexivity.
  - exfalso. exact (Htot eq_refl).
Qed.

Lemma doHandshake_hands_over_cache_witness :
  exists c' w' dc',
    doHandshake new_SpineMLConnection
      (mkWorld valid_handshake [] 0 []
         (Some (<["test"%string := [1; 2]]> (<["other"%string := [9]]> ∅)))
         (2 ^ 30))
    = Some (0, c', w')
    /\ data c' = Some [1; 2]
    /\ dataCache w' = Some dc'
    /\ dc' !! "test"%string = None
    /\ dc' !! "other"%string = Some [9].
Proof.
  assert (Hrun0 : exists c0 w0,
             doHandshake new_SpineMLConnection
               (mkWorld valid_handshake [] 0 []
                  (Some (<["test"%string := [1; 2]]> (<["other"%string := [9]]> ∅)))
                  (2 ^ 30))
             = Some (0, c0, w0) /\ clientConnectionName c0 = "test"%string).
  { eexists _, _. split; vm_compute; reflexivity. }
  destruct Hrun0 as (c0 & w0 & Hrun0 & Hname).
  destruct (doHandshake_hands_over_cache new_SpineMLConnection
              (mkWorld valid_handshake [] 0 []
                 (Some (<["test"%string := [1; 2]]> (<["other"%string := [9]]> ∅)))
                 (2 ^ 30)))
    as [(rc & c' & w' & Hrun & Hcases) | [(c' & w' & Hthrow & _) | Hundef]].
  - rewrite Hrun0 in Hrun. inversion Hrun; subst rc c' w'; clear Hrun.
    destruct Hcases as [(_ & Hh) | (Hrc & _)]; [|discriminate Hrc].
    unfold handed_over in Hh. cbn [dataCache] in Hh. rewrite Hname in Hh.
    rewrite lookup_insert_eq in Hh. destruct Hh as (Hd & Hc).
    eexists c0, w0, _. split; [exact Hrun0|]. split; [exact Hd|].
    split; [exact Hc|]. split; [apply lookup_delete_eq|].
    rewrite lookup_delete_ne by discriminate.
    rewrite lookup_insert_ne by discriminate.
    apply lookup_insert_eq.
  - rewrite doHandshake_finish, Hthrow in Hrun0. discriminate Hrun0.
  - rewrite doHandshake_finish, Hundef in Hrun0. discriminate Hrun0.
Defined.

(** ** A stream of blocks on the read path *)

Lemma doReadFromClient_block (c : SpineMLConnection) (w : world)
      (q : list read_event) (d : list double) (m bs : list byte) :
  data c = Some d -> doublebuf c = Some m ->
  0 <= clientDataSize c -> sizeof_double * clientDataSize c <= INT_MAX ->
  incoming w = RdBytes bs :: q ->
  Z.of_nat (length bs) = sizeof_double * clientDataSize c ->
  acks_go_out w ->
  exists c' w',
    doReadFromClient c w = Tick 0 c' w'
    /\ data c' = Some (d ++ doubles_of_bytes (Z.to_nat (clientDataSize c)) bs)
    /\ doublebuf c' = Some (overwrite m bs)
    /\ clientDataSize c' = clientDataSize c
    /\ noData c' = 0
    /\ world_after w w' q [EvRecv bs; EvSend [char_of RESP_RECVD]].
Proof.
  intros Hd Hm Hsz Hmax Hin Hlen Hok.
  assert (Hchunk : to_size_t (sizeof_double * clientDataSize c)
                   = sizeof_double * clientDataSize c).
  { apply to_size_t_small. unfold sizeof_double, INT_MAX in *. lia. }
  unfold doReadFromClient. rewrite Hm, Hchunk.
  rewrite (sock_read_exact _ w bs q Hin Hlen).
  rewrite to_int_small by (unfold sizeof_double, INT_MAX in *; lia).
  rewrite Hchunk, Z.eqb_refl.
  replace (sizeof_double * clientDataSize c <? 0) with false
    by (symmetry; apply Z.ltb_ge; unfold sizeof_double; lia).
  cbn [clientDataSize set_doublebuf].
  rewrite (push_loop_attached _ _ _ d) by exact Hd.
  unfold overwrite at 1.
  assert (Hlen' : length bs = (8 * Z.to_nat (clientDataSize c))%nat)
    by (unfold sizeof_double in Hlen; lia).
  rewrite (doubles_of_bytes_app _ bs) by exact Hlen'.
  pose proof (world_after_read w bs q Hok) as Hw1.
  destruct (sock_write_ack (char_of RESP_RECVD) _ (proj2 (proj2 Hw1)))
    as (w2 & Hw & Hw2).
  rewrite (send_recvd_result _ _ _ _ Hw). change (1 =? 1) with true. cbv iota.
  eexists _, w2. split; [reflexivity|].
  repeat (split; [reflexivity|]).
  exact (world_after_trans _ _ _ _ _ _ _ Hw1 Hw2).
Qed.

Lemma sent_after_stalls (k : nat) (q : list read_event) (w : world) :
  sent (after_stalls k q w) = sent w.
Proof.
  unfold sent, after_stalls. cbn [trace]. rewrite sent_of_app.
  induction k as [|k IH]; [apply app_nil_r|]. exact IH.
Qed.

Lemma ticks_of_cons (k : nat) (bs : list byte) (segs : list (nat * list byte)) :
  ticks_of ((k, bs) :: segs) = (k + S (ticks_of segs))%nat.
Proof. unfold ticks_of. simpl. lia. Qed.

(** X7.  A stream of blocks on the read path.  The client sends complete
    blocks (of a size whose byte count fits an [int], and at least one
    double), the server finding nothing to read at most 100 times before
    each, and every acknowledgement goes out.  Then the ticks that consume
    the stream all return 0; the deque ends as the deque of the start
    followed by the doubles of all the blocks, in the order sent; exactly
    one RESP_RECVD has been written per block; and [noData] is back at 0.
    Reads that find nothing in between lose and duplicate nothing. *)
Theorem read_ticks_stream (segs : list (nat * list byte)) :
  forall (c : SpineMLConnection) (w : world) (q : list read_event)
         (d : list double) (m : list byte),
    data c = Some d -> doublebuf c = Some m ->
    1 <= clientDataSize c -> sizeof_double * clientDataSize c <= INT_MAX ->
    noData c = 0 ->
    Forall (fun seg => (fst seg <= 100)%nat
                       /\ Z.of_nat (length (snd seg))
                          = sizeof_double * clientDataSize c) segs ->
    incoming w = block_script segs ++ q ->
    acks_go_out w ->
    exists c' w',
      read_ticks (ticks_of segs) c w = Tick 0 c' w'
      /\ data c'
         = Some (d ++ doubles_of_blocks (Z.to_nat (clientDataSize c)) segs)
      /\ noData c' = 0
      /\ clientDataSize c' = clientDataSize c
      /\ incoming w' = q
      /\ sent w' = sent w ++ repeat [char_of RESP_RECVD] (length segs).
Proof.
  induction segs as [|[k bs] segs IH]; intros c w q d m Hd Hm Hsz Hmax Hnd Hall Hin Hok.
  - exists c, w. split; [reflexivity|].
    split; [cbn; rewrite app_nil_r; exact Hd|].
    split; [exact Hnd|]. split; [reflexivity|]. split; [exact Hin|].
    cbn. rewrite app_nil_r. reflexivity.
  - inversion Hall as [|? ? [Hk Hlen] Hrest]; subst. cbn [fst snd] in Hk, Hlen.
    assert (Hin' : incoming w = stalls k ++ RdBytes bs :: block_script segs ++ q).
    { rewrite Hin. unfold block_script. cbn [flat_map fst snd].
      rewrite <- !app_assoc. reflexivity. }
    rewrite ticks_of_cons.
    rewrite (read_ticks_stalls k (S (ticks_of segs)) c w _ m Hm
               ltac:(unfold sizeof_double, INT_MAX in *; lia)
               ltac:(lia)
               ltac:(unfold NO_DATA_MAX_COUNT; lia) Hin').
    cbn [read_ticks].
    destruct (doReadFromClient_block
                (set_noData (noData c + Z.of_nat k) c)
                (after_stalls k (RdBytes bs :: block_script segs ++ q) w)
                (block_script segs ++ q) d m bs Hd Hm ltac:(cbn; lia) Hmax
                eq_refl Hlen Hok)
      as (c2 & w2 & Hrun & Hd2 & Hm2 & Hsz2 & Hnd2 & (Hin2 & Ht2 & Hok2)).
    rewrite Hrun. change (0 =? 0) with true. cbv iota.
    cbn [clientDataSize set_noData] in Hd2, Hsz2.
    destruct (IH c2 w2 q _ _ Hd2 Hm2 ltac:(rewrite Hsz2; exact Hsz)
                ltac:(rewrite Hsz2; exact Hmax) Hnd2
                ltac:(rewrite Hsz2; exact Hrest) Hin2 Hok2)
      as (c' & w' & Hrun' & Hd' & Hnd' & Hsz' & Hin'' & Hsent').
    exists c', w'. split; [exact Hrun'|].
    split.
    { rewrite Hd', Hsz2, <- app_assoc. reflexivity. }
    split; [exact Hnd'|]. split; [rewrite Hsz'; exact Hsz2|].
    split; [exact Hin''|].
    rewrite Hsent'. unfold sent at 1. rewrite Ht2, sent_of_app.
    fold (sent (after_stalls k (RdBytes bs :: block_script segs ++ q) w)).
    rewrite sent_after_stalls, <- app_assoc. reflexivity.
Qed.

Lemma read_ticks_stream_witness :
  exists c' w',
    read_ticks 5 (established_conn AM_SOURCE 1 [7])
               (scripted (block_script [(2%nat, bytes_of_doubles [1]);
                                        (1%nat, bytes_of_doubles [2])]) [])
    = Tick 0 c' w'
    /\ data c' = Some [7; 1; 2]
    /\ sent w' = [[char_of RESP_RECVD]; [char_of RESP_RECVD]].
Proof.
  destruct (read_ticks_stream
              [(2%nat, bytes_of_doubles [1]); (1%nat, bytes_of_doubles [2])]
              (established_conn AM_SOURCE 1 [7])
              (scripted (block_script [(2%nat, bytes_of_doubles [1]);
                                       (1%nat, bytes_of_doubles [2])]) [])
              [] [7] (new_doubles 1))
    as (c' & w' & Hrun & Hd & _ & _ & _ & Hsent);
    [reflexivity | reflexivity | concrete | concrete | reflexivity
    | repeat constructor; concrete | reflexivity | apply List.Forall_nil |].
  exists c', w'. split; [exact Hrun|]. split; [exact Hd|]. exact Hsent.
Defined.

(** ** What the write path puts on the wire *)

Lemma bytes_of_doubles_app (ds1 ds2 : list double) :
  bytes_of_doubles (ds1 ++ ds2) = bytes_of_doubles ds1 ++ bytes_of_doubles ds2.
Proof. unfold bytes_of_doubles. apply flat_map_app. Qed.

Lemma drained_refl (size : Z) (w w' : world) (d : list double) :
  sent w' = sent w -> drained size w w' d d.
Proof.
  intros Hs. exists [], []. split; [reflexivity|].
  split; [rewrite app_nil_r; exact Hs|]. split; [reflexivity | constructor].
Qed.

Lemma drained_trans (size : Z) (w1 w2 w3 : world) (d1 d2 d3 : list double) :
  drained size w1 w2 d1 d2 -> drained size w2 w3 d2 d3 -> drained size w1 w3 d1 d3.
Proof.
  intros (vs1 & b1 & Hd1 & Hs1 & Hc1 & Hf1) (vs2 & b2 & Hd2 & Hs2 & Hc2 & Hf2).
  exists (vs1 ++ vs2), (b1 ++ b2).
  split; [rewrite Hd1, Hd2, app_assoc; reflexivity|].
  split; [rewrite Hs2, Hs1, app_assoc; reflexivity|].
  split; [rewrite concat_app, bytes_of_doubles_app, Hc1, Hc2; reflexivity|].
  apply Forall_app. split; assumption.
Qed.

Lemma write_batch_drained (c c' : SpineMLConnection) (w w' : world) (d : list double) :
  ready c -> data c = Some d ->
  write_batch c w = Tick 0 c' w' ->
  exists d', data c' = Some d' /\ drained (clientDataSize c) w w' d d'.
Proof.
  intros H Hd Hrun. pose proof H as (Hs & Hn & (m & Hb & Hm) & _).
  unfold write_batch in Hrun. rewrite Hd in Hrun.
  destruct (clientDataSize c <=? Z.of_nat (length d)) eqn:Hle.
  - apply Z.leb_le in Hle.
    erewrite drain_loop_attached in Hrun; [| exact Hd | exact Hb | lia | simpl; lia].
    cbn [doublebuf set_data set_doublebuf clientDataSize] in Hrun.
    unfold sizeof_double in Hrun. rewrite to_size_t_small in Hrun by lia.
    change (take (8 * 0) m) with (@nil byte) in Hrun. cbn [app] in Hrun.
    set (n := Z.to_nat (clientDataSize c)) in *.
    rewrite (take_app_length' (bytes_of_doubles (take n d))) in Hrun
      by (rewrite length_bytes_of_doubles, length_take; lia).
    destruct (sock_write _ w) as [bw w1] eqn:Hw.
    destruct (negb _) eqn:Hneg; [discriminate|].
    inversion Hrun; subst c' w'; clear Hrun.
    apply negb_false_iff, Z.eqb_eq in Hneg.
    assert (Hblock : Z.of_nat (length (bytes_of_doubles (take n d)))
                     = clientDataSize c * 8).
    { rewrite length_bytes_of_doubles, length_take. lia. }
    destruct (sock_write_result _ _ _ _ Hw) as [(Hbw & _) | (out & Ht & Hbw & Hlo & Hall)].
    + subst bw. change (to_size_t (-1)) with (2 ^ 64 - 1) in Hneg. lia.
    + subst bw. rewrite to_size_t_small in Hneg by lia.
      assert (Hout : out = bytes_of_doubles (take n d)) by (apply Hall; lia).
      subst out.
      exists (drop n d). split; [reflexivity|].
      exists (take n d), [bytes_of_doubles (take n d)].
      split; [symmetry; apply take_drop|].
      split; [unfold sent; rewrite Ht, sent_of_app; reflexivity|].
      split; [cbn; apply app_nil_r|].
      constructor; [|constructor]. unfold sizeof_double. lia.
  - destruct (NO_DATA_MAX_COUNT <=? noData c); [discriminate|].
    inversion Hrun; subst c' w'; clear Hrun.
    exists d. split; [exact Hd|]. apply drained_refl. reflexivity.
Qed.

Lemma doWriteToClient_drained
      (c c' : SpineMLConnection) (w w' : world) (d : list double) :
  ready c -> data c = Some d ->
  doWriteToClient c w = Tick 0 c' w' ->
  exists d', data c' = Some d' /\ drained (clientDataSize c) w w' d d'.
Proof.
  intros H Hd Hrun.
  destruct (unacknowledgedDataSent c) eqn:Hun.
  - destruct (sock_read 1 w) as [[r bs] w1] eqn:Hrd.
    rewrite (doWriteToClient_awaiting _ _ _ _ _ Hun Hrd) in Hrun.
    pose proof (sock_read_sent _ _ _ _ _ Hrd) as Hs1.
    set (c1 := set_smallbuf (overwrite (smallbuf c) bs) c) in *.
    destruct (to_int r =? 1).
    + destruct (negb _); [discriminate|].
      apply write_batch_drained with (d := d) in Hrun;
        [| apply ready_noData; [|unfold NO_DATA_MAX_COUNT; lia];
           apply (ready_frame c); [exact H | reflexivity ..]
         | exact Hd].
      destruct Hrun as (d' & Hd' & Hdr). exists d'. split; [exact Hd'|].
      apply (drained_trans _ w w1 w' d d d'); [apply drained_refl; exact Hs1|].
      exact Hdr.
    + destruct ((to_int r =? 0) && (noData c <? NO_DATA_MAX_COUNT)).
      { inversion Hrun; subst c' w'; clear Hrun.
        exists d. split; [exact Hd|]. apply drained_refl. exact Hs1. }
      destruct ((to_int r =? 0) && (noData c =? NO_DATA_MAX_COUNT));
        [destruct (errno w1 =? 0)|destruct (errno w1 =? ECONNRESET)]; discriminate.
  - unfold doWriteToClient in Hrun. rewrite Hun in Hrun.
    exact (write_batch_drained _ _ _ _ _ H Hd Hrun).
Qed.

(** X8.  Nothing is lost or reordered on the write path.  Over any run of
    ticks of [doWriteToClient] that all return 0, from a [ready]
    connection: the writes made are blocks of exactly [clientDataSize]
    doubles, their bytes put end to end are the memory image of a prefix
    of the deque of the start, and the deque now holds the rest, in
    order. *)
Theorem write_ticks_drained (k : nat) :
  forall (c c' : SpineMLConnection) (w w' : world) (d : list double),
    ready c -> data c = Some d ->
    write_ticks k c w = Tick 0 c' w' ->
    exists d', data c' = Some d' /\ drained (clientDataSize c) w w' d d'.
Proof.
  induction k as [|k IH]; intros c c' w w' d H Hd Hrun; cbn [write_ticks] in Hrun.
  - inversion Hrun; subst c' w'; clear Hrun.
    exists d. split; [exact Hd|]. apply drained_refl. reflexivity.
  - destruct (doWriteToClient_ready c w H) as (rc & c1 & w1 & Htick & H1).
    rewrite Htick in Hrun.
    destruct (Z.eqb_spec rc 0) as [->|Hnz].
    + destruct (doWriteToClient_drained _ _ _ _ _ H Hd Htick) as (d1 & Hd1 & Hdr1).
      destruct (doWriteToClient_frame _ _ _ _ _ Htick) as (Hp & _).
      destruct Hp as (_ & _ & _ & _ & _ & Hsz).
      destruct (IH _ _ _ _ _ H1 Hd1 Hrun) as (d' & Hd' & Hdr').
      rewrite Hsz in Hdr'.
      exists d'. split; [exact Hd'|].
      exact (drained_trans _ _ _ _ _ _ _ Hdr1 Hdr').
    + inversion Hrun. congruence.
Qed.

Lemma write_ticks_drained_witness :
  exists c' w' d',
    write_ticks 2 (established_conn AM_TARGET 2 [1; 2; 3; 4; 5])
                (scripted [RdBytes [x2a]] []) = Tick 0 c' w'
    /\ data c' = Some d'
    /\ drained 2 (scripted [RdBytes [x2a]] []) w' [1; 2; 3; 4; 5] d'.
Proof.
  eexists _, _.
  assert (Hrun : write_ticks 2 (established_conn AM_TARGET 2 [1; 2; 3; 4; 5])
                   (scripted [RdBytes [x2a]] []) = Tick 0 ?[c'] ?[w'])
    by (vm_compute; reflexivity).
  assert (H : ready (established_conn AM_TARGET 2 [1; 2; 3; 4; 5])) by ready_now.
  destruct (write_ticks_drained 2 _ _ _ _ [1; 2; 3; 4; 5] H eq_refl Hrun)
    as (d' & Hd' & Hdr).
  exists d'. split; [exact Hrun|]. split; [exact Hd' | exact Hdr].
Defined.

(** ** Doubles across the wire *)

Lemma uchar_val_char_of (z : Z) : uchar_val (char_of z) = z mod 256.
Proof.
  unfold uchar_val, char_of.
  pose proof (Z.mod_pos_bound z 256 ltac:(lia)) as Hz.
  destruct (Byte.of_N (Z.to_N (z mod 256))) as [b|] eqn:Hb.
  - apply Byte.to_of_N in Hb. rewrite Hb. apply Z2N.id. lia.
  - apply Byte.of_N_None_iff in Hb. lia.
Qed.

Lemma le_value_le_bytes (n : nat) :
  forall v : Z, le_value (le_bytes n v) = v mod 2 ^ (8 * Z.of_nat n).
Proof.
  induction n as [|n IH]; intros v.
  - cbn [le_bytes le_value]. change (2 ^ (8 * Z.of_nat 0)) with 1.
    rewrite Z.mod_1_r. reflexivity.
  - cbn [le_bytes le_value]. rewrite uchar_val_char_of, IH.
    change 255 with (Z.ones 8). rewrite Z.land_ones by lia.
    change (2 ^ 8) with 256. rewrite Z.mod_mod by lia.
    change 256 with (2 ^ 8).
    apply Z.bits_inj'. intros i Hi.
    rewrite Z.lor_spec, Z.shiftl_spec by lia.
    destruct (Z.lt_ge_cases i 8) as [Hlt|Hge].
    + rewrite Z.mod_pow2_bits_low by lia.
      rewrite (Z.testbit_neg_r _ (i - 8)) by lia.
      rewrite Z.mod_pow2_bits_low by lia. apply orb_false_r.
    + rewrite Z.mod_pow2_bits_high by lia. cbn [orb].
      destruct (Z.lt_ge_cases (i - 8) (8 * Z.of_nat n)) as [Hin|Hout].
      * rewrite !Z.mod_pow2_bits_low by lia.
        rewrite Z.shiftr_spec by lia. f_equal. lia.
      * rewrite !Z.mod_pow2_bits_high by lia. reflexivity.
Qed.

Lemma le_value_le_bytes_double (v : double) :
  is_double v -> le_value (le_bytes 8 v) = v.
Proof.
  intros Hv. rewrite le_value_le_bytes.
  change (2 ^ (8 * Z.of_nat 8)) with (2 ^ 64). apply Z.mod_small. exact Hv.
Qed.

Lemma doubles_of_bytes_of_doubles (ds : list double) (rest : list byte) :
  Forall is_double ds ->
  doubles_of_bytes (length ds) (bytes_of_doubles ds ++ rest) = ds.
Proof.
  induction ds as [|v ds IH]; intros Hall; [reflexivity|].
  inversion Hall as [|? ? Hv Hrest]; subst.
  rewrite bytes_of_doubles_cons, <- app_assoc.
  cbn [length doubles_of_bytes].
  rewrite (take_app_length' (le_bytes 8 v)) by (rewrite length_le_bytes; reflexivity).
  rewrite (drop_app_length' (le_bytes 8 v)) by (rewrite length_le_bytes; reflexivity).
  rewrite le_value_le_bytes_double by exact Hv.
  rewrite IH by exact Hrest. reflexivity.
Qed.

(** X9.  From one server to another.  A tick of [doWriteToClient] that
    returns 0 and has written a block has taken [clientDataSize] values
    from the front of its deque; a connection of the same size (whose
    block fits an [int]) whose read delivers that block appends the same
    values, in the same order, to the back of its own deque and
    acknowledges once.  The values are 64-bit patterns. *)
Theorem write_then_read_round_trip
    (ct ct' cs : SpineMLConnection) (wt wt' ws : world) (q : list read_event)
    (dt ds : list double) (ms block : list byte) :
  ready ct -> data ct = Some dt -> Forall is_double dt ->
  doWriteToClient ct wt = Tick 0 ct' wt' ->
  sent wt' = sent wt ++ [block] ->
  data cs = Some ds -> doublebuf cs = Some ms ->
  clientDataSize cs = clientDataSize ct ->
  sizeof_double * clientDataSize cs <= INT_MAX ->
  incoming ws = RdBytes block :: q ->
  acks_go_out ws ->
  exists (vs dt' : list double) (cs' : SpineMLConnection) (ws' : world),
    dt = vs ++ dt'
    /\ Z.of_nat (length vs) = clientDataSize ct
    /\ data ct' = Some dt'
    /\ doReadFromClient cs ws = Tick 0 cs' ws'
    /\ data cs' = Some (ds ++ vs)
    /\ sent ws' = sent ws ++ [[char_of RESP_RECVD]].
Proof.
  intros Hready Hdt Hdbl Hwrite Hsent Hds Hms Hsize Hmax Hin Hok.
  destruct (doWriteToClient_drained _ _ _ _ _ Hready Hdt Hwrite)
    as (dt' & Hdt' & (vs & blocks & Hsplit & Hsent' & Hcat & Hlens)).
  rewrite Hsent in Hsent'. apply app_inv_head in Hsent'. subst blocks.
  cbn [concat] in Hcat. rewrite app_nil_r in Hcat. subst block.
  pose proof (Forall_inv Hlens) as Hlen. cbn beta in Hlen.
  destruct Hready as ((Hs0 & _) & _).
  assert (Hvs : Z.of_nat (length vs) = clientDataSize ct).
  { rewrite length_bytes_of_doubles in Hlen. unfold sizeof_double in Hlen. lia. }
  destruct (doReadFromClient_block cs ws q ds ms (bytes_of_doubles vs) Hds Hms
              ltac:(lia) Hmax Hin ltac:(rewrite Hsize; exact Hlen) Hok)
    as (cs' & ws' & Hread & Hds' & _ & _ & _ & (_ & Ht & _)).
  exists vs, dt', cs', ws'.
  split; [exact Hsplit|]. split; [exact Hvs|]. split; [exact Hdt'|].
  split; [exact Hread|].
  split.
  - rewrite Hds', Hsize, <- Hvs, Nat2Z.id.
    rewrite <- (app_nil_r (bytes_of_doubles vs)).
    rewrite doubles_of_bytes_of_doubles; [reflexivity|].
    rewrite Hsplit in Hdbl. apply Forall_app in Hdbl. apply Hdbl.
  - unfold sent. rewrite Ht, sent_of_app. reflexivity.
Qed.

Lemma write_then_read_round_trip_witness :
  exists ct' wt' cs' ws',
    doWriteToClient (established_conn AM_TARGET 2 [1; 2; 3]) (scripted [] [])
    = Tick 0 ct' wt'
    /\ data ct' = Some [3]
    /\ doReadFromClient (established_conn AM_SOURCE 2 [9])
                        (scripted [RdBytes (bytes_of_doubles [1; 2])] [])
       = Tick 0 cs' ws'
    /\ data cs' = Some [9; 1; 2].
Proof.
  eexists _, _.
  assert (Hrun : doWriteToClient (established_conn AM_TARGET 2 [1; 2; 3])
                   (scripted [] []) = Tick 0 ?[ct'] ?[wt'])
    by (vm_compute; reflexivity).
  assert (H : ready (established_conn AM_TARGET 2 [1; 2; 3])) by ready_now.
  assert (Hdbl : Forall is_double [1; 2; 3])
    by (repeat constructor; unfold is_double; lia).
  assert (Hmax : sizeof_double * clientDataSize (established_conn AM_SOURCE 2 [9])
                 <= INT_MAX) by concrete.
  destruct (write_then_read_round_trip
              (established_conn AM_TARGET 2 [1; 2; 3]) _
              (established_conn AM_SOURCE 2 [9])
              (scripted [] []) _
              (scripted [RdBytes (bytes_of_doubles [1; 2])] []) []
              [1; 2; 3] [9] (new_doubles 2) (bytes_of_doubles [1; 2])
              H eq_refl Hdbl Hrun eq_refl eq_refl eq_refl eq_refl Hmax eq_refl
              (List.Forall_nil _))
    as (vs & dt' & cs' & ws' & Hsplit & Hvs & Hdt' & Hread & Hds' & _).
  destruct vs as [|v1 [|v2 [|v3 vs]]]; try discriminate Hvs;
    [|exfalso; cbn [length] in Hvs; change (clientDataSize _) with 2 in Hvs; lia].
  injection Hsplit as <- <- <-.
  exists cs', ws'. split; [exact Hrun|]. split; [exact Hdt'|].
  split; [exact Hread | exact Hds'].
Defined.

(** ** A data size of zero *)

Lemma sock_read_zero (w : world) :
  reads_succeed w ->
  exists w1,
    sock_read 0 w = (0, [], w1)
    /\ reads_succeed w1 /\ wresults w1 = wresults w /\ sent w1 = sent w.
Proof.
  unfold reads_succeed, sock_read. intros Hok.
  destruct (incoming w) as [|[bs|e] q] eqn:Hin.
  - exists w. unfold reads_succeed. rewrite Hin. auto.
  - rewrite Z.min_l by lia. change (Z.to_nat 0) with 0%nat.
    cbn [firstn skipn length Z.of_nat].
    eexists. split; [reflexivity|].
    split; [|split; [reflexivity|]].
    + unfold reads_succeed. inversion Hok; subst.
      destruct bs; cbn; [assumption|]. constructor; [reflexivity | assumption].
    + unfold sent. cbn [trace log_event set_incoming]. rewrite sent_of_app.
      apply app_nil_r.
  - inversion Hok as [|? ? He _]. discriminate He.
Qed.

Lemma doReadFromClient_zero (c : SpineMLConnection) (w : world)
      (d : list double) (m : list byte) :
  clientDataSize c = 0 -> data c = Some d -> doublebuf c = Some m ->
  reads_succeed w -> acks_go_out w ->
  exists c' w',
    doReadFromClient c w = Tick 0 c' w'
    /\ clientDataSize c' = 0 /\ data c' = Some d /\ doublebuf c' = Some m
    /\ noData c' = 0
    /\ reads_succeed w' /\ acks_go_out w'
    /\ sent w' = sent w ++ [[char_of RESP_RECVD]].
Proof.
  intros Hsz Hd Hm Hrd Hok.
  destruct (sock_read_zero w Hrd) as (w1 & Hread & Hrd1 & Hwr1 & Hs1).
  assert (Hok1 : acks_go_out w1) by (unfold acks_go_out; rewrite Hwr1; exact Hok).
  destruct (sock_write_ack (char_of RESP_RECVD) w1 Hok1) as (w2 & Hw & (Hin2 & Ht2 & Hok2)).
  unfold doReadFromClient. rewrite Hm, Hsz.
  change (to_size_t (sizeof_double * 0)) with 0. rewrite Hread.
  change (to_int 0 <? 0) with false. change (to_size_t (to_int 0) =? 0) with true.
  cbv iota. cbn [clientDataSize set_doublebuf]. rewrite Hsz.
  change (Z.to_nat 0) with 0%nat. cbn [push_loop].
  rewrite (send_recvd_result _ _ _ _ Hw). change (1 =? 1) with true. cbv iota.
  eexists _, w2. split; [reflexivity|].
  split; [exact Hsz|]. split; [exact Hd|]. split; [reflexivity|].
  split; [reflexivity|].
  split; [unfold reads_succeed; rewrite Hin2; exact Hrd1|].
  split; [exact Hok2|].
  unfold sent. rewrite Ht2, sent_of_app. fold (sent w1). rewrite Hs1. reflexivity.
Qed.

(** X10.  A connection whose negotiated size is 0 (the handshake accepts
    it) treats every read that does not fail as a complete block: each
    tick of [doReadFromClient] writes RESP_RECVD and resets [noData], also
    when the client sends nothing at all.  So as long as reads do not fail
    and the acknowledgements go out, every tick returns 0: such a
    connection never ends by silence, and its deque never grows. *)
Theorem zero_size_reads_never_idle (k : nat) :
  forall (c : SpineMLConnection) (w : world) (d : list double) (m : list byte),
    clientDataSize c = 0 -> data c = Some d -> doublebuf c = Some m ->
    reads_succeed w -> acks_go_out w ->
    exists c' w',
      read_ticks k c w = Tick 0 c' w'
      /\ data c' = Some d
      /\ (k <> 0%nat -> noData c' = 0)
      /\ sent w' = sent w ++ repeat [char_of RESP_RECVD] k.
Proof.
  induction k as [|k IH]; intros c w d m Hsz Hd Hm Hrd Hok.
  - exists c, w. split; [reflexivity|]. split; [exact Hd|].
    split; [intros Hne; contradiction|]. cbn. rewrite app_nil_r. reflexivity.
  - destruct (doReadFromClient_zero c w d m Hsz Hd Hm Hrd Hok)
      as (c1 & w1 & Hrun & Hsz1 & Hd1 & Hm1 & Hnd1 & Hrd1 & Hok1 & Hs1).
    destruct (IH c1 w1 d m Hsz1 Hd1 Hm1 Hrd1 Hok1)
      as (c' & w' & Hrun' & Hd' & Hnd' & Hs').
    exists c', w'. cbn [read_ticks]. rewrite Hrun.
    change (0 =? 0) with true. cbv iota.
    split; [exact Hrun'|]. split; [exact Hd'|].
    split.
    + intros _. destruct k as [|k]; [|apply Hnd'; discriminate].
      cbn [read_ticks] in Hrun'. inversion Hrun'; subst. exact Hnd1.
    + rewrite Hs', Hs1, <- app_assoc. reflexivity.
Qed.

Lemma zero_size_reads_never_idle_witness :
  exists c0 w0 c' w',
    doHandshake new_SpineMLConnection (scripted zero_size_handshake [])
    = Some (0, c0, w0)
    /\ clientDataSize c0 = 0
    /\ incoming w0 = []
    /\ read_ticks 200 c0 w0 = Tick 0 c' w'
    /\ data c' = Some []
    /\ sent w' = sent w0 ++ repeat [char_of RESP_RECVD] 200.
Proof.
  eexists _, _.
  assert (Hhs : doHandshake new_SpineMLConnection (scripted zero_size_handshake [])
                = Some (0, ?[c0], ?[w0])) by (vm_compute; reflexivity).
  match type of Hhs with
  | _ = Some (0, ?c0, ?w0) =>
      destruct (zero_size_reads_never_idle 200 c0 w0 [] (new_doubles 0)
                  eq_refl eq_refl eq_refl (List.Forall_nil _) (List.Forall_nil _))
        as (c' & w' & Hrun & Hd & _ & Hs)
  end.
  exists c', w'. split; [exact Hhs|]. split; [reflexivity|].
  split; [reflexivity|]. split; [exact Hrun|]. split; [exact Hd | exact Hs].
Defined.

(** ** The acknowledgements of the handshake *)

Lemma sock_read_sent_snd (count : Z) (w : world) :
  sent (snd (sock_read count w)) = sent w.
Proof.
  destruct (sock_read count w) as [[r bs] w1] eqn:Hr.
  exact (sock_read_sent _ _ _ _ _ Hr).
Qed.

Lemma ack_written (x : byte) (w : world) :
  fst (sock_write [x] w) = 1 -> sent (snd (sock_write [x] w)) = sent w ++ [[x]].
Proof.
  destruct (sock_write [x] w) as [n w1] eqn:Hw. cbn [fst snd]. intros ->.
  destruct (sock_write_result _ _ _ _ Hw) as [(Hn & _) | (out & Ht & Hn & _ & Hall)];
    [discriminate|].
  rewrite (Hall ltac:(simpl; lia)) in Ht.
  unfold sent. rewrite Ht, sent_of_app. reflexivity.
Qed.

Lemma attach_data_sent (c : SpineMLConnection) (w : world) :
  sent (snd (attach_data c w)) = sent w.
Proof.
  destruct (attach_data_attaches c w) as (d & dc & ->). reflexivity.
Qed.

(** Splits on the calls and the tests of a stage, keeping track of what
    has been written. *)
Ltac split_sent :=
  repeat match goal with
         | |- context [sock_read ?n ?w] =>
             let H := fresh "Hs" in
             pose proof (sock_read_sent_snd n w) as H;
             destruct (sock_read n w) as [[? ?] ?]; cbn [snd] in H
         | |- context [write_smallbuf1 (smallbuf_put0 ?v ?c) ?w] =>
             let H := fresh "Hs" in
             rewrite (write_smallbuf1_put0 v c w);
             pose proof (ack_written (char_of v) w) as H;
             destruct (sock_write [char_of v] w) as [? ?]; cbn [fst snd] in H
         | |- context [attach_data ?c ?w] =>
             let H := fresh "Hs" in
             pose proof (attach_data_sent c w) as H;
             destruct (attach_data c w) as [? ?]; cbn [snd] in H
         | |- context [if negb (?n =? 1) then _ else _] =>
             destruct (Z.eqb_spec n 1); cbn [negb]
         | |- context [if ?b then _ else _] => destruct b
         end.

(** Closes a goal [acks_at] at a numbered stage. *)
Ltac acks_now :=
  try exact I;
  unfold acks_at, CS_HS_GETTINGTARGET, CS_HS_GETTINGDATATYPE,
    CS_HS_GETTINGDATASIZE, CS_HS_GETTINGNAME, CS_HS_DONE in *;
  (split; [lia|]);
  repeat match goal with
         | H : ?n = 1 -> _, E : ?n = 1 |- _ => specialize (H E)
         end;
  repeat match goal with
         | H : sent _ = _ |- _ => rewrite H
         end;
  rewrite <- ?app_assoc; reflexivity.

Lemma hs_iter_acks (w0 : world) (s : Z) (c : SpineMLConnection) (w : world) :
  acks_at w0 s w ->
  match hs_iter s c w with
  | HsNext s' c' w' => acks_at w0 s' w'
  | HsThrows _ w' => acks_at w0 CS_HS_GETTINGDATASIZE w'
  | _ => True
  end.
Proof.
  intros (Hrange & Hsent). unfold hs_iter.
  destruct (Z.eqb_spec s CS_HS_GETTINGTARGET) as [->|H0].
  { unfold hs_getting_target, read_smallbuf, hs_fail. split_sent; acks_now. }
  destruct (Z.eqb_spec s CS_HS_GETTINGDATATYPE) as [->|H1].
  { unfold hs_getting_datatype, read_smallbuf, hs_fail. split_sent; acks_now. }
  destruct (Z.eqb_spec s CS_HS_GETTINGDATASIZE) as [->|H2].
  { unfold hs_getting_datasize, read_smallbuf, hs_fail. split_sent; acks_now. }
  destruct (Z.eqb_spec s CS_HS_GETTINGNAME) as [->|H3].
  { unfold hs_getting_name, read_smallbuf, hs_fail. split_sent; acks_now. }
  destruct (s =? CS_HS_DONE); [|exact I].
  split; assumption.
Qed.

Lemma hs_loop_acks (w0 : world) (g : nat) :
  forall (s : Z) (c : SpineMLConnection) (w : world),
    acks_at w0 s w ->
    match hs_loop g s c w with
    | LoopExit s' c' w' => acks_at w0 s' w'
    | LoopThrows _ w' => acks_at w0 CS_HS_GETTINGDATASIZE w'
    | _ => True
    end.
Proof.
  induction g as [|g IH]; intros s c w Hs; cbn [hs_loop];
    destruct (negb (s =? CS_HS_DONE) && (noData c <? NO_DATA_MAX_COUNT));
    try exact I; try exact Hs.
  pose proof (hs_iter_acks w0 s c w Hs) as Hiter.
  destruct (hs_iter s c w) as [rc c1 w1|s1 c1 w1|c1 w1|];
    [exact I| |exact Hiter|exact I].
  apply IH. exact Hiter.
Qed.

Lemma acks_at_start (w : world) : acks_at w CS_HS_GETTINGTARGET w.
Proof.
  unfold acks_at, CS_HS_GETTINGTARGET, CS_HS_DONE. split; [lia|].
  cbn. rewrite app_nil_r. reflexivity.
Qed.

(** X11.  Whatever the client sends and however its bytes are cut up by
    the reads, a handshake that returns 0 has written exactly four bytes,
    one per write: RESP_HELLO, then RESP_RECVD three times.  No
    handshake succeeds with an acknowledgement missing, doubled or out of
    order.  A handshake that returns nothing has left by
    [std::bad_alloc], the first two of them written, or its behaviour is
    undefined. *)
Theorem doHandshake_acknowledges (c : SpineMLConnection) (w : world) :
  (exists rc c' w',
      doHandshake c w = Some (rc, c', w')
      /\ (rc = 0 -> sent w' = sent w ++ handshake_acks))
  \/ (exists c' w',
         handshake_loop c w = LoopThrows c' w'
         /\ sent w' = sent w ++ [[char_of RESP_HELLO]; [char_of RESP_RECVD]])
  \/ handshake_loop c w = LoopUndefined.
Proof.
  pose proof (hs_loop_inv (hs_bound CS_HS_GETTINGTARGET 0)
                CS_HS_GETTINGTARGET (set_noData 0 c) w) as Hinv.
  pose proof (hs_loop_acks w (hs_bound CS_HS_GETTINGTARGET 0)
                CS_HS_GETTINGTARGET (set_noData 0 c) w (acks_at_start w)) as Hacks.
  pose proof (handshake_loop_total c w) as Htot.
  rewrite doHandshake_finish. unfold handshake_loop in *.
  destruct (hs_loop _ _ _ w) as [rc1 c1 w1|s1 c1 w1|c1 w1| |]; cbn [hs_finish].
  - left. exists rc1, c1, w1. split; [reflexivity|].
    destruct Hinv as (Hrc & _). intros ->. discriminate Hrc.
  - left. destruct Hinv as (_ & _ & [(Hs & _)|(_ & Hge & _)]).
    + subst s1. destruct (NO_DATA_MAX_COUNT <=? noData c1);
        eexists _, _, _; (split; [reflexivity|]); intros Hrc;
        [discriminate Hrc|].
      destruct Hacks as (_ & Hsent). exact Hsent.
    + replace (NO_DATA_MAX_COUNT <=? noData c1) with true
        by (symmetry; apply Z.leb_le; exact Hge).
      eexists _, _, _. split; [reflexivity|]. intros Hrc. discriminate Hrc.
  - right. left. exists c1, w1. split; [reflexivity|].
    destruct Hacks as (_ & Hsent). exact Hsent.
  - right. right. reflexivity.
  - exfalso. exact (Htot eq_refl).
Qed.

Lemma doHandshake_acknowledges_witness :
  exists c' w',
    doHandshake new_SpineMLConnection
      (scripted [RdBytes []; RdBytes [x2e]; RdBytes [x1f]; RdBytes [];
                 RdBytes [x03; x00; x00; x00]; RdBytes [x04; x00; x00; x00];
                 RdBytes [x74; x65; x73; x74]] [])
    = Some (0, c', w')
    /\ sent w' = handshake_acks.
Proof.
  assert (Hrun0 : exists c0 w0,
             doHandshake new_SpineMLConnection
               (scripted [RdBytes []; RdBytes [x2e]; RdBytes [x1f]; RdBytes [];
                          RdBytes [x03; x00; x00; x00]; RdBytes [x04; x00; x00; x00];
                          RdBytes [x74; x65; x73; x74]] [])
             = Some (0, c0, w0)).
  { eexists _, _. vm_compute. reflexivity. }
  destruct Hrun0 as (c0 & w0 & Hrun0).
  destruct (doHandshake_acknowledges new_SpineMLConnection
              (scripted [RdBytes []; RdBytes [x2e]; RdBytes [x1f]; RdBytes [];
                         RdBytes [x03; x00; x00; x00]; RdBytes [x04; x00; x00; x00];
                         RdBytes [x74; x65; x73; x74]] []))
    as [(rc & c' & w' & Hrun & Hsent) | [(c' & w' & Hthrow & _) | Hundef]].
  - rewrite Hrun0 in Hrun. inversion Hrun; subst rc c' w'; clear Hrun.
    exists c0, w0. split; [exact Hrun0|]. exact (Hsent eq_refl).
  - rewrite doHandshake_finish, Hthrow in Hrun0. discriminate Hrun0.
  - rewrite doHandshake_finish, Hundef in Hrun0. discriminate Hrun0.
Defined.

(** ** System calls that fail *)

Lemma sock_read_fails (count : Z) (w : world) (e : Z) (q : list read_event) :
  incoming w = RdErr e :: q ->
  sock_read count w = (-1, [], set_errno e (set_incoming q w)).
Proof. intros Hin. unfold sock_read. rewrite Hin. reflexivity. Qed.

Lemma sock_write_fails (bs : list byte) (w : world) (e : Z) (q : list write_event) :
  wresults w = WrErr e :: q ->
  sock_write bs w = (-1, set_errno e (set_wresults q w)).
Proof. intros Hw. unfold sock_write. rewrite Hw. reflexivity. Qed.

(** X12.  What a failing system call does to a call of [doInputOutput] on
    an established connection, [e] being the [errno] it sets.  A source
    whose read fails: -1, with [failed] and [finished] set, whatever [e]
    is, a reset by the peer included.  A target awaiting its
    acknowledgement whose read fails: 1 with [finished] set and [failed]
    untouched if [e] is ECONNRESET, and -1 with both set otherwise.  A
    target whose write of a block fails: -1 with both set, whatever [e]
    is, and the [clientDataSize] values of the block have left the deque
    for good.  In no case is anything appended to the deque. *)
Theorem doInputOutput_failing_call (c : SpineMLConnection) (w : world) (e : Z) :
  established c = true ->
  (forall q m,
      clientDataDirection c = AM_SOURCE -> doublebuf c = Some m ->
      incoming w = RdErr e :: q ->
      exists c' w',
        doInputOutput c w = Tick (-1) c' w'
        /\ failed c' = true /\ finished c' = true /\ data c' = data c)
  /\ (forall q,
         clientDataDirection c = AM_TARGET -> unacknowledgedDataSent c = true ->
         incoming w = RdErr e :: q ->
         exists c' w',
           doInputOutput c w = Tick (if e =? ECONNRESET then 1 else -1) c' w'
           /\ finished c' = true
           /\ failed c' = (if e =? ECONNRESET then failed c else true)
           /\ data c' = data c)
  /\ (forall q d,
         clientDataDirection c = AM_TARGET -> unacknowledgedDataSent c = false ->
         ready c -> data c = Some d -> clientDataSize c <= Z.of_nat (length d) ->
         wresults w = WrErr e :: q ->
         exists c' w',
           doInputOutput c w = Tick (-1) c' w'
           /\ failed c' = true /\ finished c' = true
           /\ data c' = Some (drop (Z.to_nat (clientDataSize c)) d)).
Proof.
  intros Hest.
  split; [|split].
  - intros q m Hdir Hm Hin. unfold doInputOutput. rewrite Hest, Hdir.
    change (negb true) with false. change (AM_SOURCE =? AM_TARGET) with false.
    change (AM_SOURCE =? AM_SOURCE) with true. cbv iota.
    unfold doReadFromClient. rewrite Hm, (sock_read_fails _ w e q Hin).
    change (to_int (-1) <? 0) with true. cbv iota.
    change (-1 =? -1) with true. cbv iota.
    eexists _, _. split; [reflexivity|]. repeat split; reflexivity.
  - intros q Hdir Hun Hin. unfold doInputOutput. rewrite Hest, Hdir.
    change (negb true) with false. change (AM_TARGET =? AM_TARGET) with true.
    cbv iota.
    rewrite (doWriteToClient_awaiting c w _ _ _ Hun (sock_read_fails 1 w e q Hin)).
    change (to_int (-1) =? 1) with false. change (to_int (-1) =? 0) with false.
    cbn [andb]. cbv iota.
    change (errno (set_errno e (set_incoming q w))) with e.
    destruct (e =? ECONNRESET).
    + change (1 =? -1) with false. change (1 =? 1) with true. cbv iota.
      eexists _, _. split; [reflexivity|]. repeat split; reflexivity.
    + change (-1 =? -1) with true. cbv iota.
      eexists _, _. split; [reflexivity|]. repeat split; reflexivity.
  - intros q d Hdir Hun Hready Hd Hle Hw.
    pose proof Hready as (Hs & _ & (m & Hb & Hm) & _).
    unfold doInputOutput. rewrite Hest, Hdir.
    change (negb true) with false. change (AM_TARGET =? AM_TARGET) with true.
    cbv iota.
    unfold doWriteToClient. rewrite Hun. unfold write_batch. rewrite Hd.
    replace (clientDataSize c <=? Z.of_nat (length d)) with true
      by (symmetry; apply Z.leb_le; exact Hle).
    erewrite drain_loop_attached; [| exact Hd | exact Hb | lia | simpl; lia].
    cbn [doublebuf set_data set_doublebuf clientDataSize].
    rewrite (sock_write_fails _ w e q Hw).
    unfold sizeof_double. rewrite (to_size_t_small (clientDataSize c * 8)) by lia.
    change (to_size_t (-1)) with (2 ^ 64 - 1).
    replace (2 ^ 64 - 1 =? clientDataSize c * 8) with false
      by (symmetry; apply Z.eqb_neq; lia).
    cbn [negb]. change (-1 =? -1) with true. cbv iota.
    eexists _, _. split; [reflexivity|]. repeat split; reflexivity.
Qed.

Lemma doInputOutput_failing_call_witness :
  (exists c' w',
      doInputOutput (established_conn AM_SOURCE 1 [7])
                    (scripted [RdErr ECONNRESET] []) = Tick (-1) c' w'
      /\ failed c' = true)
  /\ (exists c' w',
         doInputOutput
           (set_unacknowledgedDataSent true (established_conn AM_TARGET 1 [7]))
           (scripted [RdErr ECONNRESET] []) = Tick 1 c' w'
         /\ failed c' = false)
  /\ (exists c' w',
         doInputOutput (established_conn AM_TARGET 1 [7; 8])
                       (scripted [] [WrErr ECONNRESET]) = Tick (-1) c' w'
         /\ data c' = Some [8]).
Proof.
  split; [|split].
  - destruct (proj1 (doInputOutput_failing_call
                       (established_conn AM_SOURCE 1 [7])
                       (scripted [RdErr ECONNRESET] []) ECONNRESET eq_refl)
                _ _ eq_refl eq_refl eq_refl)
      as (c' & w' & Hrun & Hf & _).
    exists c', w'. split; [exact Hrun | exact Hf].
  - destruct (proj1 (proj2 (doInputOutput_failing_call
                              (set_unacknowledgedDataSent true
                                 (established_conn AM_TARGET 1 [7]))
                              (scripted [RdErr ECONNRESET] []) ECONNRESET eq_refl))
                _ eq_refl eq_refl eq_refl)
      as (c' & w' & Hrun & _ & Hf & _).
    exists c', w'. split; [exact Hrun | exact Hf].
  - assert (H : ready (established_conn AM_TARGET 1 [7; 8])) by ready_now.
    destruct (proj2 (proj2 (doInputOutput_failing_call
                              (established_conn AM_TARGET 1 [7; 8])
                              (scripted [] [WrErr ECONNRESET]) ECONNRESET eq_refl))
                _ [7; 8] eq_refl eq_refl H eq_refl ltac:(concrete) eq_refl)
      as (c' & w' & Hrun & _ & _ & Hd).
    exists c', w'. split; [exact Hrun | exact Hd].
Defined.

(** ** Clients the handshake turns down *)

(** A pass of the loop that moves on, as a step of the whole loop. *)
Lemma hs_advance_target (c : SpineMLConnection) (w : world) (q : list read_event)
      (dir : byte) :
  noData c < NO_DATA_MAX_COUNT -> acks_go_out w ->
  incoming w = RdBytes [dir] :: q ->
  char_val dir = AM_SOURCE \/ char_val dir = AM_TARGET ->
  exists c1 w1,
    (forall g, hs_loop (S g) CS_HS_GETTINGTARGET c w
               = hs_loop g CS_HS_GETTINGDATATYPE c1 w1)
    /\ incoming w1 = q /\ acks_go_out w1 /\ noData c1 = 0
    /\ established c1 = established c /\ data c1 = data c
    /\ heap w1 = heap w.
Proof.
  intros Hnd Hok Hin Hdir.
  destruct (hs_getting_target_ok CS_HS_GETTINGTARGET c w q Hok dir Hin Hdir)
    as (w1 & Hit & (Hin1 & _ & Hok1)).
  pose proof (heap_kept_next _ _ _ _ _ (hs_getting_target_heap _ _ _) Hit) as Hh.
  eexists _, w1. split.
  - intros g. apply hs_loop_next; [discriminate | exact Hnd | exact Hit].
  - repeat split; try assumption; reflexivity.
Qed.

Lemma hs_advance_datatype (c : SpineMLConnection) (w : world) (q : list read_event)
      (ty : byte) :
  noData c < NO_DATA_MAX_COUNT -> acks_go_out w ->
  incoming w = RdBytes [ty] :: q ->
  char_val ty = RESP_DATA_NUMS ->
  exists c1 w1,
    (forall g, hs_loop (S g) CS_HS_GETTINGDATATYPE c w
               = hs_loop g CS_HS_GETTINGDATASIZE c1 w1)
    /\ incoming w1 = q /\ acks_go_out w1 /\ noData c1 = 0
    /\ established c1 = established c /\ data c1 = data c
    /\ heap w1 = heap w.
Proof.
  intros Hnd Hok Hin Hty.
  destruct (hs_getting_datatype_ok CS_HS_GETTINGDATATYPE c w q Hok ty Hin Hty)
    as (w1 & Hit & (Hin1 & _ & Hok1)).
  pose proof (heap_kept_next _ _ _ _ _ (hs_getting_datatype_heap _ _ _) Hit) as Hh.
  eexists _, w1. split.
  - intros g. apply hs_loop_next; [discriminate | exact Hnd | exact Hit].
  - repeat split; try assumption; reflexivity.
Qed.

Lemma hs_advance_datasize (c : SpineMLConnection) (w : world) (q : list read_event)
      (s0 s1 s2 s3 : byte) :
  noData c < NO_DATA_MAX_COUNT -> acks_go_out w ->
  incoming w = RdBytes [s0; s1; s2; s3] :: q ->
  grants w (le_value [s0; s1; s2; s3]) = true ->
  exists c1 w1,
    (forall g, hs_loop (S g) CS_HS_GETTINGDATASIZE c w
               = hs_loop g CS_HS_GETTINGNAME c1 w1)
    /\ incoming w1 = q /\ acks_go_out w1 /\ noData c1 = 0
    /\ established c1 = established c /\ data c1 = data c.
Proof.
  intros Hnd Hok Hin Hgrant.
  destruct (hs_getting_datasize_ok CS_HS_GETTINGDATASIZE c w q Hok s0 s1 s2 s3 Hin
              Hgrant)
    as (w1 & Hit & (Hin1 & _ & Hok1)).
  eexists _, w1. split.
  - intros g. apply hs_loop_next; [discriminate | exact Hnd | exact Hit].
  - repeat split; try assumption; reflexivity.
Qed.

(** A pass that returns, as the end of the whole handshake. *)
Lemma hs_loop_turns_down (g : nat) (s : Z) (c c' : SpineMLConnection) (w w' : world) :
  s <> CS_HS_DONE -> noData c < NO_DATA_MAX_COUNT ->
  hs_iter s c w = HsReturn (-1) c' w' ->
  hs_finish (hs_loop (S g) s c w) = Some (-1, c', w')
  /\ failed c' = true /\ established c' = established c /\ data c' = data c.
Proof.
  intros Hs Hnd Hit. rewrite (hs_loop_return g s (-1) c c' w w' Hs Hnd Hit).
  split; [reflexivity|].
  pose proof (hs_iter_inv s c w) as Hinv. rewrite Hit in Hinv.
  destruct Hinv as (_ & Hf & He & Hd). auto.
Qed.

(** X13.  What the handshake turns down, every acknowledgement going out.
    Each of these clients gets -1, with [failed] set and [established] and
    the deque as they were:
    - one whose first byte is neither AM_SOURCE nor AM_TARGET;
    - one whose second byte is not RESP_DATA_NUMS;
    - one whose data size reaches a read in one to three bytes instead of
      four (the code does not wait for the rest);
    and, once a data size has been read whose scratch buffer the machine
    grants:
    - one whose name length reaches a read in one to three bytes;
    - one that announces a name of more than 1024 bytes (a length that
      fits an [int]);
    - one whose name reaches the read in fewer bytes than announced, but
      some. *)
Theorem doHandshake_turns_down
    (c : SpineMLConnection) (w : world) (q : list read_event)
    (dir ty s0 s1 s2 s3 : byte) :
  acks_go_out w ->
  char_val dir = AM_SOURCE \/ char_val dir = AM_TARGET ->
  char_val ty = RESP_DATA_NUMS ->
  (forall b : byte,
      char_val b <> AM_SOURCE -> char_val b <> AM_TARGET ->
      incoming w = RdBytes [b] :: q -> rejected c w)
  /\ (forall b : byte,
         char_val b <> RESP_DATA_NUMS ->
         incoming w = RdBytes [dir] :: RdBytes [b] :: q -> rejected c w)
  /\ (forall bs : list byte,
         (0 < length bs < 4)%nat ->
         incoming w = RdBytes [dir] :: RdBytes [ty] :: RdBytes bs :: q ->
         rejected c w)
  /\ (forall bs : list byte,
         grants w (le_value [s0; s1; s2; s3]) = true ->
         (0 < length bs < 4)%nat ->
         incoming w = RdBytes [dir] :: RdBytes [ty] :: RdBytes [s0; s1; s2; s3]
                        :: RdBytes bs :: q ->
         rejected c w)
  /\ (forall l0 l1 l2 l3 : byte,
         grants w (le_value [s0; s1; s2; s3]) = true ->
         1024 < le_value [l0; l1; l2; l3] <= INT_MAX ->
         incoming w = RdBytes [dir] :: RdBytes [ty] :: RdBytes [s0; s1; s2; s3]
                        :: RdBytes [l0; l1; l2; l3] :: q ->
         rejected c w)
  /\ (forall (l0 l1 l2 l3 : byte) (name : list byte),
         grants w (le_value [s0; s1; s2; s3]) = true ->
         le_value [l0; l1; l2; l3] <= 1024 ->
         0 < Z.of_nat (length name) < le_value [l0; l1; l2; l3] ->
         incoming w = RdBytes [dir] :: RdBytes [ty] :: RdBytes [s0; s1; s2; s3]
                        :: RdBytes [l0; l1; l2; l3] :: RdBytes name :: q ->
         rejected c w).
Proof.
  intros Hok Hdir Hty.
  assert (Hend : forall g s cN wN c' w',
             s <> CS_HS_DONE -> noData cN = 0 ->
             established cN = established (set_noData 0 c) ->
             data cN = data (set_noData 0 c) ->
             hs_iter s cN wN = HsReturn (-1) c' w' ->
             exists c'' w'',
               hs_finish (hs_loop (S g) s cN wN) = Some (-1, c'', w'')
               /\ failed c'' = true /\ established c'' = established c
               /\ data c'' = data c).
  { intros g s cN wN c' w' Hs Hnd He Hd Hit.
    change (established (set_noData 0 c)) with (established c) in He.
    change (data (set_noData 0 c)) with (data c) in Hd.
    destruct (hs_loop_turns_down g s cN c' wN w' Hs
                ltac:(rewrite Hnd; unfold NO_DATA_MAX_COUNT; lia) Hit)
      as (Hfin & Hf & He' & Hd').
    exists c', w'. split; [exact Hfin|]. repeat split; congruence. }
  assert (H0 : noData (set_noData 0 c) < NO_DATA_MAX_COUNT)
    by (cbn; unfold NO_DATA_MAX_COUNT; lia).
  unfold rejected, doHandshake, handshake_from.
  change (hs_bound CS_HS_GETTINGTARGET (noData (set_noData 0 c))) with 400%nat.
  split; [|split; [|split; [|split; [|split]]]].
  - intros b Hs Ht Hin.
    destruct (proj1 (hs_iter_rejects (set_noData 0 c) w q) b Hin Hs Ht)
      as (c' & w' & Hit & _).
    apply (Hend _ _ _ _ c' w'); [discriminate | reflexivity .. | exact Hit].
  - intros b Hn Hin.
    destruct (hs_advance_target _ w _ dir H0 Hok Hin Hdir)
      as (c1 & w1 & Hstep1 & Hin1 & Hok1 & Hnd1 & He1 & Hd1 & Hh1).
    rewrite Hstep1.
    destruct (proj1 (proj2 (hs_iter_rejects c1 w1 q)) b Hin1 Hn)
      as (c' & w' & Hit & _).
    apply (Hend _ _ _ _ c' w'); [discriminate | assumption .. ].
  - intros bs Hlen Hin.
    destruct (hs_advance_target _ w _ dir H0 Hok Hin Hdir)
      as (c1 & w1 & Hstep1 & Hin1 & Hok1 & Hnd1 & He1 & Hd1 & Hh1).
    rewrite Hstep1.
    destruct (hs_advance_datatype c1 w1 _ ty
                ltac:(rewrite Hnd1; unfold NO_DATA_MAX_COUNT; lia) Hok1 Hin1 Hty)
      as (c2 & w2 & Hstep2 & Hin2 & Hok2 & Hnd2 & He2 & Hd2 & Hh2).
    rewrite Hstep2.
    destruct (proj1 (proj2 (proj2 (hs_iter_rejects c2 w2 q)))
                CS_HS_GETTINGDATASIZE bs (or_introl eq_refl) Hin2 Hlen)
      as (c' & w' & Hit & _).
    apply (Hend _ _ _ _ c' w'); [discriminate | congruence .. | exact Hit].
  - intros bs Hgrant Hlen Hin.
    destruct (hs_advance_target _ w _ dir H0 Hok Hin Hdir)
      as (c1 & w1 & Hstep1 & Hin1 & Hok1 & Hnd1 & He1 & Hd1 & Hh1).
    rewrite Hstep1.
    destruct (hs_advance_datatype c1 w1 _ ty
                ltac:(rewrite Hnd1; unfold NO_DATA_MAX_COUNT; lia) Hok1 Hin1 Hty)
      as (c2 & w2 & Hstep2 & Hin2 & Hok2 & Hnd2 & He2 & Hd2 & Hh2).
    rewrite Hstep2.
    destruct (hs_advance_datasize c2 w2 _ s0 s1 s2 s3
                ltac:(rewrite Hnd2; unfold NO_DATA_MAX_COUNT; lia) Hok2 Hin2
                ltac:(rewrite (grants_same_heap w w2) by congruence; exact Hgrant))
      as (c3 & w3 & Hstep3 & Hin3 & Hok3 & Hnd3 & He3 & Hd3).
    rewrite Hstep3.
    destruct (proj1 (proj2 (proj2 (hs_iter_rejects c3 w3 q)))
                CS_HS_GETTINGNAME bs (or_intror eq_refl) Hin3 Hlen)
      as (c' & w' & Hit & _).
    apply (Hend _ _ _ _ c' w'); [discriminate | congruence .. | exact Hit].
  - intros l0 l1 l2 l3 Hgrant Hbig Hin.
    destruct (hs_advance_target _ w _ dir H0 Hok Hin Hdir)
      as (c1 & w1 & Hstep1 & Hin1 & Hok1 & Hnd1 & He1 & Hd1 & Hh1).
    rewrite Hstep1.
    destruct (hs_advance_datatype c1 w1 _ ty
                ltac:(rewrite Hnd1; unfold NO_DATA_MAX_COUNT; lia) Hok1 Hin1 Hty)
      as (c2 & w2 & Hstep2 & Hin2 & Hok2 & Hnd2 & He2 & Hd2 & Hh2).
    rewrite Hstep2.
    destruct (hs_advance_datasize c2 w2 _ s0 s1 s2 s3
                ltac:(rewrite Hnd2; unfold NO_DATA_MAX_COUNT; lia) Hok2 Hin2
                ltac:(rewrite (grants_same_heap w w2) by congruence; exact Hgrant))
      as (c3 & w3 & Hstep3 & Hin3 & Hok3 & Hnd3 & He3 & Hd3).
    rewrite Hstep3.
    destruct (proj1 (proj2 (proj2 (proj2 (hs_iter_rejects c3 w3 q))))
                l0 l1 l2 l3 Hin3 Hbig)
      as (c' & w' & Hit & _).
    apply (Hend _ _ _ _ c' w'); [discriminate | congruence .. | exact Hit].
  - intros l0 l1 l2 l3 name Hgrant Hmax Hshort Hin.
    destruct (hs_advance_target _ w _ dir H0 Hok Hin Hdir)
      as (c1 & w1 & Hstep1 & Hin1 & Hok1 & Hnd1 & He1 & Hd1 & Hh1).
    rewrite Hstep1.
    destruct (hs_advance_datatype c1 w1 _ ty
                ltac:(rewrite Hnd1; unfold NO_DATA_MAX_COUNT; lia) Hok1 Hin1 Hty)
      as (c2 & w2 & Hstep2 & Hin2 & Hok2 & Hnd2 & He2 & Hd2 & Hh2).
    rewrite Hstep2.
    destruct (hs_advance_datasize c2 w2 _ s0 s1 s2 s3
                ltac:(rewrite Hnd2; unfold NO_DATA_MAX_COUNT; lia) Hok2 Hin2
                ltac:(rewrite (grants_same_heap w w2) by congruence; exact Hgrant))
      as (c3 & w3 & Hstep3 & Hin3 & Hok3 & Hnd3 & He3 & Hd3).
    rewrite Hstep3.
    destruct (proj2 (proj2 (proj2 (proj2 (hs_iter_rejects c3 w3 q))))
                l0 l1 l2 l3 name q Hin3 Hmax Hshort)
      as (c' & w' & Hit & _).
    apply (Hend _ _ _ _ c' w'); [discriminate | congruence .. | exact Hit].
Qed.

Lemma doHandshake_turns_down_witness :
  rejected new_SpineMLConnection
           (scripted [RdBytes [x2e]; RdBytes [x1f]; RdBytes [x03; x00];
                      RdBytes [x00; x00]] [])
  /\ rejected new_SpineMLConnection (scripted [RdBytes [x20]] [])
  /\ rejected new_SpineMLConnection
              (scripted [RdBytes [x2e]; RdBytes [x1f]; RdBytes [x03; x00; x00; x00];
                         RdBytes [x01; x04; x00; x00]] []).
Proof.
  split; [|split].
  - apply (proj1 (proj2 (proj2
             (doHandshake_turns_down new_SpineMLConnection
                (scripted [RdBytes [x2e]; RdBytes [x1f]; RdBytes [x03; x00];
                           RdBytes [x00; x00]] [])
                [RdBytes [x00; x00]] x2e x1f x00 x00 x00 x00
                (List.Forall_nil _) (or_intror eq_refl) eq_refl)))
             [x03; x00]); [simpl; lia | reflexivity].
  - apply (proj1
             (doHandshake_turns_down new_SpineMLConnection
                (scripted [RdBytes [x20]] [])
                [] x2e x1f x00 x00 x00 x00
                (List.Forall_nil _) (or_intror eq_refl) eq_refl)
             x20); [discriminate | discriminate | reflexivity].
  - apply (proj1 (proj2 (proj2 (proj2 (proj2
             (doHandshake_turns_down new_SpineMLConnection
                (scripted [RdBytes [x2e]; RdBytes [x1f];
                           RdBytes [x03; x00; x00; x00];
                           RdBytes [x01; x04; x00; x00]] [])
                [] x2e x1f x03 x00 x00 x00
                (List.Forall_nil _) (or_intror eq_refl) eq_refl)))))
             x01 x04 x00 x00); [vm_compute; reflexivity | concrete | reflexivity].
Defined.

(** ** A client that is slow *)

(** Past its bound the loop does not look at the passes it has left. *)
Lemma hs_loop_gas (g1 : nat) :
  forall (g2 : nat) (s : Z) (c : SpineMLConnection) (w : world),
    0 <= s <= CS_HS_DONE -> 0 <= noData c ->
    (hs_bound s (noData c) <= g1)%nat -> (hs_bound s (noData c) <= g2)%nat ->
    hs_loop g1 s c w = hs_loop g2 s c w.
Proof.
  induction g1 as [|g1 IH]; intros g2 s c w Hs Hnd Hb1 Hb2;
    destruct g2 as [|g2]; cbn [hs_loop];
    destruct (Z.eqb_spec s CS_HS_DONE) as [Hdone|Hdone]; cbn [negb andb];
    try reflexivity;
    destruct (Z.ltb_spec (noData c) NO_DATA_MAX_COUNT) as [Hlt|Hge];
    try reflexivity;
    try (exfalso; unfold hs_bound, CS_HS_DONE, CS_HS_GETTINGNAME,
           NO_DATA_MAX_COUNT in *; lia).
  pose proof (hs_iter_inv s c w) as Hinv.
  destruct (hs_iter s c w) as [rc c' w'|s' c' w'|c' w'|];
    [reflexivity| |reflexivity|reflexivity].
  unfold hs_bound, CS_HS_DONE, CS_HS_GETTINGNAME, NO_DATA_MAX_COUNT in *.
  destruct Hinv as (_ & _ & [(-> & _ & [Hn|Hd])|(-> & Hn & Hr & _)]).
  - assert (Hn' : noData c' = noData c + 1)
      by (rewrite Hn; unfold to_uint; apply Z.mod_small; lia).
    apply IH; unfold hs_bound, CS_HS_DONE, CS_HS_GETTINGNAME, NO_DATA_MAX_COUNT;
      rewrite ?Hn'; lia.
  - lia.
  - apply IH; unfold hs_bound, CS_HS_DONE, CS_HS_GETTINGNAME, NO_DATA_MAX_COUNT;
      rewrite ?Hn; lia.
Qed.

Lemma handshake_from_next (s s' : Z) (c c' : SpineMLConnection) (w w' : world) :
  0 <= s <= CS_HS_GETTINGNAME -> 0 <= noData c < NO_DATA_MAX_COUNT ->
  hs_iter s c w = HsNext s' c' w' ->
  handshake_from s c w = handshake_from s' c' w'.
Proof.
  intros Hs Hnd Hit. unfold handshake_from.
  pose proof (hs_iter_inv s c w) as Hinv. rewrite Hit in Hinv.
  destruct (hs_bound s (noData c)) as [|g] eqn:Hb;
    [unfold hs_bound, CS_HS_GETTINGNAME, NO_DATA_MAX_COUNT in *; lia|].
  rewrite (hs_loop_next g s s' c c' w w'
             ltac:(unfold CS_HS_DONE, CS_HS_GETTINGNAME in *; lia)
             ltac:(lia) Hit).
  f_equal.
  unfold hs_bound, CS_HS_DONE, CS_HS_GETTINGNAME, NO_DATA_MAX_COUNT in *.
  destruct Hinv as (_ & _ & [(-> & _ & [Hn|Hd])|(-> & Hn & Hr & _)]).
  - assert (Hn' : noData c' = noData c + 1)
      by (rewrite Hn; unfold to_uint; apply Z.mod_small; lia).
    apply hs_loop_gas;
      unfold hs_bound, CS_HS_DONE, CS_HS_GETTINGNAME, NO_DATA_MAX_COUNT;
      rewrite ?Hn'; lia.
  - lia.
  - apply hs_loop_gas;
      unfold hs_bound, CS_HS_DONE, CS_HS_GETTINGNAME, NO_DATA_MAX_COUNT;
      rewrite ?Hn; lia.
Qed.

Lemma handshake_from_stalls (k : nat) :
  forall (s : Z) (c : SpineMLConnection) (w : world) (q : list read_event),
    CS_HS_GETTINGTARGET <= s <= CS_HS_GETTINGNAME ->
    0 <= noData c -> noData c + Z.of_nat k < NO_DATA_MAX_COUNT ->
    incoming w = stalls k ++ q ->
    handshake_from s c w
    = handshake_from s (set_noData (noData c + Z.of_nat k) c) (after_stalls k q w).
Proof.
  induction k as [|k IH]; intros s c w q Hs Hnd Hk Hin.
  - simpl in Hin. rewrite <- Hin, after_stalls_none.
    replace (noData c + Z.of_nat 0) with (noData c) by lia.
    rewrite set_noData_same. reflexivity.
  - rewrite (handshake_from_next s s c (incr_noData c) w
               (after_stalls 1 (stalls k ++ q) w)
               ltac:(unfold CS_HS_GETTINGTARGET in Hs; lia) ltac:(lia)
               (hs_iter_stall s c w _ Hs Hin)).
    rewrite incr_noData_small by lia.
    rewrite (IH s _ _ q Hs); [| cbn; lia | cbn [noData set_noData]; lia | reflexivity].
    rewrite after_stalls_more. cbn [noData set_noData].
    replace (noData c + 1 + Z.of_nat k) with (noData c + Z.of_nat (S k)) by lia.
    reflexivity.
Qed.

Lemma handshake_from_done (c : SpineMLConnection) (w : world) :
  noData c = 0 ->
  handshake_from CS_HS_DONE c w = Some (0, set_established true c, w).
Proof.
  intros Hnd. unfold handshake_from. rewrite hs_loop_done. cbn [hs_finish].
  rewrite Hnd. reflexivity.
Qed.

Lemma acks_go_out_after_stalls (k : nat) (q : list read_event) (w : world) :
  acks_go_out w -> acks_go_out (after_stalls k q w).
Proof. intros H. exact H. Qed.

Lemma sent_world_after (w w' : world) (q : list read_event) (evs : list io_event) :
  world_after w w' q evs -> sent w' = sent w ++ sent_of evs.
Proof. intros (_ & Ht & _). unfold sent. rewrite Ht. apply sent_of_app. Qed.

Lemma slow_target (c : SpineMLConnection) (w : world) (q : list read_event)
      (k : nat) (dir : byte) :
  noData c = 0 -> (k < 100)%nat -> acks_go_out w ->
  incoming w = stalls k ++ RdBytes [dir] :: q ->
  char_val dir = AM_SOURCE \/ char_val dir = AM_TARGET ->
  exists c1 w1,
    handshake_from CS_HS_GETTINGTARGET c w
    = handshake_from CS_HS_GETTINGDATATYPE c1 w1
    /\ noData c1 = 0 /\ clientDataDirection c1 = char_val dir
    /\ incoming w1 = q /\ acks_go_out w1
    /\ sent w1 = sent w ++ [[char_of RESP_HELLO]]
    /\ heap w1 = heap w.
Proof.
  intros Hnd Hk Hok Hin Hdir.
  rewrite (handshake_from_stalls k CS_HS_GETTINGTARGET c w _ ltac:(unfold CS_HS_GETTINGTARGET, CS_HS_GETTINGNAME; lia)
             ltac:(lia) ltac:(rewrite Hnd; unfold NO_DATA_MAX_COUNT; lia) Hin).
  destruct (hs_getting_target_ok CS_HS_GETTINGTARGET
              (set_noData (noData c + Z.of_nat k) c)
              (after_stalls k (RdBytes [dir] :: q) w) q
              (acks_go_out_after_stalls _ _ _ Hok) dir eq_refl Hdir)
    as (w1 & Hit & Hafter).
  assert (Hnd' : 0 <= noData (set_noData (noData c + Z.of_nat k) c) < NO_DATA_MAX_COUNT)
    by (cbn [noData set_noData]; rewrite Hnd; unfold NO_DATA_MAX_COUNT; lia).
  eexists _, w1. split.
  - apply (handshake_from_next CS_HS_GETTINGTARGET _ _ _ _ _
             ltac:(unfold CS_HS_GETTINGTARGET, CS_HS_GETTINGNAME; lia)
             Hnd' Hit).
  - split; [reflexivity|]. split; [reflexivity|].
    destruct Hafter as (Hin1 & Ht1 & Hok1).
    split; [exact Hin1|]. split; [exact Hok1|].
    split; [|exact (heap_kept_next _ _ _ _ _ (hs_getting_target_heap _ _ _) Hit)].
    rewrite (sent_world_after _ _ _ _ (conj Hin1 (conj Ht1 Hok1))).
    rewrite sent_after_stalls. reflexivity.
Qed.

Lemma slow_datatype (c : SpineMLConnection) (w : world) (q : list read_event)
      (k : nat) (ty : byte) :
  noData c = 0 -> (k < 100)%nat -> acks_go_out w ->
  incoming w = stalls k ++ RdBytes [ty] :: q ->
  char_val ty = RESP_DATA_NUMS ->
  exists c1 w1,
    handshake_from CS_HS_GETTINGDATATYPE c w
    = handshake_from CS_HS_GETTINGDATASIZE c1 w1
    /\ noData c1 = 0 /\ clientDataType c1 = RESP_DATA_NUMS
    /\ clientDataDirection c1 = clientDataDirection c
    /\ incoming w1 = q /\ acks_go_out w1
    /\ sent w1 = sent w ++ [[char_of RESP_RECVD]]
    /\ heap w1 = heap w.
Proof.
  intros Hnd Hk Hok Hin Hty.
  rewrite (handshake_from_stalls k CS_HS_GETTINGDATATYPE c w _
             ltac:(unfold CS_HS_GETTINGTARGET, CS_HS_GETTINGDATATYPE, CS_HS_GETTINGNAME; lia)
             ltac:(lia) ltac:(rewrite Hnd; unfold NO_DATA_MAX_COUNT; lia) Hin).
  destruct (hs_getting_datatype_ok CS_HS_GETTINGDATATYPE
              (set_noData (noData c + Z.of_nat k) c)
              (after_stalls k (RdBytes [ty] :: q) w) q
              (acks_go_out_after_stalls _ _ _ Hok) ty eq_refl Hty)
    as (w1 & Hit & Hafter).
  assert (Hnd' : 0 <= noData (set_noData (noData c + Z.of_nat k) c) < NO_DATA_MAX_COUNT)
    by (cbn [noData set_noData]; rewrite Hnd; unfold NO_DATA_MAX_COUNT; lia).
  eexists _, w1. split.
  - apply (handshake_from_next CS_HS_GETTINGDATATYPE _ _ _ _ _
             ltac:(unfold CS_HS_GETTINGDATATYPE, CS_HS_GETTINGNAME; lia)
             Hnd' Hit).
  - split; [reflexivity|]. split; [reflexivity|]. split; [reflexivity|].
    destruct Hafter as (Hin1 & Ht1 & Hok1).
    split; [exact Hin1|]. split; [exact Hok1|].
    split; [|exact (heap_kept_next _ _ _ _ _ (hs_getting_datatype_heap _ _ _) Hit)].
    rewrite (sent_world_after _ _ _ _ (conj Hin1 (conj Ht1 Hok1))).
    rewrite sent_after_stalls. reflexivity.
Qed.

Lemma slow_datasize (c : SpineMLConnection) (w : world) (q : list read_event)
      (k : nat) (s0 s1 s2 s3 : byte) :
  noData c = 0 -> (k < 100)%nat -> acks_go_out w ->
  incoming w = stalls k ++ RdBytes [s0; s1; s2; s3] :: q ->
  grants w (le_value [s0; s1; s2; s3]) = true ->
  exists c1 w1,
    handshake_from CS_HS_GETTINGDATASIZE c w
    = handshake_from CS_HS_GETTINGNAME c1 w1
    /\ noData c1 = 0 /\ clientDataSize c1 = le_value [s0; s1; s2; s3]
    /\ clientDataType c1 = clientDataType c
    /\ clientDataDirection c1 = clientDataDirection c
    /\ incoming w1 = q /\ acks_go_out w1
    /\ sent w1 = sent w ++ [[char_of RESP_RECVD]].
Proof.
  intros Hnd Hk Hok Hin Hgrant.
  rewrite (handshake_from_stalls k CS_HS_GETTINGDATASIZE c w _
             ltac:(unfold CS_HS_GETTINGTARGET, CS_HS_GETTINGDATASIZE, CS_HS_GETTINGNAME; lia)
             ltac:(lia) ltac:(rewrite Hnd; unfold NO_DATA_MAX_COUNT; lia) Hin).
  destruct (hs_getting_datasize_ok CS_HS_GETTINGDATASIZE
              (set_noData (noData c + Z.of_nat k) c)
              (after_stalls k (RdBytes [s0; s1; s2; s3] :: q) w) q
              (acks_go_out_after_stalls _ _ _ Hok) s0 s1 s2 s3 eq_refl Hgrant)
    as (w1 & Hit & Hafter).
  assert (Hnd' : 0 <= noData (set_noData (noData c + Z.of_nat k) c) < NO_DATA_MAX_COUNT)
    by (cbn [noData set_noData]; rewrite Hnd; unfold NO_DATA_MAX_COUNT; lia).
  eexists _, w1. split.
  - apply (handshake_from_next CS_HS_GETTINGDATASIZE _ _ _ _ _
             ltac:(unfold CS_HS_GETTINGDATASIZE, CS_HS_GETTINGNAME; lia)
             Hnd' Hit).
  - split; [reflexivity|]. split; [reflexivity|]. split; [reflexivity|].
    split; [reflexivity|].
    destruct Hafter as (Hin1 & Ht1 & Hok1).
    split; [exact Hin1|]. split; [exact Hok1|].
    rewrite (sent_world_after _ _ _ _ (conj Hin1 (conj Ht1 Hok1))).
    rewrite sent_after_stalls. reflexivity.
Qed.

Lemma slow_name (c : SpineMLConnection) (w : world) (q : list read_event)
      (k : nat) (l0 l1 l2 l3 : byte) (name : list byte) :
  noData c = 0 -> (k < 100)%nat -> acks_go_out w ->
  incoming w = stalls k ++ RdBytes [l0; l1; l2; l3] :: RdBytes name :: q ->
  le_value [l0; l1; l2; l3] <= 1024 ->
  Z.of_nat (length name) = le_value [l0; l1; l2; l3] ->
  exists c' w',
    handshake_from CS_HS_GETTINGNAME c w = Some (0, c', w')
    /\ established c' = true /\ noData c' = 0
    /\ clientConnectionName c' = String.string_of_list_byte (c_str name)
    /\ clientDataSize c' = clientDataSize c
    /\ clientDataType c' = clientDataType c
    /\ clientDataDirection c' = clientDataDirection c
    /\ incoming w' = q
    /\ sent w' = sent w ++ [[char_of RESP_RECVD]].
Proof.
  intros Hnd Hk Hok Hin Hmax Hlen.
  rewrite (handshake_from_stalls k CS_HS_GETTINGNAME c w _
             ltac:(unfold CS_HS_GETTINGTARGET, CS_HS_GETTINGNAME; lia)
             ltac:(lia) ltac:(rewrite Hnd; unfold NO_DATA_MAX_COUNT; lia) Hin).
  destruct (hs_getting_name_ok CS_HS_GETTINGNAME
              (set_noData (noData c + Z.of_nat k) c)
              (after_stalls k (RdBytes [l0; l1; l2; l3] :: RdBytes name :: q) w) q
              l0 l1 l2 l3 name
              (acks_go_out_after_stalls _ _ _ Hok) eq_refl Hmax Hlen)
    as (d & w1 & Hit & Hafter).
  assert (Hnd' : 0 <= noData (set_noData (noData c + Z.of_nat k) c) < NO_DATA_MAX_COUNT)
    by (cbn [noData set_noData]; rewrite Hnd; unfold NO_DATA_MAX_COUNT; lia).
  rewrite (handshake_from_next CS_HS_GETTINGNAME _ _ _ _ _
             ltac:(unfold CS_HS_GETTINGNAME; lia)
             Hnd' Hit).
  change (CS_HS_GETTINGNAME + 1) with CS_HS_DONE.
  rewrite handshake_from_done by reflexivity.
  eexists _, w1. split; [reflexivity|].
  repeat (split; [reflexivity|]).
  destruct Hafter as (Hin1 & Ht1 & Hok1).
  split; [exact Hin1|].
  rewrite (sent_world_after _ _ _ _ (conj Hin1 (conj Ht1 Hok1))).
  rewrite sent_after_stalls. reflexivity.
Qed.

(** X14.  A client that is slow.  The fields of a valid handshake may
    each be preceded by up to 99 reads that find nothing (the count
    restarts at every stage, so up to 396 such reads in all): the
    handshake still returns 0, with the negotiated direction, type, size
    and name, [noData] at 0, the four acknowledgements written and the
    read script consumed up to the end of the name.  The size is any
    size, 0 included, whose scratch buffer the machine grants.  (The name
    itself must be there at the read that follows its length.) *)
Theorem doHandshake_slow_client
    (c : SpineMLConnection) (w : world) (q : list read_event)
    (k0 k1 k2 k3 : nat)
    (dir ty s0 s1 s2 s3 l0 l1 l2 l3 : byte) (name : list byte) :
  char_val dir = AM_SOURCE \/ char_val dir = AM_TARGET ->
  char_val ty = RESP_DATA_NUMS ->
  grants w (le_value [s0; s1; s2; s3]) = true ->
  le_value [l0; l1; l2; l3] <= 1024 ->
  Z.of_nat (length name) = le_value [l0; l1; l2; l3] ->
  (k0 < 100)%nat -> (k1 < 100)%nat -> (k2 < 100)%nat -> (k3 < 100)%nat ->
  incoming w = stalls k0 ++ RdBytes [dir]
                 :: stalls k1 ++ RdBytes [ty]
                 :: stalls k2 ++ RdBytes [s0; s1; s2; s3]
                 :: stalls k3 ++ RdBytes [l0; l1; l2; l3] :: RdBytes name :: q ->
  acks_go_out w ->
  exists c' w',
    doHandshake c w = Some (0, c', w')
    /\ established c' = true
    /\ noData c' = 0
    /\ clientDataDirection c' = char_val dir
    /\ clientDataType c' = RESP_DATA_NUMS
    /\ clientDataSize c' = le_value [s0; s1; s2; s3]
    /\ clientConnectionName c' = String.string_of_list_byte (c_str name)
    /\ incoming w' = q
    /\ sent w' = sent w ++ handshake_acks.
Proof.
  intros Hdir Hty Hgrant Hmax Hlen Hk0 Hk1 Hk2 Hk3 Hin Hok.
  unfold doHandshake.
  destruct (slow_target (set_noData 0 c) w _ k0 dir eq_refl Hk0 Hok Hin Hdir)
    as (c1 & w1 & Hrun1 & Hnd1 & Hdir1 & Hin1 & Hok1 & Hs1 & Hh1).
  destruct (slow_datatype c1 w1 _ k1 ty Hnd1 Hk1 Hok1 Hin1 Hty)
    as (c2 & w2 & Hrun2 & Hnd2 & Hty2 & Hdir2 & Hin2 & Hok2 & Hs2 & Hh2).
  assert (Hgrant2 : grants w2 (le_value [s0; s1; s2; s3]) = true).
  { rewrite (grants_same_heap w w2) by congruence. exact Hgrant. }
  destruct (slow_datasize c2 w2 _ k2 s0 s1 s2 s3 Hnd2 Hk2 Hok2 Hin2 Hgrant2)
    as (c3 & w3 & Hrun3 & Hnd3 & Hsz3 & Hty3 & Hdir3 & Hin3 & Hok3 & Hs3).
  destruct (slow_name c3 w3 q k3 l0 l1 l2 l3 name Hnd3 Hk3 Hok3 Hin3 Hmax Hlen)
    as (c' & w' & Hrun4 & He & Hnd4 & Hname & Hsz4 & Hty4 & Hdir4 & Hin4 & Hs4).
  exists c', w'.
  split; [rewrite Hrun1, Hrun2, Hrun3; exact Hrun4|].
  split; [exact He|]. split; [exact Hnd4|].
  split; [congruence|]. split; [congruence|]. split; [congruence|].
  split; [exact Hname|]. split; [exact Hin4|].
  rewrite Hs4, Hs3, Hs2, Hs1, <- !app_assoc. reflexivity.
Qed.

Lemma doHandshake_slow_client_witness :
  exists c' w',
    doHandshake new_SpineMLConnection
      (scripted (stalls 99 ++ RdBytes [x2d]
                   :: stalls 0 ++ RdBytes [x1f]
                   :: stalls 99 ++ RdBytes [x02; x00; x00; x00]
                   :: stalls 3 ++ RdBytes [x01; x00; x00; x00] :: [RdBytes [x61]])
                [])
    = Some (0, c', w')
    /\ established c' = true
    /\ clientDataDirection c' = AM_SOURCE
    /\ clientDataSize c' = 2
    /\ clientConnectionName c' = "a"%string
    /\ sent w' = handshake_acks.
Proof.
  assert (Hmax : le_value [x01; x00; x00; x00] <= 1024) by concrete.
  assert (Hgrant : grants (scripted (stalls 99 ++ RdBytes [x2d]
                           :: stalls 0 ++ RdBytes [x1f]
                           :: stalls 99 ++ RdBytes [x02; x00; x00; x00]
                           :: stalls 3 ++ RdBytes [x01; x00; x00; x00]
                           :: [RdBytes [x61]])
                        []) (le_value [x02; x00; x00; x00]) = true)
    by (vm_compute; reflexivity).
  destruct (doHandshake_slow_client new_SpineMLConnection
              (scripted (stalls 99 ++ RdBytes [x2d]
                           :: stalls 0 ++ RdBytes [x1f]
                           :: stalls 99 ++ RdBytes [x02; x00; x00; x00]
                           :: stalls 3 ++ RdBytes [x01; x00; x00; x00]
                           :: [RdBytes [x61]])
                        [])
              [] 99 0 99 3 x2d x1f x02 x00 x00 x00 x01 x00 x00 x00 [x61]
              (or_introl eq_refl) eq_refl Hgrant Hmax eq_refl
              ltac:(lia) ltac:(lia) ltac:(lia) ltac:(lia) eq_refl
              (List.Forall_nil _))
    as (c' & w' & Hrun & He & _ & Hdir & _ & Hsz & Hname & _ & Hsent).
  exists c', w'. split; [exact Hrun|]. split; [exact He|].
  split; [exact Hdir|]. split; [exact Hsz|]. split; [exact Hname | exact Hsent].
Defined.
